(** * Velodyne raw packet decoder (velodyne_pointcloud/src/lib/rawdata.cc)

A shallow embedding of [RawData::setParameters], [RawData::setup],
[RawData::getVLP32TimingOffsets], [RawData::unpackAndAdd] and
[RawData::unpack_vlp], followed by the properties of the decoder.

C++ [float] and [double] values are IEEE-754 binary32 and binary64
numbers, computed with the reference operations of [SpecFloat]
(round to nearest, ties to even).  C++ [int] values are [Z]. *)

From Stdlib Require Import String ZArith List Bool Lia.
From Stdlib Require Import Strings.Byte.
From Stdlib Require Import Floats.SpecFloat.
Import ListNotations.
Local Open Scope Z_scope.
Set Default Proof Using "Type".

(** ** IEEE-754 arithmetic as the compiler emits it *)

Module IEEE.

Definition INT_MIN : Z := - 2 ^ 31.
Definition INT_MAX : Z := 2 ^ 31 - 1.

Section Format.

Variables prec emax : Z.

(** Conversion of an integer: exact when it fits the mantissa. *)
Definition of_Z (n : Z) : spec_float :=
  binary_normalize prec emax n 0 false.

(** Conversion from another format (rounds when narrowing). *)
Definition convert (x : spec_float) : spec_float :=
  match x with
  | S754_finite s m e => binary_round prec emax s m e
  | _ => x
  end.

End Format.

Definition is_nan (x : spec_float) : bool :=
  match x with S754_nan => true | _ => false end.

(** Zero or finite: neither an infinity nor a NaN. *)
Definition is_finite (x : spec_float) : bool :=
  match x with
  | S754_zero _ | S754_finite _ _ _ => true
  | _ => false
  end.

(** The integer part of [m * 2^e], toward zero. *)
Definition trunc_mag (m : positive) (e : Z) : Z :=
  match e with
  | Zneg p => Z.shiftr (Zpos m) (Zpos p)
  | _ => Z.shiftl (Zpos m) e
  end.

(** [m * 2^e] to the nearest integer, halves away from zero (C [round]). *)
Definition round_mag (m : positive) (e : Z) : Z :=
  match e with
  | Zneg p =>
      Z.shiftr (Zpos m) (Zpos p)
      + (if Z.testbit (Zpos m) (Zpos p - 1) then 1 else 0)
  | _ => Z.shiftl (Zpos m) e
  end.

(** A floating-point value converted to [int].  The conversion is
    undefined in C++ when the value does not fit; the x86-64 conversion
    instructions then deliver the "integer indefinite" value [INT_MIN],
    which is what is modelled here. *)
Definition int_of_mag (s : bool) (n : Z) : Z :=
  let v := cond_Zopp s n in
  if (INT_MIN <=? v) && (v <=? INT_MAX) then v else INT_MIN.

(** [(int) x] *)
Definition to_int (x : spec_float) : Z :=
  match x with
  | S754_zero _ => 0
  | S754_finite s m e => int_of_mag s (trunc_mag m e)
  | _ => INT_MIN
  end.

(** [(int) round(x)] *)
Definition round_to_int (x : spec_float) : Z :=
  match x with
  | S754_zero _ => 0
  | S754_finite s m e => int_of_mag s (round_mag m e)
  | _ => INT_MIN
  end.

End IEEE.

Definition float : Type := spec_float.
Definition double : Type := spec_float.

Module F32.

Definition prec : Z := 24.
Definition emax : Z := 128.
Definition add : float -> float -> float := SFadd prec emax.
Definition sub : float -> float -> float := SFsub prec emax.
Definition mul : float -> float -> float := SFmul prec emax.
Definition div : float -> float -> float := SFdiv prec emax.
Definition neg : float -> float := SFopp.
Definition abs : float -> float := SFabs.
Definition ltb : float -> float -> bool := SFltb.
Definition of_int : Z -> float := IEEE.of_Z prec emax.
Definition of_double : double -> float := IEEE.convert prec emax.
Definition valid : float -> bool := valid_binary prec emax.
Definition zero : float := S754_zero false.

End F32.

Module F64.

Definition prec : Z := 53.
Definition emax : Z := 1024.
Definition add : double -> double -> double := SFadd prec emax.
Definition sub : double -> double -> double := SFsub prec emax.
Definition mul : double -> double -> double := SFmul prec emax.
Definition div : double -> double -> double := SFdiv prec emax.
Definition ltb : double -> double -> bool := SFltb.
Definition leb : double -> double -> bool := SFleb.
Definition of_int : Z -> double := IEEE.of_Z prec emax.
Definition of_float : float -> double := IEEE.convert prec emax.
Definition zero : double := S754_zero false.

(** A decimal literal [n / 10^k]: the quotient of two exactly
    represented integers is correctly rounded, so this is the double
    nearest to the decimal, as the compiler reads it. *)
Definition decimal (n : Z) (k : Z) : double :=
  div (of_int n) (of_int (10 ^ k)).

(** [fmod(x, y)]: the remainder of the division truncated toward zero,
    with the sign of [x]; it is always exact. *)
Definition fmod (x y : double) : double :=
  match x, y with
  | S754_nan, _ | _, S754_nan => S754_nan
  | S754_infinity _, _ => S754_nan
  | _, S754_zero _ => S754_nan
  | _, S754_infinity _ => x
  | S754_zero _, _ => x
  | S754_finite sx mx ex, S754_finite _ my ey =>
      let e := Z.min ex ey in
      let r := Z.rem (Z.shiftl (Zpos mx) (ex - e)) (Z.shiftl (Zpos my) (ey - e)) in
      binary_normalize prec emax (cond_Zopp sx r) e sx
  end.

(** [M_PI] of <math.h>: 0x400921FB54442D18. *)
Definition M_PI : double := S754_finite false 7074237752028440 (-51).

End F64.

(** ** Data model *)

(** [velodyne_pointcloud::LaserCorrection], the fields the decoder reads.
    The declaration is in the calibration header; every numeric field is
    read into a [float] local by the decoder, [laser_ring] is the output
    channel number. *)
Record LaserCorrection : Type := {
  dist_correction : float;
  two_pt_correction_available : bool;
  dist_correction_x : float;
  dist_correction_y : float;
  vert_offset_correction : float;
  horiz_offset_correction : float;
  max_intensity : float;
  min_intensity : float;
  focal_distance : float;
  focal_slope : float;
  cos_rot_correction : float;
  sin_rot_correction : float;
  cos_vert_correction : float;
  sin_vert_correction : float;
  laser_ring : Z
}.

(** [velodyne_pointcloud::Calibration] *)
Record Calibration : Type := {
  laser_corrections : list LaserCorrection;
  num_lasers : Z;
  initialized : bool
}.

(** The device profile ([vlp_spec_]). *)
Record VLPSpec : Type := {
  distance_resolution : float;
  firing_duration : float;
  firing_seq_duration : float;
  block_duration : float;
  lasers_per_firing : Z;
  lasers_per_firing_seq : Z;
  firing_seqs_per_block : Z
}.

(** [ros::Time] and [ros::Duration]: seconds and nanoseconds. *)
Record Time : Type := { sec : Z; nsec : Z }.
Record Duration : Type := { dsec : Z; dnsec : Z }.

(** [config_] *)
Record Config : Type := {
  deviceModel : string;
  max_range : double;
  min_range : double;
  min_angle : Z;
  max_angle : Z;
  tmp_min_angle : double;
  tmp_max_angle : double
}.

(** The decoder instance: the members of [RawData]. *)
Record RawData : Type := {
  config_ : Config;
  calibration_ : Calibration;
  vlp_spec_ : VLPSpec;
  timing_offsets_ : list (list Duration);
  is_vlp_ : bool;
  sin_rot_table_ : Z -> float;
  cos_rot_table_ : Z -> float
}.

(** One output point ([VPoint]) and the output cloud ([VPointCloud]). *)
Module VPoint.

Record t : Type := {
  x : float;
  y : float;
  z : float;
  intensity : float;
  time_sec : Z;
  time_nsec : Z;
  laser_id : Z
}.

End VPoint.

Record VPointCloud : Type := {
  points : list VPoint.t;
  width : Z
}.

(** [velodyne_msgs::VelodynePacket]: arrival time and the raw bytes. *)
Record VelodynePacket : Type := {
  stamp : Time;
  data : list byte
}.

(** ** Wire format

    Modelled from the spec: the packet layout constants of the decoder's
    header.  A packet is a fixed number of fixed-size blocks; a block is a
    2-byte header, a 2-byte rotation and per-channel entries of a 2-byte
    distance and a 1-byte intensity, tightly packed.  The counts are the
    ones the source's comments give (12 firing cycles per packet, 32
    lasers per bank, banks [0..31] and [32..63]); the rotation tables
    cover every hundredth of a degree in [0, 36000). *)
Definition RAW_SCAN_SIZE : Z := 3.
Definition SCANS_PER_BLOCK : Z := 32.
Definition BLOCK_DATA_SIZE : Z := SCANS_PER_BLOCK * RAW_SCAN_SIZE.
Definition SIZE_BLOCK : Z := 2 + 2 + BLOCK_DATA_SIZE.
Definition BLOCKS_PER_PACKET : Z := 12.
Definition ROTATION_MAX_UNITS : Z := 36000.

(** The byte at an offset of the packet buffer. *)
Definition byte_at (pkt : VelodynePacket) (off : Z) : Z :=
  Z.of_N (Byte.to_N (nth (Z.to_nat off) (data pkt) "000"%byte)).

(** A little-endian [uint16_t], as [union two_bytes] and the cast to
    [raw_packet_t] read it. *)
Definition uint16_at (pkt : VelodynePacket) (off : Z) : Z :=
  byte_at pkt off + 256 * byte_at pkt (off + 1).

(** [raw->blocks[b].header], [raw->blocks[b].rotation],
    [raw->blocks[b].data[k]] *)
Definition block_header (pkt : VelodynePacket) (b : Z) : Z :=
  uint16_at pkt (b * SIZE_BLOCK).
Definition block_rotation (pkt : VelodynePacket) (b : Z) : Z :=
  uint16_at pkt (b * SIZE_BLOCK + 2).
Definition block_data (pkt : VelodynePacket) (b k : Z) : Z :=
  byte_at pkt (b * SIZE_BLOCK + 4 + k).
(** [tmp.uint] after the two byte stores into [union two_bytes]. *)
Definition block_uint (pkt : VelodynePacket) (b k : Z) : Z :=
  block_data pkt b k + 256 * block_data pkt b (k + 1).

(** ** Control flow of the decode routines

    A decode call runs on the caller's point cloud, which it mutates in
    place.  It ends by falling through, by [return] from inside a loop, or
    by the [std::out_of_range] that [vector::at] throws; in each case the
    points appended so far stay in the cloud. *)
Inductive abrupt : Type :=
| Return (v : float)
| OutOfRange.

Definition M (A : Type) : Type := VPointCloud -> (A + abrupt) * VPointCloud.

Definition ret {A} (a : A) : M A := fun pc => (inl a, pc).
Definition bind {A B} (m : M A) (k : A -> M B) : M B :=
  fun pc =>
    match m pc with
    | (inl a, pc') => k a pc'
    | (inr e, pc') => (inr e, pc')
    end.
Definition return_ {A} (v : float) : M A := fun pc => (inr (Return v), pc).
Definition throw_out_of_range {A} : M A := fun pc => (inr OutOfRange, pc).

(** [pc.points.push_back(point); ++pc.width;] *)
Definition push_back (p : VPoint.t) : M unit :=
  fun pc => (inl tt, {| points := points pc ++ [p]; width := width pc + 1 |}).

(** [v.at(i)] *)
Definition at_ {A} (v : list A) (i : Z) : M A :=
  if i <? 0 then throw_out_of_range
  else match nth_error v (Z.to_nat i) with
       | Some a => ret a
       | None => throw_out_of_range
       end.

Declare Scope decode_scope.
Delimit Scope decode_scope with decode.
Notation "x <- m ;; k" := (bind m (fun x => k))
  (at level 100, m at next level, right associativity) : decode_scope.
Notation "m ;;; k" := (bind m (fun _ => k))
  (at level 100, right associativity) : decode_scope.

(** [for (i = lo; i < hi; i++) body], with the variables the body
    updates threaded as [s]. *)
Fixpoint for_count {S} (n : nat) (i : Z) (body : Z -> S -> M S) (s : S) : M S :=
  match n with
  | O => ret s
  | Datatypes.S n' => bind (body i s) (for_count n' (i + 1) body)
  end.
Definition for_ {S} (lo hi : Z) (body : Z -> S -> M S) (s : S) : M S :=
  for_count (Z.to_nat (hi - lo)) lo body s.

(** What the caller of a decode routine observes. *)
Inductive outcome : Type :=
| Returned (v : float)
| Threw.

Definition run (m : M float) (pc : VPointCloud) : outcome * VPointCloud :=
  match m pc with
  | (inl v, pc') => (Returned v, pc')
  | (inr (Return v), pc') => (Returned v, pc')
  | (inr OutOfRange, pc') => (Threw, pc')
  end.

(** Plain counted loops of the setup code (no early exit). *)
Fixpoint loop_count {S} (n : nat) (i : Z) (body : Z -> S -> S) (s : S) : S :=
  match n with
  | O => s
  | Datatypes.S n' => loop_count n' (i + 1) body (body i s)
  end.

(** [v[i] = a] on a vector, and [v[i][j] = a] on a vector of vectors. *)
Fixpoint assign {A} (v : list A) (i : nat) (a : A) : list A :=
  match v, i with
  | [], _ => []
  | _ :: t, O => a :: t
  | h :: t, Datatypes.S i' => h :: assign t i' a
  end.
Definition assign2 {A} (v : list (list A)) (i j : Z) (a : A) : list (list A) :=
  assign v (Z.to_nat i) (assign (nth (Z.to_nat i) v []) (Z.to_nat j) a).

(** ** Reference forms used to state the properties *)

(** [i, i+1, ..., i+n-1] *)
Fixpoint zrange (n : nat) (i : Z) : list Z :=
  match n with
  | O => []
  | Datatypes.S n' => i :: zrange n' (i + 1)
  end.

Definition option_list {A} (o : option A) : list A :=
  match o with
  | Some a => [a]
  | None => []
  end.

(** The cloud after [push_back] of each point of [l] in turn. *)
Definition append_points (pc : VPointCloud) (l : list VPoint.t) : VPointCloud :=
  {| points := points pc ++ l; width := width pc + Z.of_nat (List.length l) |}.

(** [m * 2^k] on mantissas, for [k >= 0]. *)
Definition shl (m : positive) (k : Z) : positive :=
  match k with
  | Zpos d => Pos.iter xO m d
  | _ => m
  end.

(** The float of precision [prec] that holds the non-zero integer of
    magnitude [p], when [p < 2^prec]. *)
Definition int_float (prec : Z) (s : bool) (p : positive) : spec_float :=
  let j := prec - Zpos (digits2_pos p) in
  S754_finite s (shl p j) (- j).

(** The inter-block azimuth delta
    [(36000 + rotation(b+1) - rotation(b)) % 36000]. *)
Definition rotation_delta (pkt : VelodynePacket) (b : Z) : Z :=
  Z.rem (36000 + block_rotation pkt (b + 1) - block_rotation pkt b) 36000.

(** The azimuth step of block [b]: its delta to the next block, and for
    the final block the delta computed for the block before it. *)
Definition block_diff (pkt : VelodynePacket) (b : Z) : Z :=
  if b <? BLOCKS_PER_PACKET - 1 then rotation_delta pkt b
  else rotation_delta pkt (BLOCKS_PER_PACKET - 2).

(** The sum of the deltas of blocks [0 .. n-1]. *)
Fixpoint sweep (pkt : VelodynePacket) (n : nat) : Z :=
  match n with
  | O => 0
  | Datatypes.S n' => sweep pkt n' + rotation_delta pkt (Z.of_nat n')
  end.

(** The corrected azimuth of block [b], firing sequence [s], laser [l]:
    rotation plus the block's azimuth step times the firing's time offset
    over the block duration, rounded, reduced by 36000 (the remainder
    keeps the sign of the rounded value, as [%] does). *)
Definition interpolated_azimuth (spec : VLPSpec) (pkt : VelodynePacket)
    (b s l : Z) : Z :=
  Z.rem
    (IEEE.round_to_int
       (F32.add (F32.of_int (block_rotation pkt b))
          (F32.div
             (F32.mul (F32.of_int (block_diff pkt b))
                (F32.add
                   (F32.mul (F32.of_int (l / lasers_per_firing spec))
                            (firing_duration spec))
                   (F32.mul (F32.of_int s) (firing_seq_duration spec))))
             (block_duration spec))))
    36000.

(** The azimuth step of the block before block [n]; 0 before the first. *)
Definition last_diff (pkt : VelodynePacket) (n : nat) : Z :=
  match n with
  | O => 0
  | Datatypes.S n' => block_diff pkt (Z.of_nat n')
  end.

(** Finite mantissa and exponent inside the format's range. *)
Definition in_format (prec emax : Z) (x : spec_float) : Prop :=
  match x with
  | S754_finite _ m e =>
      Zpos (digits2_pos m) <= prec /\ emin prec emax <= e <= emax - prec
  | _ => True
  end.

(** Zero, or finite of magnitude below [2^E]. *)
Definition below (E : Z) (x : spec_float) : Prop :=
  match x with
  | S754_zero _ => True
  | S754_finite _ m e => Zpos (digits2_pos m) + e <= E
  | _ => False
  end.

(** ** A concrete decoder, for the examples

    The constants are the ones of the VLP-16 and VLP-32C data sheets and
    of the sensor's wire format. *)
Module Example.

Definition UPPER_BANK : Z := 61183.   (* 0xeeff *)
Definition LOWER_BANK : Z := 56831.   (* 0xddff *)

(** The [float] nearest to the decimal [n / 10^k]. *)
Definition f32 (n k : Z) : float := F32.of_double (F64.decimal n k).

Definition DISTANCE_RESOLUTION : float := f32 2 3.
Definition ROTATION_RESOLUTION : float := f32 1 2.

Definition VLP_16_SPEC : VLPSpec :=
  {| distance_resolution := f32 2 3;
     firing_duration := f32 2304 3;
     firing_seq_duration := f32 55296 3;
     block_duration := f32 110592 3;
     lasers_per_firing := 1;
     lasers_per_firing_seq := 16;
     firing_seqs_per_block := 2 |}.

Definition VLP_32_SPEC : VLPSpec :=
  {| distance_resolution := f32 4 3;
     firing_duration := f32 2304 3;
     firing_seq_duration := f32 55296 3;
     block_duration := f32 55296 3;
     lasers_per_firing := 2;
     lasers_per_firing_seq := 32;
     firing_seqs_per_block := 1 |}.

(** [ros::Duration(double)]: whole seconds and the rest in nanoseconds. *)
Definition Duration_of_double (d : double) : Duration :=
  let s := IEEE.to_int d in
  {| dsec := s;
     dnsec := IEEE.round_to_int
                (F64.mul (F64.sub d (F64.of_int s)) (F64.of_int 1000000000)) |}.

(** [ros::Time + ros::Duration], nanoseconds carried into seconds. *)
Definition Time_plus (t : Time) (d : Duration) : Time :=
  let n := nsec t + dnsec d in
  {| sec := sec t + dsec d + n / 1000000000; nsec := n mod 1000000000 |}.

(** Stand-ins for [cosf] and [sinf]: exact at heading 0, which is the
    only heading the examples look up. *)
Definition cosf (r : float) : float := F32.of_int 1.
Definition sinf (r : float) : float := F32.of_int 0.

(** A calibration entry without corrections. *)
Definition plain_laser (ring : Z) : LaserCorrection :=
  {| dist_correction := F32.of_int 0;
     two_pt_correction_available := false;
     dist_correction_x := F32.of_int 0;
     dist_correction_y := F32.of_int 0;
     vert_offset_correction := F32.of_int 0;
     horiz_offset_correction := F32.of_int 0;
     max_intensity := F32.of_int 255;
     min_intensity := F32.of_int 0;
     focal_distance := F32.of_int 0;
     focal_slope := F32.of_int 1;
     cos_rot_correction := F32.of_int 1;
     sin_rot_correction := F32.of_int 0;
     cos_vert_correction := F32.of_int 1;
     sin_vert_correction := F32.of_int 0;
     laser_ring := ring |}.

Definition calibration (n : nat) : Calibration :=
  {| laser_corrections := map plain_laser (zrange n 0);
     num_lasers := Z.of_nat n;
     initialized := true |}.

(** The full circle, ranges from 0.4 to 130. *)
Definition full_circle : Config :=
  {| deviceModel := "";
     max_range := F64.of_int 130;
     min_range := F64.decimal 4 1;
     min_angle := 0;
     max_angle := 36000;
     tmp_min_angle := F64.zero;
     tmp_max_angle := F64.zero |}.

(** A window that wraps through zero: from 315 degrees to 45 degrees. *)
Definition wrapped_window : Config :=
  {| deviceModel := "";
     max_range := F64.of_int 130;
     min_range := F64.decimal 4 1;
     min_angle := 31500;
     max_angle := 4500;
     tmp_min_angle := F64.zero;
     tmp_max_angle := F64.zero |}.

Definition decoder (config : Config) (cal : Calibration) (spec : VLPSpec)
    (vlp : bool) : RawData :=
  {| config_ := config;
     calibration_ := cal;
     vlp_spec_ := spec;
     timing_offsets_ := [];
     is_vlp_ := vlp;
     sin_rot_table_ := fun _ => F32.of_int 0;
     cos_rot_table_ := fun _ => F32.of_int 1 |}.

Definition vlp16 : RawData := decoder full_circle (calibration 16) VLP_16_SPEC true.
Definition legacy64 : RawData := decoder full_circle (calibration 64) VLP_16_SPEC false.

(** Packet construction. *)
Definition byte_of_Z (n : Z) : byte :=
  match Byte.of_N (Z.to_N (n mod 256)) with
  | Some b => b
  | None => "000"%byte
  end.
Definition le16 (n : Z) : list byte := [byte_of_Z n; byte_of_Z (n / 256)].
(** A channel entry: distance word and intensity byte. *)
Definition entry (distance intensity : Z) : list byte :=
  le16 distance ++ [byte_of_Z intensity].
(** A block with the given leading entries, the others zero. *)
Definition block (header rotation : Z) (entries : list byte) : list byte :=
  firstn 100 (le16 header ++ le16 rotation ++ entries ++ repeat "000"%byte 96).
(** A packet of twelve blocks and its six trailing bytes. *)
Definition packet (blocks : list (list byte)) : VelodynePacket :=
  {| stamp := {| sec := 1500000000; nsec := 250 |};
     data := concat blocks ++ repeat "000"%byte 6 |}.

Definition empty_cloud : VPointCloud := {| points := []; width := 0 |}.

(** Twelve valid blocks, 0.4 degrees apart from 1 degree on; the first
    channel of every block measured 1000 units at intensity 10. *)
Definition valid_packet : VelodynePacket :=
  packet (map (fun b => block UPPER_BANK (100 + 40 * b) (entry 1000 10)) (zrange 12 0)).

(** The blocks and arrival time of [valid_packet], followed by six
    other trailing bytes. *)
Definition trailer_packet : VelodynePacket :=
  {| stamp := stamp valid_packet;
     data := firstn 1200 (data valid_packet) ++ repeat "255"%byte 6 |}.

(** The same packet with the header of block 1 zeroed. *)
Definition rejected_packet : VelodynePacket :=
  packet (map (fun b => block (if b =? 1 then 0 else UPPER_BANK) (100 + 40 * b)
                         (entry 1000 10))
              (zrange 12 0)).

(** Twelve valid blocks; one return at half range (word 32768,
    intensity 10) in the first channel of block 0, nothing elsewhere. *)
Definition half_range_packet : VelodynePacket :=
  packet (map (fun b => block UPPER_BANK (100 + 40 * b)
                         (if b =? 0 then entry 32768 10 else []))
              (zrange 12 0)).

(** Valid headers, but block 10 reports the rotation 40000, outside
    [0, 36000), and block 11 the rotation 0. *)
Definition stray_rotation_packet : VelodynePacket :=
  packet (map (fun b => block UPPER_BANK
                         (if b =? 10 then 40000 else if b =? 11 then 0 else 100 + 40 * b)
                         (entry 1000 10 ++ entry 1000 10))
              (zrange 12 0)).

Definition vlp16_wrapped : RawData :=
  decoder wrapped_window (calibration 16) VLP_16_SPEC true.

(** The same decoder with another value in the memory before the
    cosine table. *)
Definition vlp16_wrapped' : RawData :=
  {| config_ := wrapped_window;
     calibration_ := calibration 16;
     vlp_spec_ := VLP_16_SPEC;
     timing_offsets_ := [];
     is_vlp_ := true;
     sin_rot_table_ := fun _ => F32.of_int 0;
     cos_rot_table_ := fun i => if i <? 0 then F32.of_int 2 else F32.of_int 1 |}.

(** A calibration entry whose horizontal offset is infinite, two-point
    correction off, and the same entry with the correction on and both
    reference corrections equal to the base correction. *)
Definition unbounded_laser : LaserCorrection :=
  {| dist_correction := F32.of_int 0;
     two_pt_correction_available := false;
     dist_correction_x := F32.of_int 0;
     dist_correction_y := F32.of_int 0;
     vert_offset_correction := F32.of_int 0;
     horiz_offset_correction := S754_infinity false;
     max_intensity := F32.of_int 255;
     min_intensity := F32.of_int 0;
     focal_distance := F32.of_int 0;
     focal_slope := F32.of_int 1;
     cos_rot_correction := F32.of_int 1;
     sin_rot_correction := F32.of_int 0;
     cos_vert_correction := F32.of_int 1;
     sin_vert_correction := F32.of_int 0;
     laser_ring := 0 |}.

Definition unbounded_laser_two_pt : LaserCorrection :=
  {| dist_correction := F32.of_int 0;
     two_pt_correction_available := true;
     dist_correction_x := F32.of_int 0;
     dist_correction_y := F32.of_int 0;
     vert_offset_correction := F32.of_int 0;
     horiz_offset_correction := S754_infinity false;
     max_intensity := F32.of_int 255;
     min_intensity := F32.of_int 0;
     focal_distance := F32.of_int 0;
     focal_slope := F32.of_int 1;
     cos_rot_correction := F32.of_int 1;
     sin_rot_correction := F32.of_int 0;
     cos_vert_correction := F32.of_int 1;
     sin_vert_correction := F32.of_int 0;
     laser_ring := 0 |}.

Definition uniform_calibration (c : LaserCorrection) (n : nat) : Calibration :=
  {| laser_corrections := repeat c n; num_lasers := Z.of_nat n; initialized := true |}.

Definition vlp16_unbounded : RawData :=
  decoder full_circle (uniform_calibration unbounded_laser 16) VLP_16_SPEC true.
Definition vlp16_unbounded_two_pt : RawData :=
  decoder full_circle (uniform_calibration unbounded_laser_two_pt 16) VLP_16_SPEC true.

(** The plain VLP16 decoder with the two-point correction on and both
    reference corrections equal to the base correction, in every entry. *)
Definition plain_laser_two_pt (ring : Z) : LaserCorrection :=
  {| dist_correction := F32.of_int 0;
     two_pt_correction_available := true;
     dist_correction_x := F32.of_int 0;
     dist_correction_y := F32.of_int 0;
     vert_offset_correction := F32.of_int 0;
     horiz_offset_correction := F32.of_int 0;
     max_intensity := F32.of_int 255;
     min_intensity := F32.of_int 0;
     focal_distance := F32.of_int 0;
     focal_slope := F32.of_int 1;
     cos_rot_correction := F32.of_int 1;
     sin_rot_correction := F32.of_int 0;
     cos_vert_correction := F32.of_int 1;
     sin_vert_correction := F32.of_int 0;
     laser_ring := ring |}.

Definition vlp16_two_pt : RawData :=
  decoder full_circle
    {| laser_corrections := map plain_laser_two_pt (zrange 16 0);
       num_lasers := 16;
       initialized := true |}
    VLP_16_SPEC true.

(** A window whose bounds coincide at 90 degrees. *)
Definition collapsed_window : Config :=
  {| deviceModel := "";
     max_range := F64.of_int 130;
     min_range := F64.decimal 4 1;
     min_angle := 9000;
     max_angle := 9000;
     tmp_min_angle := F64.zero;
     tmp_max_angle := F64.zero |}.

Definition vlp16_collapsed : RawData :=
  decoder collapsed_window (calibration 16) VLP_16_SPEC true.

(** A legacy decoder with the calibration of a 16-laser sensor, and a
    VLP16 decoder with a calibration of 8 lasers only. *)
Definition legacy16 : RawData := decoder full_circle (calibration 16) VLP_16_SPEC false.
Definition vlp16_short : RawData := decoder full_circle (calibration 8) VLP_16_SPEC true.

End Example.
(** ** The decoder *)

Section Decoder.

(** Constants of the decoder's header and functions of the libraries it
    calls; the source under study uses them by name only. *)
Variable UPPER_BANK LOWER_BANK : Z.
Variable DISTANCE_RESOLUTION ROTATION_RESOLUTION : float.
Variable VLP_16_SPEC VLP_32_SPEC : VLPSpec.
Variable cosf sinf : float -> float.
(** [ros::Duration(double)] and [ros::Time + ros::Duration]. *)
Variable Duration_of_double : double -> Duration.
Variable Time_plus : Time -> Duration -> Time.

(** *** setParameters *)

(** [2*M_PI] *)
Definition two_pi : double := F64.mul (F64.of_int 2) F64.M_PI.

(** [fmod(fmod(a, 2*M_PI) + 2*M_PI, 2*M_PI)] *)
Definition positive_modulo (a : double) : double :=
  F64.fmod (F64.add (F64.fmod a two_pi) two_pi) two_pi.

(** [100 * (2*M_PI - tmp) * 180 / M_PI + 0.5], stored into an [int]. *)
Definition hardware_angle (tmp : double) : Z :=
  IEEE.to_int
    (F64.add
       (F64.div
          (F64.mul (F64.mul (F64.of_int 100) (F64.sub two_pi tmp)) (F64.of_int 180))
          F64.M_PI)
       (F64.decimal 5 1)).

(** The integer bounds [setParameters] derives before it compares them. *)
Definition derived_min_angle (view_direction view_width : double) : Z :=
  hardware_angle
    (positive_modulo (F64.add view_direction (F64.div view_width (F64.of_int 2)))).
Definition derived_max_angle (view_direction view_width : double) : Z :=
  hardware_angle
    (positive_modulo (F64.sub view_direction (F64.div view_width (F64.of_int 2)))).

Definition setParameters (this : RawData)
    (min_range max_range view_direction view_width : double) : RawData :=
  let tmp_min_angle := F64.add view_direction (F64.div view_width (F64.of_int 2)) in
  let tmp_max_angle := F64.sub view_direction (F64.div view_width (F64.of_int 2)) in
  let tmp_min_angle := positive_modulo tmp_min_angle in
  let tmp_max_angle := positive_modulo tmp_max_angle in
  let min_angle := hardware_angle tmp_min_angle in
  let max_angle := hardware_angle tmp_max_angle in
  let '(min_angle, max_angle) :=
    if min_angle =? max_angle then (0, 36000) else (min_angle, max_angle) in
  {| config_ :=
       {| deviceModel := deviceModel (config_ this);
          max_range := max_range;
          min_range := min_range;
          min_angle := min_angle;
          max_angle := max_angle;
          tmp_min_angle := tmp_min_angle;
          tmp_max_angle := tmp_max_angle |};
     calibration_ := calibration_ this;
     vlp_spec_ := vlp_spec_ this;
     timing_offsets_ := timing_offsets_ this;
     is_vlp_ := is_vlp_ this;
     sin_rot_table_ := sin_rot_table_ this;
     cos_rot_table_ := cos_rot_table_ this |}.

(** *** getVLP32TimingOffsets *)

Definition getVLP32TimingOffsets : list (list Duration) :=
  let offsets :=
    repeat (repeat (Duration_of_double (F64.of_int 0)) 32) 12 in
  let full_firing_cycle :=
    F64.mul (F64.of_float (firing_seq_duration VLP_32_SPEC)) (F64.decimal 1 6) in
  let single_firing :=
    F64.mul (F64.of_float (firing_duration VLP_32_SPEC)) (F64.decimal 1 6) in
  let dual_mode := false in
  loop_count (List.length offsets) 0
    (fun i offsets =>
       loop_count (List.length (nth (Z.to_nat i) offsets [])) 0
         (fun j offsets =>
            let block_idx :=
              if dual_mode then F64.of_int (i / 2) else F64.of_int i in
            let pt_idx := F64.of_int (j / 2) in
            assign2 offsets i j
              (Duration_of_double
                 (F64.add (F64.mul full_firing_cycle block_idx)
                          (F64.mul single_firing pt_idx))))
         offsets)
    offsets.

(** *** setup

[calibration] is the state of [calibration_] after
[calibration_.read(config_.calibrationFile)], [device_model] the
value of the "device_model" parameter when it is set.  Returns the
status code and the decoder. *)

(** [angles::from_degrees] *)
Definition from_degrees (degrees : double) : double :=
  F64.div (F64.mul degrees F64.M_PI) (F64.of_int 180).

(** The heading whose sine and cosine are cached at [rot_index]. *)
Definition table_rotation (rot_index : Z) : float :=
  F32.of_double
    (from_degrees (F64.of_float (F32.mul ROTATION_RESOLUTION (F32.of_int rot_index)))).

Definition in_table (rot_index : Z) : bool :=
  (0 <=? rot_index) && (rot_index <? ROTATION_MAX_UNITS).

Definition setup (this : RawData) (calibration : Calibration)
    (device_model : option string) : Z * RawData :=
  if negb (initialized calibration) then
    (-1,
     {| config_ := config_ this;
        calibration_ := calibration;
        vlp_spec_ := vlp_spec_ this;
        timing_offsets_ := timing_offsets_ this;
        is_vlp_ := is_vlp_ this;
        sin_rot_table_ := sin_rot_table_ this;
        cos_rot_table_ := cos_rot_table_ this |})
  else
    let config :=
      match device_model with
      | Some m =>
          {| deviceModel := m;
             max_range := max_range (config_ this);
             min_range := min_range (config_ this);
             min_angle := min_angle (config_ this);
             max_angle := max_angle (config_ this);
             tmp_min_angle := tmp_min_angle (config_ this);
             tmp_max_angle := tmp_max_angle (config_ this) |}
      | None => config_ this
      end in
    let '(vlp_spec, timing_offsets, is_vlp) :=
      if num_lasers calibration =? 16 then
        (VLP_16_SPEC, [], true)
      else if String.eqb (deviceModel config) "VLP32" then
        (VLP_32_SPEC, getVLP32TimingOffsets, true)
      else
        (vlp_spec_ this, [], false) in
    (0,
     {| config_ := config;
        calibration_ := calibration;
        vlp_spec_ := vlp_spec;
        timing_offsets_ := timing_offsets;
        is_vlp_ := is_vlp;
        sin_rot_table_ :=
          (fun i => if in_table i then sinf (table_rotation i)
                    else sin_rot_table_ this i);
        cos_rot_table_ :=
          (fun i => if in_table i then cosf (table_rotation i)
                    else cos_rot_table_ this i) |}).

(** *** Decoding *)

(** The field-of-view condition on an azimuth, written the same way in
    both decode routines. *)
Definition azimuth_in_view (config : Config) (azimuth : Z) : bool :=
  ((min_angle config <=? azimuth)
   && (azimuth <=? max_angle config)
   && (min_angle config <? max_angle config))
  || ((max_angle config <? min_angle config)
      && ((azimuth <=? max_angle config) || (min_angle config <=? azimuth))).

(** Modelled from the spec: [pointInRange] of the decoder's header, the
    range gate [min_range <= distance <= max_range], bounds included. *)
Definition pointInRange (this : RawData) (range : float) : bool :=
  F64.leb (min_range (config_ this)) (F64.of_float range)
  && F64.leb (F64.of_float range) (max_range (config_ this)).

(** The position calculation, the same statements in both routines:
    from the corrected [distance] and the table entries at the azimuth
    to [(x_coord, y_coord, z_coord)]. *)
Definition position (corrections : LaserCorrection)
    (distance cos_rot_table_az sin_rot_table_az : float) : float * float * float :=
  let cos_vert_angle := cos_vert_correction corrections in
  let sin_vert_angle := sin_vert_correction corrections in
  let cos_rot_correction := cos_rot_correction corrections in
  let sin_rot_correction := sin_rot_correction corrections in
  let cos_rot_angle :=
    F32.add (F32.mul cos_rot_table_az cos_rot_correction)
            (F32.mul sin_rot_table_az sin_rot_correction) in
  let sin_rot_angle :=
    F32.sub (F32.mul sin_rot_table_az cos_rot_correction)
            (F32.mul cos_rot_table_az sin_rot_correction) in
  let horiz_offset := horiz_offset_correction corrections in
  let vert_offset := vert_offset_correction corrections in
  let xy_distance :=
    F32.sub (F32.mul distance cos_vert_angle) (F32.mul vert_offset sin_vert_angle) in
  let xx :=
    F32.sub (F32.mul xy_distance sin_rot_angle) (F32.mul horiz_offset cos_rot_angle) in
  let yy :=
    F32.add (F32.mul xy_distance cos_rot_angle) (F32.mul horiz_offset sin_rot_angle) in
  let xx := if F32.ltb xx (F32.of_int 0) then F32.neg xx else xx in
  let yy := if F32.ltb yy (F32.of_int 0) then F32.neg yy else yy in
  let distance_corr_x := F32.of_int 0 in
  let distance_corr_y := F32.of_int 0 in
  let '(distance_corr_x, distance_corr_y) :=
    if two_pt_correction_available corrections then
      let distance_corr_x :=
        F32.of_double
          (F64.add
             (F64.div
                (F64.mul
                   (F64.of_float
                      (F32.sub (dist_correction corrections)
                               (dist_correction_x corrections)))
                   (F64.sub (F64.of_float xx) (F64.decimal 24 1)))
                (F64.sub (F64.decimal 2504 2) (F64.decimal 24 1)))
             (F64.of_float (dist_correction_x corrections))) in
      let distance_corr_x := F32.sub distance_corr_x (dist_correction corrections) in
      let distance_corr_y :=
        F32.of_double
          (F64.add
             (F64.div
                (F64.mul
                   (F64.of_float
                      (F32.sub (dist_correction corrections)
                               (dist_correction_y corrections)))
                   (F64.sub (F64.of_float yy) (F64.decimal 193 2)))
                (F64.sub (F64.decimal 2504 2) (F64.decimal 193 2)))
             (F64.of_float (dist_correction_y corrections))) in
      let distance_corr_y := F32.sub distance_corr_y (dist_correction corrections) in
      (distance_corr_x, distance_corr_y)
    else (distance_corr_x, distance_corr_y) in
  let distance_x := F32.add distance distance_corr_x in
  let xy_distance :=
    F32.sub (F32.mul distance_x cos_vert_angle) (F32.mul vert_offset sin_vert_angle) in
  let x :=
    F32.sub (F32.mul xy_distance sin_rot_angle) (F32.mul horiz_offset cos_rot_angle) in
  let distance_y := F32.add distance distance_corr_y in
  let xy_distance :=
    F32.sub (F32.mul distance_y cos_vert_angle) (F32.mul vert_offset sin_vert_angle) in
  let y :=
    F32.add (F32.mul xy_distance cos_rot_angle) (F32.mul horiz_offset sin_rot_angle) in
  let z :=
    F32.add (F32.mul distance_y sin_vert_angle) (F32.mul vert_offset cos_vert_angle) in
  let x_coord := y in
  let y_coord := F32.neg x in
  let z_coord := z in
  (x_coord, y_coord, z_coord).

(** [256 * (1 - focal_distance / 13100) * (1 - focal_distance / 13100)] *)
Definition focal_offset (corrections : LaserCorrection) : float :=
  F32.mul
    (F32.mul (F32.of_int 256)
       (F32.sub (F32.of_int 1)
          (F32.div (focal_distance corrections) (F32.of_int 13100))))
    (F32.sub (F32.of_int 1)
       (F32.div (focal_distance corrections) (F32.of_int 13100))).

(** The two clamping assignments. *)
Definition clamp_intensity (corrections : LaserCorrection) (intensity : float) : float :=
  let min_intensity := min_intensity corrections in
  let max_intensity := max_intensity corrections in
  let intensity := if F32.ltb intensity min_intensity then min_intensity else intensity in
  let intensity := if F32.ltb max_intensity intensity then max_intensity else intensity in
  intensity.

(** Intensity in [unpackAndAdd]: the distance word is cast to [float]
    before it is divided.  [abs] is applied to a [float] in both
    routines and is read as the floating-point overload. *)
Definition legacy_intensity (corrections : LaserCorrection)
    (tmp_uint raw_intensity : Z) : float :=
  let intensity := F32.of_int raw_intensity in
  let focal_offset := focal_offset corrections in
  let focal_slope := focal_slope corrections in
  let intensity :=
    F32.add intensity
      (F32.mul focal_slope
         (F32.abs
            (F32.sub focal_offset
               (F32.mul
                  (F32.mul (F32.of_int 256)
                     (F32.sub (F32.of_int 1)
                        (F32.div (F32.of_int tmp_uint) (F32.of_int 65535))))
                  (F32.sub (F32.of_int 1)
                     (F32.div (F32.of_int tmp_uint) (F32.of_int 65535))))))) in
  clamp_intensity corrections intensity.

(** Intensity in [unpack_vlp]: [tmp.uint/65535] is a division of integers. *)
Definition vlp_intensity (corrections : LaserCorrection)
    (tmp_uint raw_intensity : Z) : float :=
  let intensity := F32.of_int raw_intensity in
  let focal_offset := focal_offset corrections in
  let focal_slope := focal_slope corrections in
  let intensity :=
    F32.add intensity
      (F32.mul focal_slope
         (F32.abs
            (F32.sub focal_offset
               (F32.of_int
                  (256 * (1 - Z.quot tmp_uint 65535) * (1 - Z.quot tmp_uint 65535)))))) in
  clamp_intensity corrections intensity.

(** One channel slot of [unpackAndAdd], after the calibration lookup:
    the point it appends, if any. *)
Definition legacy_scan (this : RawData) (pkt : VelodynePacket)
    (i k : Z) (corrections : LaserCorrection) : option VPoint.t :=
  let tmp_uint := block_uint pkt i k in
  let rotation := block_rotation pkt i in
  if azimuth_in_view (config_ this) rotation then
    let distance := F32.mul (F32.of_int tmp_uint) DISTANCE_RESOLUTION in
    let distance := F32.add distance (dist_correction corrections) in
    let '(x_coord, y_coord, z_coord) :=
      position corrections distance
        (cos_rot_table_ this rotation) (sin_rot_table_ this rotation) in
    let intensity :=
      legacy_intensity corrections tmp_uint (block_data pkt i (k + 2)) in
    if pointInRange this distance then
      let pt_time := stamp pkt in
      Some {| VPoint.x := x_coord;
              VPoint.y := y_coord;
              VPoint.z := z_coord;
              VPoint.intensity := intensity;
              VPoint.time_sec := sec pt_time;
              VPoint.time_nsec := nsec pt_time;
              VPoint.laser_id := laser_ring corrections |}
    else None
  else None.

(** [return -1.0;] and [return -1;] in a function returning [float]. *)
Definition minus_one : float := F32.of_int (-1).

(** One iteration of the block loop of [unpackAndAdd]. *)
Definition unpack_legacy_block (this : RawData) (pkt : VelodynePacket)
    (i : Z) (_ : unit) : M unit :=
  let bank_origin := if block_header pkt i =? LOWER_BANK then 32 else 0 in
  (_ <- for_ 0 SCANS_PER_BLOCK
     (fun j k =>
        let laser_number := (j + bank_origin) mod 256 in
        corrections <- at_ (laser_corrections (calibration_ this)) laser_number ;;
        (match legacy_scan this pkt i k corrections with
         | Some point => push_back point
         | None => ret tt
         end) ;;;
        ret (k + RAW_SCAN_SIZE))
     0 ;;
   ret tt)%decode.

(** The legacy (dual-bank) path of [unpackAndAdd]. *)
Definition unpack_legacy (this : RawData) (pkt : VelodynePacket) : M float :=
  (_ <- for_ 0 BLOCKS_PER_PACKET (unpack_legacy_block this pkt) tt ;;
   ret minus_one)%decode.

(** [timing_offsets_[block][firing_seq]] *)
Definition timing_offset (this : RawData) (block firing_seq : Z) : Duration :=
  nth (Z.to_nat firing_seq) (nth (Z.to_nat block) (timing_offsets_ this) [])
      (Duration_of_double (F64.of_int 0)).

(** [azimuth_corrected_f]: the azimuth of a firing, interpolated inside
    the block. *)
Definition azimuth_corrected_f (spec : VLPSpec) (azimuth azimuth_diff : float)
    (firing_seq laser : Z) : float :=
  let firing_offset :=
    F32.mul (F32.of_int (Z.quot laser (lasers_per_firing spec))) (firing_duration spec) in
  let firing_seq_offset :=
    F32.mul (F32.of_int firing_seq) (firing_seq_duration spec) in
  F32.add azimuth
    (F32.div (F32.mul azimuth_diff (F32.add firing_offset firing_seq_offset))
             (block_duration spec)).

(** [azimuth_corrected = ((int)round(azimuth_corrected_f)) % 36000] *)
Definition azimuth_corrected (spec : VLPSpec) (azimuth azimuth_diff : float)
    (firing_seq laser : Z) : Z :=
  Z.rem (IEEE.round_to_int (azimuth_corrected_f spec azimuth azimuth_diff firing_seq laser))
        36000.

(** One channel slot of [unpack_vlp] from the field-of-view test on,
    given the calibration entry and the wrapped azimuth. *)
Definition vlp_scan_at (this : RawData) (pkt : VelodynePacket)
    (azimuth_corrected : Z) (block firing_seq k : Z)
    (corrections : LaserCorrection) : option VPoint.t :=
  let tmp_uint := block_uint pkt block k in
  if azimuth_in_view (config_ this) azimuth_corrected then
    let distance :=
      F32.mul (F32.of_int tmp_uint) (distance_resolution (vlp_spec_ this)) in
    let distance := F32.add distance (dist_correction corrections) in
    let '(x_coord, y_coord, z_coord) :=
      position corrections distance
        (cos_rot_table_ this azimuth_corrected)
        (sin_rot_table_ this azimuth_corrected) in
    let intensity :=
      vlp_intensity corrections tmp_uint (block_data pkt block (k + 2)) in
    if pointInRange this distance then
      let pt_time := stamp pkt in
      let pt_time :=
        match timing_offsets_ this with
        | [] => pt_time
        | _ :: _ => Time_plus pt_time (timing_offset this block firing_seq)
        end in
      Some {| VPoint.x := x_coord;
              VPoint.y := y_coord;
              VPoint.z := z_coord;
              VPoint.intensity := intensity;
              VPoint.time_sec := sec pt_time;
              VPoint.time_nsec := nsec pt_time;
              VPoint.laser_id := laser_ring corrections |}
    else None
  else None.

(** One channel slot of [unpack_vlp], after the calibration lookup. *)
Definition vlp_scan (this : RawData) (pkt : VelodynePacket)
    (azimuth azimuth_diff : float) (block firing_seq laser k : Z)
    (corrections : LaserCorrection) : option VPoint.t :=
  vlp_scan_at this pkt
    (azimuth_corrected (vlp_spec_ this) azimuth azimuth_diff firing_seq laser)
    block firing_seq k corrections.

(** The azimuth step of a block and the updated running values:
    [(azimuth_diff, last_azimuth_diff, slice_angle)]. *)
Definition block_azimuth_diff (pkt : VelodynePacket) (block : Z)
    (last_azimuth_diff slice_angle : float) : float * float * float :=
  if block <? BLOCKS_PER_PACKET - 1 then
    let azimuth_diff :=
      F32.of_int
        (Z.rem (36000 + block_rotation pkt (block + 1) - block_rotation pkt block)
               36000) in
    (azimuth_diff, azimuth_diff, F32.add slice_angle azimuth_diff)
  else
    (last_azimuth_diff, last_azimuth_diff, slice_angle).

(** The two inner loops of [unpack_vlp] on one block. *)
Definition vlp_block (this : RawData) (pkt : VelodynePacket)
    (azimuth azimuth_diff : float) (block : Z) : M Z :=
  for_ 0 (firing_seqs_per_block (vlp_spec_ this))
    (fun firing_seq k =>
       for_ 0 (lasers_per_firing_seq (vlp_spec_ this))
         (fun laser k =>
            (corrections <- at_ (laser_corrections (calibration_ this)) laser ;;
             (match vlp_scan this pkt azimuth azimuth_diff
                      block firing_seq laser k corrections with
              | Some point => push_back point
              | None => ret tt
              end) ;;;
             ret (k + RAW_SCAN_SIZE))%decode)
         k)
    0.

(** One iteration of the block loop of [unpack_vlp], on the running
    [(last_azimuth_diff, slice_angle)]. *)
Definition unpack_vlp_block (this : RawData) (pkt : VelodynePacket)
    (block : Z) (running : float * float) : M (float * float) :=
  let '(last_azimuth_diff, slice_angle) := running in
  if negb (UPPER_BANK =? block_header pkt block) then
    return_ minus_one
  else
    let azimuth := F32.of_int (block_rotation pkt block) in
    let '(azimuth_diff, last_azimuth_diff, slice_angle) :=
      block_azimuth_diff pkt block last_azimuth_diff slice_angle in
    (_ <- vlp_block this pkt azimuth azimuth_diff block ;;
     ret (last_azimuth_diff, slice_angle))%decode.

Definition unpack_vlp (this : RawData) (pkt : VelodynePacket) : M float :=
  (running <- for_ 0 BLOCKS_PER_PACKET (unpack_vlp_block this pkt)
                (F32.of_int 0, F32.zero) ;;
   ret (snd running))%decode.

Definition unpackAndAdd (this : RawData) (pkt : VelodynePacket) : M float :=
  if is_vlp_ this then unpack_vlp this pkt else unpack_legacy this pkt.

(** *** Reference forms of the decoder's results *)

(** The VLP32 timing offset of firing sequence [i], slot [j]:
    firing-sequence duration times [i] plus firing duration times
    [floor (j / 2)], the durations converted from microseconds. *)
Definition vlp32_offset (i j : Z) : Duration :=
  Duration_of_double
    (F64.add
       (F64.mul
          (F64.mul (F64.of_float (firing_seq_duration VLP_32_SPEC)) (F64.decimal 1 6))
          (F64.of_int i))
       (F64.mul
          (F64.mul (F64.of_float (firing_duration VLP_32_SPEC)) (F64.decimal 1 6))
          (F64.of_int (j / 2)))).

(** The point of slot [(b, s, l)] of a VLP packet, if it yields one:
    the slot's bytes decoded at the interpolated azimuth. *)
Definition vlp_slot (this : RawData) (pkt : VelodynePacket) (b s l : Z)
    : option VPoint.t :=
  match nth_error (laser_corrections (calibration_ this)) (Z.to_nat l) with
  | Some corrections =>
      vlp_scan_at this pkt
        (interpolated_azimuth (vlp_spec_ this) pkt b s l) b s
        ((s * lasers_per_firing_seq (vlp_spec_ this) + l) * RAW_SCAN_SIZE)
        corrections
  | None => None
  end.

(** Slot [(b, s, l)] as [unpack_vlp] decodes it, from the block's
    azimuth and azimuth step and the slot's byte offset [k]. *)
Definition vlp_slot_with (this : RawData) (pkt : VelodynePacket)
    (azimuth azimuth_diff : float) (b s l k : Z) : option VPoint.t :=
  match nth_error (laser_corrections (calibration_ this)) (Z.to_nat l) with
  | Some corrections =>
      vlp_scan this pkt azimuth azimuth_diff b s l k
        corrections
  | None => None
  end.

(** The points of block [b], in firing order. *)
Definition vlp_block_points (this : RawData) (pkt : VelodynePacket) (b : Z)
    : list VPoint.t :=
  flat_map
    (fun s =>
       flat_map (fun l => option_list (vlp_slot this pkt b s l))
         (zrange (Z.to_nat (lasers_per_firing_seq (vlp_spec_ this))) 0))
    (zrange (Z.to_nat (firing_seqs_per_block (vlp_spec_ this))) 0).

(** The points of blocks [0 .. n-1]. *)
Definition vlp_points (this : RawData) (pkt : VelodynePacket) (n : nat)
    : list VPoint.t :=
  flat_map (vlp_block_points this pkt) (zrange n 0).

(** The bank a legacy block belongs to. *)
Definition bank_origin (pkt : VelodynePacket) (i : Z) : Z :=
  if block_header pkt i =? LOWER_BANK then 32 else 0.

(** The point of channel slot [j] of block [i] of a legacy packet. *)
Definition legacy_slot (this : RawData) (pkt : VelodynePacket) (i j : Z)
    : option VPoint.t :=
  match nth_error (laser_corrections (calibration_ this))
                  (Z.to_nat (j + bank_origin pkt i)) with
  | Some corrections =>
      legacy_scan this pkt i (j * RAW_SCAN_SIZE) corrections
  | None => None
  end.

Definition legacy_points (this : RawData) (pkt : VelodynePacket) (n : nat)
    : list VPoint.t :=
  flat_map
    (fun i =>
       flat_map (fun j => option_list (legacy_slot this pkt i j))
         (zrange (Z.to_nat SCANS_PER_BLOCK) 0))
    (zrange n 0).

(** The calibration has an entry for every laser of a firing sequence. *)
Definition calibration_covers (this : RawData) : Prop :=
  lasers_per_firing_seq (vlp_spec_ this)
  <= Z.of_nat (List.length (laser_corrections (calibration_ this))).

(** Every header of blocks [0 .. n-1] is the expected marker. *)
Definition headers_valid (pkt : VelodynePacket) (n : Z) : Prop :=
  forall b, 0 <= b < n -> block_header pkt b = UPPER_BANK.

(** [g] gives the points each block appends. *)
Definition blocks_append (this : RawData) (pkt : VelodynePacket)
    (g : Z -> list VPoint.t) : Prop :=
  forall b pc, exists k,
    vlp_block this pkt (F32.of_int (block_rotation pkt b))
      (F32.of_int (block_diff pkt b)) b pc
    = (inl k, append_points pc (g b)).

(** The calibration has an entry for every laser of the bank of every
    block of the packet. *)
Definition legacy_calibration_covers (this : RawData) (pkt : VelodynePacket) : Prop :=
  forall i, 0 <= i < BLOCKS_PER_PACKET ->
    bank_origin pkt i + SCANS_PER_BLOCK
    <= Z.of_nat (List.length (laser_corrections (calibration_ this))).

(** Every run of [m] only appends points, each satisfying [P]. *)
Definition appends (P : VPoint.t -> Prop) {A} (m : M A) : Prop :=
  forall pc, exists new, snd (m pc) = append_points pc new /\ Forall P new.

(** The time a VLP point of block [b], firing sequence [s] is stamped with. *)
Definition vlp_stamp (this : RawData) (pkt : VelodynePacket) (b s : Z) : Time :=
  match timing_offsets_ this with
  | [] => stamp pkt
  | _ :: _ => Time_plus (stamp pkt) (timing_offset this b s)
  end.

(** The point carries the time [t]. *)
Definition stamped (t : Time) (p : VPoint.t) : Prop :=
  VPoint.time_sec p = sec t /\ VPoint.time_nsec p = nsec t.

(** The point comes from some slot of the VLP packet and carries the
    time of its block and firing sequence. *)
Definition vlp_stamped (this : RawData) (pkt : VelodynePacket) (p : VPoint.t) : Prop :=
  exists b s,
    0 <= b < BLOCKS_PER_PACKET
    /\ 0 <= s < firing_seqs_per_block (vlp_spec_ this)
    /\ stamped (vlp_stamp this pkt b s) p.

(** Two decoders that differ at most in what lies outside the rotation
    tables' index range. *)
Definition tables_agree (this this' : RawData) : Prop :=
  config_ this = config_ this'
  /\ calibration_ this = calibration_ this'
  /\ vlp_spec_ this = vlp_spec_ this'
  /\ timing_offsets_ this = timing_offsets_ this'
  /\ is_vlp_ this = is_vlp_ this'
  /\ forall i, in_table i = true ->
       sin_rot_table_ this i = sin_rot_table_ this' i
       /\ cos_rot_table_ this i = cos_rot_table_ this' i.

(** The rounded interpolated azimuth of slot [(b, s, l)], before it is
    reduced by 36000. *)
Definition rounded_azimuth (spec : VLPSpec) (pkt : VelodynePacket) (b s l : Z) : Z :=
  IEEE.round_to_int
    (azimuth_corrected_f spec (F32.of_int (block_rotation pkt b))
       (F32.of_int (block_diff pkt b)) s l).

(** Every slot of a VLP packet that passes the field-of-view test has a
    non-negative rounded azimuth. *)
Definition vlp_azimuths_nonnegative (this : RawData) (pkt : VelodynePacket) : Prop :=
  forall b s l,
    0 <= b < BLOCKS_PER_PACKET ->
    0 <= s < firing_seqs_per_block (vlp_spec_ this) ->
    0 <= l < lasers_per_firing_seq (vlp_spec_ this) ->
    azimuth_in_view (config_ this) (Z.rem (rounded_azimuth (vlp_spec_ this) pkt b s l) 36000)
      = true ->
    0 <= rounded_azimuth (vlp_spec_ this) pkt b s l.

(** Every block of a legacy packet that passes the field-of-view test
    has a rotation below 36000. *)
Definition legacy_rotations_in_table (this : RawData) (pkt : VelodynePacket) : Prop :=
  forall i,
    0 <= i < BLOCKS_PER_PACKET ->
    azimuth_in_view (config_ this) (block_rotation pkt i) = true ->
    block_rotation pkt i < 36000.

(** [vlp_azimuths_nonnegative], decided slot by slot. *)
Definition vlp_azimuths_nonnegativeb (this : RawData) (pkt : VelodynePacket) : bool :=
  forallb
    (fun b =>
       forallb
         (fun s =>
            forallb
              (fun l =>
                 implb
                   (azimuth_in_view (config_ this)
                      (Z.rem (rounded_azimuth (vlp_spec_ this) pkt b s l) 36000))
                   (0 <=? rounded_azimuth (vlp_spec_ this) pkt b s l))
              (zrange (Z.to_nat (lasers_per_firing_seq (vlp_spec_ this))) 0))
         (zrange (Z.to_nat (firing_seqs_per_block (vlp_spec_ this))) 0))
    (zrange (Z.to_nat BLOCKS_PER_PACKET) 0).

(** The provisional [(xx, yy)] of the position calculation, in absolute
    value, which select the two-point interpolation. *)
Definition provisional_xy (corrections : LaserCorrection)
    (distance cos_rot_table_az sin_rot_table_az : float) : float * float :=
  let cos_vert_angle := cos_vert_correction corrections in
  let sin_vert_angle := sin_vert_correction corrections in
  let cos_rot_correction := cos_rot_correction corrections in
  let sin_rot_correction := sin_rot_correction corrections in
  let cos_rot_angle :=
    F32.add (F32.mul cos_rot_table_az cos_rot_correction)
            (F32.mul sin_rot_table_az sin_rot_correction) in
  let sin_rot_angle :=
    F32.sub (F32.mul sin_rot_table_az cos_rot_correction)
            (F32.mul cos_rot_table_az sin_rot_correction) in
  let horiz_offset := horiz_offset_correction corrections in
  let vert_offset := vert_offset_correction corrections in
  let xy_distance :=
    F32.sub (F32.mul distance cos_vert_angle) (F32.mul vert_offset sin_vert_angle) in
  let xx :=
    F32.sub (F32.mul xy_distance sin_rot_angle) (F32.mul horiz_offset cos_rot_angle) in
  let yy :=
    F32.add (F32.mul xy_distance cos_rot_angle) (F32.mul horiz_offset sin_rot_angle) in
  let xx := if F32.ltb xx (F32.of_int 0) then F32.neg xx else xx in
  let yy := if F32.ltb yy (F32.of_int 0) then F32.neg yy else yy in
  (xx, yy).

(** The calibration entry with the two-point correction switched on
    and both reference corrections equal to the base correction. *)
Definition zero_delta (c : LaserCorrection) : LaserCorrection :=
  {| dist_correction := dist_correction c;
     two_pt_correction_available := true;
     dist_correction_x := dist_correction c;
     dist_correction_y := dist_correction c;
     vert_offset_correction := vert_offset_correction c;
     horiz_offset_correction := horiz_offset_correction c;
     max_intensity := max_intensity c;
     min_intensity := min_intensity c;
     focal_distance := focal_distance c;
     focal_slope := focal_slope c;
     cos_rot_correction := cos_rot_correction c;
     sin_rot_correction := sin_rot_correction c;
     cos_vert_correction := cos_vert_correction c;
     sin_vert_correction := sin_vert_correction c;
     laser_ring := laser_ring c |}.

(** Neither an infinity nor a NaN reaches the two-point interpolation:
    the base correction is a finite [float] and so are the provisional
    [xx] and [yy]. *)
Definition two_pt_finite (corrections : LaserCorrection)
    (distance cos_rot_table_az sin_rot_table_az : float) : bool :=
  IEEE.is_finite (dist_correction corrections)
  && F32.valid (dist_correction corrections)
  && IEEE.is_finite
       (fst (provisional_xy corrections distance cos_rot_table_az sin_rot_table_az))
  && IEEE.is_finite
       (snd (provisional_xy corrections distance cos_rot_table_az sin_rot_table_az)).

(** Two calibration entries: the same, or the first without two-point
    correction and the second its [zero_delta]. *)
Definition two_pt_equiv (c1 c2 : LaserCorrection) : Prop :=
  c1 = c2 \/ (two_pt_correction_available c1 = false /\ c2 = zero_delta c1).

(** Two decoders that differ only by such calibration entries. *)
Definition zero_delta_variant (this1 this2 : RawData) : Prop :=
  config_ this1 = config_ this2
  /\ vlp_spec_ this1 = vlp_spec_ this2
  /\ timing_offsets_ this1 = timing_offsets_ this2
  /\ is_vlp_ this1 = is_vlp_ this2
  /\ (forall i, sin_rot_table_ this1 i = sin_rot_table_ this2 i)
  /\ (forall i, cos_rot_table_ this1 i = cos_rot_table_ this2 i)
  /\ Forall2 two_pt_equiv (laser_corrections (calibration_ this1))
                          (laser_corrections (calibration_ this2)).

(** The distance resolution of the decode path in use. *)
Definition resolution (this : RawData) : float :=
  if is_vlp_ this then distance_resolution (vlp_spec_ this) else DISTANCE_RESOLUTION.

(** Nothing infinite reaches the two-point interpolation, for any
    channel entry of the packet, calibration entry without two-point
    correction and azimuth in view. *)
Definition two_pt_inputs_finite (this : RawData) (pkt : VelodynePacket) : Prop :=
  forall c b k az,
    In c (laser_corrections (calibration_ this)) ->
    two_pt_correction_available c = false ->
    azimuth_in_view (config_ this) az = true ->
    two_pt_finite c
      (F32.add (F32.mul (F32.of_int (block_uint pkt b k)) (resolution this))
               (dist_correction c))
      (cos_rot_table_ this az) (sin_rot_table_ this az) = true.

(** *** Reference forms for the behaviour of whole decode calls *)

(** [m] ends the same way on every cloud and appends the same points,
    at most [n] of them, behind the points the cloud holds. *)
Definition emits (n : nat) {A} (m : M A) : Prop :=
  exists r new,
    (List.length new <= n)%nat
    /\ forall pc, m pc = (r, append_points pc new).

(** What the caller observes of a completed or interrupted routine. *)
Definition outcome_of (r : float + abrupt) : outcome :=
  match r with
  | inl v => Returned v
  | inr (Return v) => Returned v
  | inr OutOfRange => Threw
  end.

(** The most points one decode call can append. *)
Definition max_points (this : RawData) : nat :=
  if is_vlp_ this then
    12 * (Z.to_nat (firing_seqs_per_block (vlp_spec_ this))
          * Z.to_nat (lasers_per_firing_seq (vlp_spec_ this)))
  else 12 * 32.

(** [m] never ends with [std::out_of_range]. *)
Definition no_throw {A} (m : M A) : Prop :=
  forall pc, fst (m pc) <> inr OutOfRange.

(** The place of a floating-point number in the order of the
    comparisons: class by sign and kind, then exponent, then mantissa
    (both negated for negative numbers).  A NaN has no place. *)
Definition rank (x : spec_float) : option (Z * Z * Z) :=
  match x with
  | S754_nan => None
  | S754_infinity true => Some (-2, 0, 0)
  | S754_infinity false => Some (2, 0, 0)
  | S754_zero _ => Some (0, 0, 0)
  | S754_finite true m e => Some (-1, - e, - Zpos m)
  | S754_finite false m e => Some (1, e, Zpos m)
  end.

Definition rank_lt (a b : Z * Z * Z) : Prop :=
  fst (fst a) < fst (fst b)
  \/ (fst (fst a) = fst (fst b)
      /\ (snd (fst a) < snd (fst b)
          \/ (snd (fst a) = snd (fst b) /\ snd a < snd b))).

(** The field of view or the range gate of the decoder lets nothing through:
    the angle bounds are equal, or the range bounds are crossed, or one
    of them is a NaN. *)
Definition gate_closed (this : RawData) : Prop :=
  min_angle (config_ this) = max_angle (config_ this)
  \/ F64.ltb (max_range (config_ this)) (min_range (config_ this)) = true
  \/ IEEE.is_nan (min_range (config_ this)) = true
  \/ IEEE.is_nan (max_range (config_ this)) = true.

(** The point carries the ring number of an entry of the calibration
    and, unless that entry's intensity bounds are crossed, an intensity
    that compares neither below its [min_intensity] nor above its
    [max_intensity]. *)
Definition from_calibration (this : RawData) (p : VPoint.t) : Prop :=
  exists c,
    In c (laser_corrections (calibration_ this))
    /\ VPoint.laser_id p = laser_ring c
    /\ (F32.ltb (max_intensity c) (min_intensity c) = false ->
        F32.ltb (VPoint.intensity p) (min_intensity c) = false
        /\ F32.ltb (max_intensity c) (VPoint.intensity p) = false).

(** [table[i] = v] on one of the rotation tables. *)
Definition store (table : Z -> float) (i : Z) (v : float) : Z -> float :=
  fun j => if j =? i then v else table j.

(** The table loop of [setup],
    [for (uint16_t rot_index = 0; rot_index < ROTATION_MAX_UNITS; ++rot_index)],
    on the pair [(cos_rot_table_, sin_rot_table_)] and for at most
    [fuel] evaluations of its condition.  The counter is a 16-bit one:
    the increment wraps at 65536. *)
Fixpoint rot_table_loop (fuel : nat) (rot_index : Z)
    (tables : (Z -> float) * (Z -> float)) : option ((Z -> float) * (Z -> float)) :=
  match fuel with
  | O => None
  | Datatypes.S fuel' =>
      if rot_index <? ROTATION_MAX_UNITS then
        let rotation :=
          F32.of_double
            (from_degrees
               (F64.of_float (F32.mul ROTATION_RESOLUTION (F32.of_int rot_index)))) in
        rot_table_loop fuel' ((rot_index + 1) mod 65536)
          (store (fst tables) rot_index (cosf rotation),
           store (snd tables) rot_index (sinf rotation))
      else Some tables
  end.

(** The point was decoded from a channel slot of the packet whose
    distance word is not zero. *)
Definition from_return (this : RawData) (pkt : VelodynePacket) (p : VPoint.t) : Prop :=
  exists block k corrections,
    block_uint pkt block k <> 0
    /\ (legacy_scan this pkt block k corrections = Some p
        \/ exists azimuth firing_seq,
             vlp_scan_at this pkt azimuth block firing_seq k corrections = Some p).

(** Zero or a positive finite number. *)
Definition nonneg (x : spec_float) : Prop :=
  match x with
  | S754_zero _ | S754_finite false _ _ => True
  | _ => False
  end.

(** A positive finite number of magnitude at least [2^(L-1)]. *)
Definition at_least (L : Z) (x : spec_float) : Prop :=
  match x with
  | S754_finite false m e => L <= Zpos (digits2_pos m) + e
  | _ => False
  end.

(** A profile whose timing constants keep the interpolation of the
    azimuth inside [int]: firing durations that are not negative and
    below 64, a block duration of at least 32, at most 32 lasers per
    firing sequence and 32 firing sequences per block, and a positive
    number of lasers per firing. *)
Definition profile_bounded (spec : VLPSpec) : Prop :=
  nonneg (firing_duration spec) /\ below 6 (firing_duration spec)
  /\ nonneg (firing_seq_duration spec) /\ below 6 (firing_seq_duration spec)
  /\ at_least 6 (block_duration spec)
  /\ 0 < lasers_per_firing spec
  /\ lasers_per_firing_seq spec <= 32
  /\ firing_seqs_per_block spec <= 32.

(** Two packets with the same arrival time and the same twelve blocks:
    they may differ in the bytes behind the blocks only. *)
Definition same_blocks (pkt pkt' : VelodynePacket) : Prop :=
  stamp pkt = stamp pkt'
  /\ forall off, 0 <= off < BLOCKS_PER_PACKET * SIZE_BLOCK ->
       byte_at pkt off = byte_at pkt' off.

(** The same number: equal, or two zeros that differ in sign at most. *)
Definition same_number (x y : float) : Prop :=
  x = y \/ ((exists s, x = S754_zero s) /\ exists s, y = S754_zero s).

(** A [float] in canonical form that is neither an infinity nor a NaN. *)
Definition regular (x : float) : Prop :=
  F32.valid x = true /\ IEEE.is_finite x = true.

(** A calibration entry without any correction. *)
Definition identity_correction (c : LaserCorrection) : Prop :=
  dist_correction c = F32.zero
  /\ two_pt_correction_available c = false
  /\ vert_offset_correction c = F32.zero
  /\ horiz_offset_correction c = F32.zero
  /\ cos_rot_correction c = F32.of_int 1
  /\ sin_rot_correction c = F32.zero
  /\ cos_vert_correction c = F32.of_int 1
  /\ sin_vert_correction c = F32.zero.

(** *** The azimuth formulas as the specification words them

The specification reduces "modulo 36000", into [0, 36000): the
mathematical remainder, where the decoder applies [%]. *)

(** [(36000 + rotation(b+1) - rotation(b)) mod 36000] *)
Definition spec_rotation_delta (pkt : VelodynePacket) (b : Z) : Z :=
  (36000 + block_rotation pkt (b + 1) - block_rotation pkt b) mod 36000.

(** The azimuth step of block [b]: its delta for a non-final block, the
    delta computed before for the final one. *)
Definition spec_azimuth_diff (pkt : VelodynePacket) (b : Z) : Z :=
  if b <? BLOCKS_PER_PACKET - 1 then spec_rotation_delta pkt b
  else spec_rotation_delta pkt (BLOCKS_PER_PACKET - 2).

(** [round (rotation(b) + azimuth_diff(b)
            * (floor (l / lasers_per_firing) * firing_duration
               + s * firing_seq_duration) / block_duration) mod 36000] *)
Definition spec_azimuth (spec : VLPSpec) (pkt : VelodynePacket) (b s l : Z) : Z :=
  IEEE.round_to_int
    (F32.add (F32.of_int (block_rotation pkt b))
       (F32.div
          (F32.mul (F32.of_int (spec_azimuth_diff pkt b))
             (F32.add
                (F32.mul (F32.of_int (l / lasers_per_firing spec))
                         (firing_duration spec))
                (F32.mul (F32.of_int s) (firing_seq_duration spec))))
          (block_duration spec)))
  mod 36000.

(** The sum of the inter-block deltas of a packet. *)
Definition spec_sweep (pkt : VelodynePacket) : Z :=
  fold_right Z.add 0 (map (spec_rotation_delta pkt) (zrange 11 0)).

(** The point of slot [(b, s, l)] of a VLP packet decoded at the
    azimuth [azimuth b s l], and the points of blocks [0 .. n-1] so
    decoded, in firing order. *)
Definition vlp_slot_at (azimuth : Z -> Z -> Z -> Z) (this : RawData)
    (pkt : VelodynePacket) (b s l : Z) : option VPoint.t :=
  match nth_error (laser_corrections (calibration_ this)) (Z.to_nat l) with
  | Some corrections =>
      vlp_scan_at this pkt (azimuth b s l) b s
        ((s * lasers_per_firing_seq (vlp_spec_ this) + l) * RAW_SCAN_SIZE)
        corrections
  | None => None
  end.

Definition vlp_points_at (azimuth : Z -> Z -> Z -> Z) (this : RawData)
    (pkt : VelodynePacket) (n : nat) : list VPoint.t :=
  flat_map
    (fun b =>
       flat_map
         (fun s =>
            flat_map (fun l => option_list (vlp_slot_at azimuth this pkt b s l))
              (zrange (Z.to_nat (lasers_per_firing_seq (vlp_spec_ this))) 0))
         (zrange (Z.to_nat (firing_seqs_per_block (vlp_spec_ this))) 0))
    (zrange n 0).

(** *** Reference forms for the time of a point *)

(** The time a point carries. *)
Definition point_time (p : VPoint.t) : Time :=
  {| sec := VPoint.time_sec p; nsec := VPoint.time_nsec p |}.

(** The point is what the slot decoder yields for a channel entry of
    block [b] read in firing sequence [s]. *)
Definition vlp_decoded_at (this : RawData) (pkt : VelodynePacket) (b s : Z)
    (p : VPoint.t) : Prop :=
  exists azimuth k corrections,
    vlp_scan_at this pkt azimuth b s k corrections = Some p.

(** The packet time plus [timing_offsets_[b][s]], once for every slot
    of blocks [0 .. n-1] that yields a point, in firing order. *)
Definition vlp_times (this : RawData) (pkt : VelodynePacket) (n : nat) : list Time :=
  flat_map
    (fun b =>
       flat_map
         (fun s =>
            flat_map
              (fun l => map (fun _ => Time_plus (stamp pkt) (timing_offset this b s))
                          (option_list (vlp_slot this pkt b s l)))
              (zrange (Z.to_nat (lasers_per_firing_seq (vlp_spec_ this))) 0))
         (zrange (Z.to_nat (firing_seqs_per_block (vlp_spec_ this))) 0))
    (zrange n 0).

(** * Properties *)

(** ** Facts on the IEEE-754 operations *)

Section FloatFacts.

Variables prec emax : Z.
Hypothesis Hprec : 0 < prec.
Hypothesis Hemax : prec < emax.

Lemma iter_pos_iter {A} (f : A -> A) (n : positive) :
  forall x, iter_pos f n x = Pos.iter f x n.
Proof using Hprec Hemax.
  induction n; intros x; simpl.
  - rewrite !IHn. rewrite <- !Pos.iter_swap. reflexivity.
  - rewrite !IHn. reflexivity.
  - reflexivity.
Qed.

Lemma shl_align_eq mx ex ex' :
  shl_align mx ex ex' = (shl mx (ex - ex'), Z.min ex ex').
Proof using Hprec Hemax.
  unfold shl_align, shl.
  destruct (ex' - ex) eqn:E1; destruct (ex - ex') eqn:E2; try lia;
    try (f_equal; lia).
  assert (p = p0) by lia. subst. f_equal. lia.
Qed.

Lemma iter_xO_pos m d : Zpos (Pos.iter xO m d) = Zpos m * 2 ^ Zpos d.
Proof using Hprec Hemax.
  induction d using Pos.peano_ind.
  - simpl. lia.
  - rewrite Pos.iter_succ, Pos2Z.inj_xO, IHd, Pos2Z.inj_succ, Z.pow_succ_r by lia. lia.
Qed.

Lemma iter_xO_digits m d :
  Zpos (digits2_pos (Pos.iter xO m d)) = Zpos (digits2_pos m) + Zpos d.
Proof using Hprec Hemax.
  induction d using Pos.peano_ind.
  - simpl. lia.
  - rewrite Pos.iter_succ. cbn [digits2_pos]. rewrite Pos2Z.inj_succ, IHd. lia.
Qed.

Lemma shl_pos m k : 0 <= k -> Zpos (shl m k) = Zpos m * 2 ^ k.
Proof using Hprec Hemax.
  intros Hk. destruct k as [|d|d]; cbn [shl]; [rewrite Z.pow_0_r; lia | | lia].
  apply iter_xO_pos.
Qed.

Lemma digits2_shl m k :
  0 <= k -> Zpos (digits2_pos (shl m k)) = Zpos (digits2_pos m) + k.
Proof using Hprec Hemax.
  intros Hk. destruct k as [|d|d]; cbn [shl]; [lia | | lia].
  apply iter_xO_digits.
Qed.

Lemma shl_shl m j k : 0 <= j -> 0 <= k -> shl (shl m j) k = shl m (j + k).
Proof using Hprec Hemax.
  intros Hj Hk. apply Pos2Z.inj.
  rewrite !shl_pos by lia. rewrite Z.pow_add_r by lia. lia.
Qed.

Lemma shr_shl m d :
  iter_pos shr_1 d (Build_shr_record (Zpos (Pos.iter xO m d)) false false)
  = Build_shr_record (Zpos m) false false.
Proof using Hprec Hemax.
  rewrite iter_pos_iter.
  induction d using Pos.peano_ind.
  - reflexivity.
  - rewrite Pos.iter_succ_r. rewrite Pos.iter_succ. simpl. exact IHd.
Qed.

Lemma binary_round_aux_canonical s m e :
  canonical_mantissa prec emax m e = true ->
  e <= emax - prec ->
  binary_round_aux prec emax s (Zpos m) e loc_Exact = S754_finite s m e.
Proof using Hprec Hemax.
  unfold canonical_mantissa. intros Hc He. apply Z.eqb_eq in Hc.
  unfold binary_round_aux, shr_fexp. simpl Zdigits2. simpl shr_record_of_loc.
  rewrite Hc, Z.sub_diag.
  cbn [shr shr_m loc_of_shr_record round_nearest_even Zdigits2].
  rewrite Hc, Z.sub_diag. cbn [shr shr_m].
  apply Z.leb_le in He. rewrite He. reflexivity.
Qed.

(** Rounding a value that needs no rounding: the mantissa is shifted
    left onto the canonical exponent. *)
Lemma binary_round_shl s m e :
  let e0 := fexp prec emax (Zpos (digits2_pos m) + e) in
  e0 <= e -> e0 <= emax - prec ->
  binary_round prec emax s m e = S754_finite s (shl m (e - e0)) e0.
Proof using Hprec Hemax.
  intros e0 Hle Hmax. unfold binary_round. fold e0.
  rewrite shl_align_eq. rewrite Z.min_r by lia.
  apply binary_round_aux_canonical; [| exact Hmax].
  unfold canonical_mantissa. rewrite digits2_shl by lia.
  apply Z.eqb_eq. subst e0.
  replace (Z.pos (digits2_pos m) + (e - fexp prec emax (Z.pos (digits2_pos m) + e)) +
    fexp prec emax (Z.pos (digits2_pos m) + e)) with (Zpos (digits2_pos m) + e) by lia.
  reflexivity.
Qed.

(** Rounding a canonical mantissa given with [k] extra low zero bits. *)
Lemma binary_round_shr s m e k :
  0 <= k ->
  canonical_mantissa prec emax m e = true ->
  e <= emax - prec ->
  binary_round prec emax s (shl m k) (e - k) = S754_finite s m e.
Proof using Hprec Hemax.
  intros Hk Hc He.
  destruct (Z.eq_dec k 0) as [-> | Hk0].
  { simpl. rewrite Z.sub_0_r.
    pose proof (binary_round_shl s m e) as H. cbv zeta in H.
    unfold canonical_mantissa in Hc. apply Z.eqb_eq in Hc.
    rewrite Hc in H. rewrite H by lia. rewrite Z.sub_diag. reflexivity. }
  pose proof Hc as Hc'. unfold canonical_mantissa in Hc'. apply Z.eqb_eq in Hc'.
  unfold binary_round.
  rewrite digits2_shl by lia.
  replace (Z.pos (digits2_pos m) + k + (e - k)) with (Z.pos (digits2_pos m) + e) by lia.
  rewrite Hc'. rewrite shl_align_eq.
  replace (e - k - e) with (- k) by lia.
  assert (Hs : shl (shl m k) (- k) = shl m k) by (destruct k; simpl; try lia; reflexivity).
  rewrite Hs, Z.min_l by lia.
  unfold binary_round_aux, shr_fexp. simpl Zdigits2. simpl shr_record_of_loc.
  rewrite digits2_shl by lia.
  replace (Z.pos (digits2_pos m) + k + (e - k)) with (Z.pos (digits2_pos m) + e) by lia.
  rewrite Hc'. replace (e - (e - k)) with k by lia.
  destruct k as [|d|d]; try lia.
  cbn [shr shl]. rewrite shr_shl.
  cbn [shr_m loc_of_shr_record round_nearest_even Zdigits2].
  replace (e - Z.pos d + Z.pos d) with e by lia.
  rewrite Hc', Z.sub_diag. cbn [shr shr_m].
  apply Z.leb_le in He. rewrite He. reflexivity.
Qed.

Lemma digits2_pos_bounds p :
  2 ^ (Zpos (digits2_pos p) - 1) <= Zpos p < 2 ^ Zpos (digits2_pos p).
Proof using Hprec Hemax.
  induction p; cbn [digits2_pos]; rewrite ?Pos2Z.inj_succ.
  - replace (Z.succ (Zpos (digits2_pos p)) - 1) with (Z.succ (Zpos (digits2_pos p) - 1)) by lia.
    rewrite !Z.pow_succ_r by lia. lia.
  - replace (Z.succ (Zpos (digits2_pos p)) - 1) with (Z.succ (Zpos (digits2_pos p) - 1)) by lia.
    rewrite !Z.pow_succ_r by lia. lia.
  - simpl. lia.
Qed.

Lemma digits2_pos_le p n : 0 <= n -> Zpos p < 2 ^ n -> Zpos (digits2_pos p) <= n.
Proof using Hprec Hemax.
  intros Hn Hp. destruct (Z_le_gt_dec (Zpos (digits2_pos p)) n) as [H | H]; [exact H |].
  pose proof (digits2_pos_bounds p) as [Hlo _].
  assert (2 ^ n <= 2 ^ (Zpos (digits2_pos p) - 1)) by (apply Z.pow_le_mono_r; lia).
  lia.
Qed.

Lemma int_float_canonical p :
  Zpos p < 2 ^ prec ->
  canonical_mantissa prec emax (shl p (prec - Zpos (digits2_pos p)))
                     (- (prec - Zpos (digits2_pos p))) = true.
Proof using Hprec Hemax.
  intros Hp. pose proof (digits2_pos_le p prec ltac:(lia) Hp) as Hd.
  unfold canonical_mantissa. rewrite digits2_shl by lia.
  apply Z.eqb_eq. unfold fexp, emin. lia.
Qed.

(** An integer below [2^prec], given with [J] extra low zero bits,
    rounds to itself. *)
Lemma binary_round_int s p J :
  0 <= J -> Zpos p < 2 ^ prec ->
  binary_round prec emax s (shl p J) (- J) = int_float prec s p.
Proof using Hprec Hemax.
  intros HJ Hp. pose proof (digits2_pos_le p prec ltac:(lia) Hp) as Hd.
  unfold int_float. set (j := prec - Zpos (digits2_pos p)).
  destruct (Z_le_gt_dec J j) as [Hle | Hgt].
  - pose proof (binary_round_shl s (shl p J) (- J)) as H. cbv zeta in H.
    rewrite digits2_shl in H by lia.
    replace (fexp prec emax (Zpos (digits2_pos p) + J + - J)) with (- j) in H
      by (unfold fexp, emin; lia).
    rewrite H by lia. rewrite shl_shl by lia. f_equal. f_equal. lia.
  - replace (shl p J) with (shl (shl p j) (J - j)) by (rewrite shl_shl by lia; f_equal; lia).
    replace (- J) with (- j - (J - j)) by lia.
    apply binary_round_shr; [lia | apply int_float_canonical; exact Hp | lia].
Qed.

Lemma binary_normalize_int c J :
  0 <= J -> Z.abs c < 2 ^ prec ->
  binary_normalize prec emax (c * 2 ^ J) (- J) false
  = match c with
    | Z0 => S754_zero false
    | Zpos p => int_float prec false p
    | Zneg p => int_float prec true p
    end.
Proof using Hprec Hemax.
  intros HJ Hc. destruct c as [|p|p].
  - reflexivity.
  - rewrite <- shl_pos by lia. cbn [binary_normalize].
    apply binary_round_int; [lia | lia].
  - replace (Z.neg p * 2 ^ J) with (Z.neg (shl p J))
      by (rewrite <- Pos2Z.opp_pos, shl_pos by lia; lia).
    cbn [binary_normalize]. apply binary_round_int; [lia | lia].
Qed.

Lemma of_Z_int c :
  Z.abs c < 2 ^ prec ->
  IEEE.of_Z prec emax c
  = match c with
    | Z0 => S754_zero false
    | Zpos p => int_float prec false p
    | Zneg p => int_float prec true p
    end.
Proof using Hprec Hemax.
  intros Hc. unfold IEEE.of_Z.
  rewrite <- (binary_normalize_int c 0) by lia.
  f_equal. rewrite Z.pow_0_r. lia.
Qed.

(** Addition of two integers is exact when operands and sum stay
    below [2^prec]. *)
Lemma add_of_Z a b :
  Z.abs a < 2 ^ prec -> Z.abs b < 2 ^ prec -> Z.abs (a + b) < 2 ^ prec ->
  SFadd prec emax (IEEE.of_Z prec emax a) (IEEE.of_Z prec emax b) = IEEE.of_Z prec emax (a + b).
Proof using Hprec Hemax.
  intros Ha Hb Hab.
  rewrite (of_Z_int a Ha), (of_Z_int b Hb).
  destruct a as [|pa|pa];
    [ cbn [Z.add] in *; rewrite (of_Z_int b Hb); destruct b; reflexivity | |];
    (destruct b as [|pb|pb];
     [ rewrite Z.add_0_r; rewrite (of_Z_int _ Ha); reflexivity | | ]).
  all: rewrite (of_Z_int _ Hab).
  all: unfold int_float at 1 2; cbn [SFadd].
  all: rewrite !shl_align_eq; cbn [fst].
  all: pose proof (digits2_pos_le pa prec ltac:(lia) ltac:(lia)) as Hda.
  all: pose proof (digits2_pos_le pb prec ltac:(lia) ltac:(lia)) as Hdb.
  all: set (ja := prec - Zpos (digits2_pos pa)) in *.
  all: set (jb := prec - Zpos (digits2_pos pb)) in *.
  all: set (J := Z.max ja jb).
  all: replace (Z.min (- ja) (- jb)) with (- J) by lia.
  all: rewrite !shl_shl by lia.
  all: replace (ja + (- ja - - J)) with J by lia.
  all: replace (jb + (- jb - - J)) with J by lia.
  all: cbn [cond_Zopp]; rewrite ?Pos2Z.opp_pos.
  all: rewrite <- (binary_normalize_int _ J) by lia.
  all: f_equal.
  all: rewrite ?Pos2Z.opp_pos.
  all: rewrite <- ?Pos2Z.opp_pos, !shl_pos by lia; lia.
Qed.

Lemma sub_self s m e :
  SFsub prec emax (S754_finite s m e) (S754_finite s m e) = S754_zero false.
Proof using Hprec Hemax.
  cbn [SFsub]. rewrite Z.min_id, shl_align_eq, Z.sub_diag. cbn [fst shl].
  rewrite ?Z.sub_diag. reflexivity.
Qed.

Lemma shr_m_shr_1 r : 0 <= shr_m r -> shr_m (shr_1 r) = shr_m r / 2.
Proof using Hprec Hemax.
  destruct r as [m r s]. cbn [shr_m]. intros Hm.
  destruct m as [|p|p]; [reflexivity | | lia].
  destruct p; cbn [shr_1 shr_m].
  - rewrite Pos2Z.inj_xI. apply Z.div_unique with (r := 1); lia.
  - rewrite Pos2Z.inj_xO. apply Z.div_unique with (r := 0); lia.
  - reflexivity.
Qed.

Lemma shr_m_iter n : forall r,
  0 <= shr_m r -> shr_m (iter_pos shr_1 n r) = shr_m r / 2 ^ Zpos n.
Proof using Hprec Hemax.
  intros r Hr. rewrite iter_pos_iter. induction n using Pos.peano_ind.
  - cbn [Pos.iter]. rewrite shr_m_shr_1 by exact Hr. reflexivity.
  - rewrite Pos.iter_succ. rewrite shr_m_shr_1.
    + rewrite IHn. rewrite Pos2Z.inj_succ, Z.pow_succ_r by lia.
      rewrite Z.div_div by lia. f_equal. lia.
    + rewrite IHn. apply Z.div_pos; lia.
Qed.

Lemma Zdigits2_le z n : 0 <= n -> Z.abs z < 2 ^ n -> Zdigits2 z <= n.
Proof using Hprec Hemax.
  intros Hn Hz. destruct z as [|p|p]; cbn [Zdigits2]; [lia | |];
    apply digits2_pos_le; lia.
Qed.

Lemma Zdigits2_bound z : Z.abs z < 2 ^ Zdigits2 z.
Proof using Hprec Hemax.
  destruct z as [|p|p]; cbn [Zdigits2]; [simpl; lia | |];
    pose proof (digits2_pos_bounds p); lia.
Qed.

Lemma Zdigits2_nonneg z : 0 <= Zdigits2 z.
Proof using Hprec Hemax. destruct z; cbn [Zdigits2]; lia. Qed.

(** Digits left after a right shift by [n]. *)
Lemma Zdigits2_div z n :
  0 <= z -> 0 < n -> Zdigits2 (z / 2 ^ n) <= Z.max 0 (Zdigits2 z - n).
Proof using Hprec Hemax.
  intros Hz Hn. pose proof (Zdigits2_bound z) as Hb. pose proof (Zdigits2_nonneg z).
  assert (Hq : 0 <= z / 2 ^ n) by (apply Z.div_pos; lia).
  apply Zdigits2_le; [lia |]. rewrite Z.abs_eq by lia.
  rewrite Z.abs_eq in Hb by lia.
  destruct (Z_le_gt_dec (Zdigits2 z) n) as [Hle | Hgt].
  - rewrite Z.max_l by lia. rewrite Z.div_small; [simpl; lia |].
    split; [lia |]. apply Z.lt_le_trans with (1 := Hb). apply Z.pow_le_mono_r; lia.
  - rewrite Z.max_r by lia. apply Z.div_lt_upper_bound; [lia |].
    rewrite <- Z.pow_add_r by lia. replace (n + (Zdigits2 z - n)) with (Zdigits2 z) by lia.
    exact Hb.
Qed.

Lemma round_nearest_even_range q l :
  q <= round_nearest_even q l <= q + 1.
Proof using Hprec Hemax.
  unfold round_nearest_even. destruct l as [|[]]; try lia. destruct (Z.even q); lia.
Qed.

Lemma fexp_le t : t <= emax -> fexp prec emax t <= emax - prec.
Proof using Hprec Hemax. unfold fexp, emin. lia. Qed.

Lemma fexp_ge t : emin prec emax <= fexp prec emax t /\ t - prec <= fexp prec emax t.
Proof using Hprec Hemax. unfold fexp. lia. Qed.

(** The second normalisation of [binary_round_aux]. *)
Lemma shr_fexp_exact_format m e mrs e' p :
  shr_fexp prec emax m e loc_Exact = (mrs, e') ->
  shr_m mrs = Zpos p ->
  Zpos (digits2_pos p) <= prec /\ emin prec emax <= e'.
Proof using Hprec Hemax.
  unfold shr_fexp. cbn [shr_record_of_loc]. unfold shr.
  pose proof (fexp_ge (Zdigits2 m + e)) as [Hmin Hfe].
  destruct (fexp prec emax (Zdigits2 m + e) - e) as [|n|n] eqn:En.
  - intros H Hp. injection H as <- <-. cbn [shr_m] in Hp. subst m.
    cbn [Zdigits2] in *. lia.
  - intros H Hp. injection H as <- <-.
    destruct (Z_lt_le_dec m 0) as [Hneg | Hnn].
    + exfalso. destruct m as [|q|q]; try lia.
      assert (Hle : forall k r, shr_m r <= 0 -> shr_m (Pos.iter shr_1 r k) <= 0).
      { intros k. induction k using Pos.peano_ind; intros r Hr.
        - cbn [Pos.iter]. destruct r as [[|a|a] b c]; cbn in *; try lia.
          destruct a; cbn; lia.
        - rewrite Pos.iter_succ. specialize (IHk r Hr).
          destruct (Pos.iter shr_1 r k) as [[|a|a] b c]; cbn in *; try lia.
          destruct a; cbn; lia. }
      rewrite iter_pos_iter in Hp.
      specialize (Hle n (Build_shr_record (Z.neg q) false false)). cbn [shr_m] in Hle.
      lia.
    + rewrite shr_m_iter in Hp by (cbn [shr_m]; lia). cbn [shr_m] in Hp.
      pose proof (Zdigits2_div m (Zpos n) Hnn ltac:(lia)) as Hd.
      rewrite Hp in Hd. cbn [Zdigits2] in Hd. lia.
  - intros H Hp. injection H as <- <-. cbn [shr_m] in Hp. subst m.
    cbn [Zdigits2] in *. lia.
Qed.

(** Whatever is rounded, the result fits the format. *)
Lemma binary_round_aux_format s m e l :
  in_format prec emax (binary_round_aux prec emax s m e l).
Proof using Hprec Hemax.
  unfold binary_round_aux.
  destruct (shr_fexp prec emax m e l) as [mrs' e'].
  destruct (shr_fexp prec emax _ e' loc_Exact) as [mrs'' e''] eqn:E2.
  destruct (shr_m mrs'') as [|p|p] eqn:Ep; cbn [in_format]; try exact I.
  destruct (e'' <=? emax - prec) eqn:Ele; cbn [in_format]; try exact I.
  apply Z.leb_le in Ele.
  destruct (shr_fexp_exact_format _ _ _ _ _ E2 Ep). lia.
Qed.

Lemma shr_nonneg k : forall r, 0 <= shr_m r -> 0 <= shr_m (iter_pos shr_1 k r).
Proof using Hprec Hemax.
  intros r Hr. rewrite shr_m_iter by exact Hr. apply Z.div_pos; lia.
Qed.

Lemma shr_fexp_exact_bound m e mrs e' :
  0 <= m ->
  shr_fexp prec emax m e loc_Exact = (mrs, e') ->
  0 <= shr_m mrs /\ e' <= Z.max e (fexp prec emax (Zdigits2 m + e)).
Proof using Hprec Hemax.
  intros Hm. unfold shr_fexp. cbn [shr_record_of_loc]. unfold shr.
  destruct (fexp prec emax (Zdigits2 m + e) - e) as [|n|n] eqn:En;
    intros H; injection H as <- <-.
  - cbn [shr_m]. lia.
  - split; [apply shr_nonneg; cbn [shr_m]; lia | lia].
  - cbn [shr_m]. lia.
Qed.

(** Rounding an exact value of magnitude below [2^(emax-1)] does not
    overflow. *)
Lemma binary_round_aux_finite s m e :
  e <= emax - prec ->
  Zpos (digits2_pos m) + e + 1 <= emax ->
  IEEE.is_finite (binary_round_aux prec emax s (Zpos m) e loc_Exact) = true.
Proof using Hprec Hemax.
  intros He HD. unfold binary_round_aux.
  destruct (shr_fexp prec emax (Zpos m) e loc_Exact) as [mrs' e'] eqn:E1.
  set (mr := round_nearest_even (shr_m mrs') (loc_of_shr_record mrs')).
  destruct (shr_fexp prec emax mr e' loc_Exact) as [mrs'' e''] eqn:E2.
  pose proof (round_nearest_even_range (shr_m mrs') (loc_of_shr_record mrs')) as Hr.
  fold mr in Hr.
  assert (H1 : 0 <= shr_m mrs' /\ e' <= emax - prec
               /\ Zdigits2 mr + e' <= emax).
  { revert E1. unfold shr_fexp. cbn [shr_record_of_loc Zdigits2]. unfold shr.
    pose proof (fexp_le (Zpos (digits2_pos m) + e) ltac:(lia)) as Hfe.
    destruct (fexp prec emax (Zpos (digits2_pos m) + e) - e) as [|n|n] eqn:En;
      intros H; injection H as <- <-.
    - subst mr. cbn [shr_m loc_of_shr_record round_nearest_even Zdigits2]. lia.
    - split; [apply shr_nonneg; cbn [shr_m]; lia |]. split; [lia |].
      assert (Hq := shr_m_iter n (Build_shr_record (Zpos m) false false)
                      ltac:(cbn [shr_m]; lia)).
      cbn [shr_m] in Hq.
      set (q := shr_m (iter_pos shr_1 n (Build_shr_record (Zpos m) false false))) in *.
      assert (Hq0 : 0 <= q) by (rewrite Hq; apply Z.div_pos; lia).
      pose proof (Zdigits2_div (Zpos m) (Zpos n) ltac:(lia) ltac:(lia)) as Hd.
      rewrite <- Hq in Hd. cbn [Zdigits2] in Hd.
      pose proof (Zdigits2_bound q) as Hb. rewrite Z.abs_eq in Hb by lia.
      set (K := Z.max 0 (Zpos (digits2_pos m) - Zpos n)) in *.
      assert (HK : 2 ^ Zdigits2 q <= 2 ^ K) by (apply Z.pow_le_mono_r; lia).
      assert (Hmr : Zdigits2 mr <= K + 1).
      { apply Zdigits2_le; [lia |]. rewrite Z.abs_eq by lia.
        rewrite Z.pow_add_r by lia. lia. }
      unfold fexp, emin in *. lia.
    - subst mr. cbn [shr_m loc_of_shr_record round_nearest_even Zdigits2]. lia. }
  destruct H1 as (Hnn & He' & HD').
  destruct (shr_fexp_exact_bound mr e' mrs'' e'' ltac:(lia) E2) as [Hnn2 He2].
  pose proof (fexp_le (Zdigits2 mr + e') HD').
  destruct (shr_m mrs'') as [|p|p]; [reflexivity | | lia].
  replace (e'' <=? emax - prec) with true by (symmetry; apply Z.leb_le; lia).
  reflexivity.
Qed.

Lemma binary_round_finite s m e :
  Zpos (digits2_pos m) + e + 1 <= emax ->
  IEEE.is_finite (binary_round prec emax s m e) = true.
Proof using Hprec Hemax.
  intros HD. unfold binary_round. rewrite shl_align_eq.
  pose proof (fexp_le (Zpos (digits2_pos m) + e) ltac:(lia)) as Hfe.
  set (e0 := fexp prec emax (Zpos (digits2_pos m) + e)) in *.
  apply binary_round_aux_finite; [lia |].
  destruct (Z_le_gt_dec e e0).
  - replace (shl m (e - e0)) with m by (destruct (e - e0) eqn:E; cbn [shl]; [reflexivity | lia | reflexivity]).
    lia.
  - rewrite digits2_shl by lia. lia.
Qed.

Lemma binary_normalize_finite z e sz :
  Zdigits2 z + e + 1 <= emax ->
  IEEE.is_finite (binary_normalize prec emax z e sz) = true.
Proof using Hprec Hemax.
  intros H. destruct z; cbn [binary_normalize Zdigits2] in *;
    [reflexivity | |]; apply binary_round_finite; exact H.
Qed.

Lemma cond_Zopp_abs s z : Z.abs (cond_Zopp s z) = Z.abs z.
Proof using Hprec Hemax. destruct s; cbn [cond_Zopp]; lia. Qed.

(** A difference of two values below [2^E] does not overflow when
    [E + 2 <= emax]. *)
Lemma sub_below_finite E x y :
  below E x -> below E y -> E + 2 <= emax ->
  IEEE.is_finite (SFsub prec emax x y) = true.
Proof using Hprec Hemax.
  intros Hx Hy HE.
  destruct x as [sx | sx | | sx mx ex]; cbn [below] in Hx; try contradiction;
    destruct y as [sy | sy | | sy my ey]; cbn [below] in Hy; try contradiction.
  - destruct sx, sy; reflexivity.
  - reflexivity.
  - reflexivity.
  - cbn [SFsub]. rewrite !shl_align_eq. cbn [fst].
    apply binary_normalize_finite.
    set (ez := Z.min ex ey).
    set (X := cond_Zopp sx (Zpos (shl mx (ex - ez)))).
    set (Y := cond_Zopp sy (Zpos (shl my (ey - ez)))).
    assert (HX : Z.abs X < 2 ^ (E - ez)).
    { subst X. rewrite cond_Zopp_abs, Z.abs_eq, shl_pos by lia.
      pose proof (digits2_pos_bounds mx) as [_ Hb].
      apply Z.lt_le_trans with (2 ^ Zpos (digits2_pos mx) * 2 ^ (ex - ez)).
      - apply Z.mul_lt_mono_pos_r; [apply Z.pow_pos_nonneg; lia | exact Hb].
      - rewrite <- Z.pow_add_r by lia. apply Z.pow_le_mono_r; lia. }
    assert (HY : Z.abs Y < 2 ^ (E - ez)).
    { subst Y. rewrite cond_Zopp_abs, Z.abs_eq, shl_pos by lia.
      pose proof (digits2_pos_bounds my) as [_ Hb].
      apply Z.lt_le_trans with (2 ^ Zpos (digits2_pos my) * 2 ^ (ey - ez)).
      - apply Z.mul_lt_mono_pos_r; [apply Z.pow_pos_nonneg; lia | exact Hb].
      - rewrite <- Z.pow_add_r by lia. apply Z.pow_le_mono_r; lia. }
    assert (Hpos : 0 <= E - ez) by lia.
    assert (Zdigits2 (X - Y) <= E - ez + 1).
    { apply Zdigits2_le; [lia |]. rewrite Z.pow_add_r by lia. lia. }
    lia.
Qed.

End FloatFacts.

(** ** Field-of-view window *)

Lemma azimuth_in_view_spec config a :
  azimuth_in_view config a = true <->
  (min_angle config <= a /\ a <= max_angle config /\ min_angle config < max_angle config)
  \/ (max_angle config < min_angle config
      /\ (a <= max_angle config \/ min_angle config <= a)).
Proof.
  unfold azimuth_in_view.
  rewrite orb_true_iff, !andb_true_iff, orb_true_iff, !Z.leb_le, !Z.ltb_lt.
  lia.
Qed.




(** ** setParameters *)

Lemma setParameters_angles this min_range max_range view_direction view_width :
let lo := derived_min_angle view_direction view_width in
let hi := derived_max_angle view_direction view_width in
min_angle (config_ (setParameters this min_range max_range view_direction view_width))
  = (if lo =? hi then 0 else lo)
/\ max_angle (config_ (setParameters this min_range max_range view_direction view_width))
  = (if lo =? hi then 36000 else hi).
Proof.
unfold setParameters, derived_min_angle, derived_max_angle.
destruct (_ =? _); split; reflexivity.
Qed.

(** C6: whenever the two derived integer bounds are equal, [setParameters]
  leaves [min_angle = 0] and [max_angle = 36000]; this is the case for
  [view_direction = 0] and [view_width = 0], where both bounds come
  out as 36000. *)
Theorem setParameters_widens_collapsed_window
  (this : RawData) (min_range max_range view_direction view_width : double) :
derived_min_angle view_direction view_width
  = derived_max_angle view_direction view_width ->
(min_angle (config_ (setParameters this min_range max_range view_direction view_width)) = 0
 /\ max_angle (config_ (setParameters this min_range max_range view_direction view_width))
    = 36000)
/\ derived_min_angle (F64.of_int 0) (F64.of_int 0) = 36000
/\ derived_max_angle (F64.of_int 0) (F64.of_int 0) = 36000
/\ min_angle (config_ (setParameters this min_range max_range (F64.of_int 0) (F64.of_int 0)))
   = 0
/\ max_angle (config_ (setParameters this min_range max_range (F64.of_int 0) (F64.of_int 0)))
   = 36000.
Proof.
intros Heq.
pose proof (setParameters_angles this min_range max_range view_direction view_width) as H.
pose proof (setParameters_angles this min_range max_range (F64.of_int 0) (F64.of_int 0)) as H0.
cbv zeta in H, H0.
rewrite Heq, Z.eqb_refl in H.
assert (Hlo : derived_min_angle (F64.of_int 0) (F64.of_int 0) = 36000) by (vm_compute; reflexivity).
assert (Hhi : derived_max_angle (F64.of_int 0) (F64.of_int 0) = 36000) by (vm_compute; reflexivity).
rewrite Hlo, Hhi, Z.eqb_refl in H0.
split; [exact H |]. split; [exact Hlo |]. split; [exact Hhi |]. exact H0.
Qed.

(** ** Timing offsets of the VLP32 *)

Lemma zrange_length n i : List.length (zrange n i) = n.
Proof. revert i. induction n; intros i; simpl; [reflexivity | now rewrite IHn]. Qed.

Lemma zrange_nth n : forall i k d, (k < n)%nat -> nth k (zrange n i) d = i + Z.of_nat k.
Proof.
  induction n; intros i k d Hk; [lia |].
  destruct k; simpl.
  - lia.
  - rewrite IHn by lia. lia.
Qed.

Lemma zrange_In n : forall i j, In j (zrange n i) <-> i <= j < i + Z.of_nat n.
Proof.
  induction n; intros i j; simpl.
  - lia.
  - rewrite IHn. lia.
Qed.

(** The nested loops leave the table of the closed form. *)
Lemma getVLP32TimingOffsets_table :
  getVLP32TimingOffsets
  = map (fun i => map (vlp32_offset i) (zrange 32 0))
        (zrange 12 0).
Proof. reflexivity. Qed.

Lemma getVLP32TimingOffsets_row i :
  0 <= i < 12 ->
  nth_error getVLP32TimingOffsets (Z.to_nat i)
  = Some (map (vlp32_offset i) (zrange 32 0)).
Proof.
  intros Hi. rewrite getVLP32TimingOffsets_table.
  rewrite nth_error_map.
  rewrite (nth_error_nth' _ 0) by (rewrite zrange_length; lia).
  rewrite zrange_nth by lia. cbn [option_map]. do 3 f_equal. lia.
Qed.

Lemma getVLP32TimingOffsets_nth i j :
  0 <= i < 12 -> 0 <= j < 32 ->
  nth_error (nth (Z.to_nat i) getVLP32TimingOffsets []) (Z.to_nat j)
  = Some (vlp32_offset i j).
Proof.
  intros Hi Hj.
  rewrite (nth_error_nth _ _ [] (getVLP32TimingOffsets_row i Hi)).
  rewrite nth_error_map.
  rewrite (nth_error_nth' _ 0) by (rewrite zrange_length; lia).
  rewrite zrange_nth by lia. cbn [option_map]. do 2 f_equal. lia.
Qed.

(** C7: the VLP32 timing table has 12 rows of 32 entries, and the entry
    of firing sequence [i] and slot [j] is the firing-sequence duration
    times [i] plus the firing duration times [floor (j / 2)], both
    durations being the VLP32 profile's, times 1e-6. *)
Theorem getVLP32TimingOffsets_entries :
  let table := getVLP32TimingOffsets in
  List.length table = 12%nat
  /\ (forall row, In row table -> List.length row = 32%nat)
  /\ (forall i j, 0 <= i < 12 -> 0 <= j < 32 ->
        nth_error table (Z.to_nat i)
          = Some (nth (Z.to_nat i) table [])
        /\ nth_error (nth (Z.to_nat i) table []) (Z.to_nat j)
          = Some (Duration_of_double
                    (F64.add
                       (F64.mul
                          (F64.mul (F64.of_float (firing_seq_duration VLP_32_SPEC))
                                   (F64.decimal 1 6))
                          (F64.of_int i))
                       (F64.mul
                          (F64.mul (F64.of_float (firing_duration VLP_32_SPEC))
                                   (F64.decimal 1 6))
                          (F64.of_int (j / 2)))))).
Proof.
  intros table. subst table.
  split; [| split].
  - rewrite getVLP32TimingOffsets_table, length_map, zrange_length. reflexivity.
  - rewrite getVLP32TimingOffsets_table.
    intros row Hin. apply in_map_iff in Hin. destruct Hin as [i [<- _]].
    rewrite length_map, zrange_length. reflexivity.
  - intros i j Hi Hj. split.
    + rewrite (nth_error_nth _ _ [] (getVLP32TimingOffsets_row i Hi)).
      apply getVLP32TimingOffsets_row. exact Hi.
    + rewrite (getVLP32TimingOffsets_nth i j Hi Hj). reflexivity.
Qed.

(** ** Loops that append points *)

Lemma append_points_nil pc : append_points pc [] = pc.
Proof.
  destruct pc as [pts w]. unfold append_points. simpl.
  rewrite app_nil_r, Z.add_0_r. reflexivity.
Qed.

Lemma append_points_app pc l1 l2 :
  append_points (append_points pc l1) l2 = append_points pc (l1 ++ l2).
Proof.
  unfold append_points. simpl. rewrite app_assoc, length_app, Nat2Z.inj_add.
  f_equal. lia.
Qed.

Lemma push_back_append p pc : push_back p pc = (inl tt, append_points pc [p]).
Proof. reflexivity. Qed.

Lemma zrange_succ n : forall i, zrange (S n) i = zrange n i ++ [i + Z.of_nat n].
Proof.
  induction n; intros i.
  - simpl. rewrite Z.add_0_r. reflexivity.
  - change (zrange (S (S n)) i) with (i :: zrange (S n) (i + 1)).
    rewrite IHn. cbn [zrange app]. rewrite (Nat2Z.inj_succ n).
    replace (i + 1 + Z.of_nat n) with (i + Z.succ (Z.of_nat n)) by lia. reflexivity.
Qed.

Lemma flat_map_ext_in {A B} (f g : A -> list B) l :
  (forall a, In a l -> f a = g a) -> flat_map f l = flat_map g l.
Proof.
  induction l as [|a l IH]; intros H; simpl; [reflexivity |].
  rewrite (H a (or_introl eq_refl)), IH; [reflexivity |].
  intros b Hb. apply H. right. exact Hb.
Qed.

Lemma for_count_plus {St} n m : forall lo (body : Z -> St -> M St) s pc,
  for_count (n + m) lo body s pc
  = bind (for_count n lo body s) (for_count m (lo + Z.of_nat n) body) pc.
Proof.
  induction n; intros lo body s pc.
  - simpl. unfold bind, ret. rewrite Z.add_0_r. reflexivity.
  - change (for_count (S n + m) lo body s pc)
      with (bind (body lo s) (for_count (n + m) (lo + 1) body) pc).
    change (for_count (S n) lo body s)
      with (bind (body lo s) (for_count n (lo + 1) body)).
    replace (lo + Z.of_nat (S n)) with (lo + 1 + Z.of_nat n) by lia.
    unfold bind at 1 2 3. destruct (body lo s pc) as [[s' | e] pc']; [| reflexivity].
    rewrite IHn. reflexivity.
Qed.

Lemma for_count_ext {St} n : forall lo (body body' : Z -> St -> M St) s pc,
  (forall i s pc, lo <= i < lo + Z.of_nat n -> body i s pc = body' i s pc) ->
  for_count n lo body s pc = for_count n lo body' s pc.
Proof.
  induction n; intros lo body body' s pc H; [reflexivity |].
  simpl. unfold bind. rewrite H by lia.
  destruct (body' lo s pc) as [[s' | e] pc']; [| reflexivity].
  apply IHn. intros i s0 pc0 Hi. apply H. lia.
Qed.

(** A loop whose body always completes, advances its state by [step] and
    appends [f i s]: the points are those of the indices in turn. *)
Lemma for_count_slots {St} (step : St -> St) n :
  forall lo (body : Z -> St -> M St) (f : Z -> St -> list VPoint.t) s pc,
  (forall i s pc, lo <= i < lo + Z.of_nat n ->
     body i s pc = (inl (step s), append_points pc (f i s))) ->
  for_count n lo body s pc
  = (inl (Nat.iter n step s),
     append_points pc
       (flat_map (fun i => f i (Nat.iter (Z.to_nat (i - lo)) step s)) (zrange n lo))).
Proof.
  induction n; intros lo body f s pc H.
  - simpl. rewrite append_points_nil. reflexivity.
  - cbn [for_count]. unfold bind. rewrite H by lia.
    rewrite (IHn (lo + 1) body f) by (intros; apply H; lia).
    rewrite append_points_app. cbn [zrange flat_map].
    rewrite Z.sub_diag. cbn [Z.to_nat Nat.iter].
    f_equal.
    + rewrite Nat.iter_succ_r. reflexivity.
    + f_equal. f_equal. apply flat_map_ext_in. intros i Hi.
      apply zrange_In in Hi.
      replace (Z.to_nat (i - lo)) with (S (Z.to_nat (i - (lo + 1)))) by lia.
      rewrite Nat.iter_succ_r. reflexivity.
Qed.

Lemma iter_add_Z n d k : Nat.iter n (fun k => k + d) k = k + d * Z.of_nat n.
Proof.
  induction n.
  - simpl. lia.
  - rewrite Nat.iter_succ, IHn. lia.
Qed.

Lemma at_Some {A} (v : list A) i a :
  0 <= i -> nth_error v (Z.to_nat i) = Some a -> forall pc, at_ v i pc = (inl a, pc).
Proof.
  intros Hi Hn pc. unfold at_.
  destruct (i <? 0) eqn:E; [apply Z.ltb_lt in E; lia |].
  rewrite Hn. reflexivity.
Qed.

Lemma nth_error_in_range {A} (v : list A) i :
  0 <= i < Z.of_nat (List.length v) -> exists a, nth_error v (Z.to_nat i) = Some a.
Proof.
  intros Hi. destruct (nth_error v (Z.to_nat i)) eqn:E; [eauto |].
  apply nth_error_None in E. lia.
Qed.

(** ** Structure of a VLP decode *)

(** The laser loop of one firing sequence. *)
Lemma vlp_lasers_run this pkt az azd block firing_seq k pc :
  calibration_covers this ->
  let n := Z.to_nat (lasers_per_firing_seq (vlp_spec_ this)) in
  for_ 0 (lasers_per_firing_seq (vlp_spec_ this))
    (fun laser k =>
       bind (at_ (laser_corrections (calibration_ this)) laser)
         (fun corrections =>
            bind (match vlp_scan this pkt az azd block firing_seq laser k corrections with
                  | Some point => push_back point
                  | None => ret tt
                  end)
                 (fun _ => ret (k + RAW_SCAN_SIZE))))
    k pc
  = (inl (k + RAW_SCAN_SIZE * Z.of_nat n),
     append_points pc
       (flat_map
          (fun l => option_list
                      (vlp_slot_with this pkt az azd block firing_seq l
                         (k + RAW_SCAN_SIZE * l)))
          (zrange n 0))).
Proof.
  intros Hcal n. unfold for_. rewrite Z.sub_0_r. fold n.
  rewrite (for_count_slots (fun k => k + RAW_SCAN_SIZE) n 0 _
             (fun l k => option_list (vlp_slot_with this pkt az azd block firing_seq l k))).
  - rewrite iter_add_Z. f_equal. f_equal. apply flat_map_ext_in.
    intros l Hl. apply zrange_In in Hl. rewrite Z.sub_0_r, iter_add_Z.
    rewrite Z2Nat.id by lia. reflexivity.
  - intros l k0 pc0 Hl. unfold calibration_covers in Hcal.
    destruct (nth_error_in_range (laser_corrections (calibration_ this)) l) as [c Hc];
      [subst n; lia |].
    unfold bind. rewrite (at_Some _ l c (proj1 Hl) Hc).
    unfold vlp_slot_with. rewrite Hc.
    destruct (vlp_scan this pkt az azd block firing_seq l k0 c) as [p |].
    + reflexivity.
    + unfold ret. rewrite append_points_nil. reflexivity.
Qed.

(** The two inner loops on one block. *)
Lemma vlp_block_run this pkt az azd block pc :
  calibration_covers this ->
  exists k,
    vlp_block this pkt az azd block pc
    = (inl k,
       append_points pc
         (flat_map
            (fun s =>
               flat_map
                 (fun l => option_list
                             (vlp_slot_with this pkt az azd block s l
                                ((s * lasers_per_firing_seq (vlp_spec_ this) + l)
                                 * RAW_SCAN_SIZE)))
                 (zrange (Z.to_nat (lasers_per_firing_seq (vlp_spec_ this))) 0))
            (zrange (Z.to_nat (firing_seqs_per_block (vlp_spec_ this))) 0))).
Proof.
  intros Hcal. eexists. unfold vlp_block, for_ at 1. rewrite Z.sub_0_r.
  set (n := Z.to_nat (lasers_per_firing_seq (vlp_spec_ this))).
  rewrite (for_count_slots (fun k => k + RAW_SCAN_SIZE * Z.of_nat n) _ 0 _
             (fun s k =>
                flat_map
                  (fun l => option_list
                              (vlp_slot_with this pkt az azd block s l
                                 (k + RAW_SCAN_SIZE * l)))
                  (zrange n 0))).
  - f_equal. f_equal. apply flat_map_ext_in. intros s Hs. apply zrange_In in Hs.
    apply flat_map_ext_in. intros l Hl. apply zrange_In in Hl.
    rewrite Z.sub_0_r, iter_add_Z. rewrite Z2Nat.id by lia.
    do 2 f_equal. subst n. rewrite Z2Nat.id by lia. lia.
  - intros s k0 pc0 _. apply (vlp_lasers_run this pkt az azd block s k0 pc0 Hcal).
Qed.

Lemma vlp_slot_with_interpolated this pkt b s l :
  0 <= l -> 0 <= lasers_per_firing (vlp_spec_ this) ->
  vlp_slot_with this pkt (F32.of_int (block_rotation pkt b))
    (F32.of_int (block_diff pkt b)) b s l
    ((s * lasers_per_firing_seq (vlp_spec_ this) + l) * RAW_SCAN_SIZE)
  = vlp_slot this pkt b s l.
Proof.
  intros Hl Hlpf. unfold vlp_slot_with, vlp_slot, vlp_scan.
  unfold azimuth_corrected, azimuth_corrected_f, interpolated_azimuth.
  assert (Hq : Z.quot l (lasers_per_firing (vlp_spec_ this))
               = l / lasers_per_firing (vlp_spec_ this)).
  { destruct (Z.eq_dec (lasers_per_firing (vlp_spec_ this)) 0) as [-> | Hne].
    - rewrite Z.div_0_r. apply Z.quot_0_r_ext. reflexivity.
    - apply Z.quot_div_nonneg; lia. }
  rewrite Hq. reflexivity.
Qed.

Lemma vlp_block_points_run this pkt block pc :
  calibration_covers this ->
  0 <= lasers_per_firing (vlp_spec_ this) ->
  exists k,
    vlp_block this pkt (F32.of_int (block_rotation pkt block))
      (F32.of_int (block_diff pkt block)) block pc
    = (inl k, append_points pc (vlp_block_points this pkt block)).
Proof.
  intros Hcal Hlpf.
  destruct (vlp_block_run this pkt (F32.of_int (block_rotation pkt block))
              (F32.of_int (block_diff pkt block)) block pc Hcal) as [k Hk].
  exists k. rewrite Hk. f_equal. f_equal. unfold vlp_block_points.
  apply flat_map_ext_in. intros s _.
  apply flat_map_ext_in. intros l Hl. apply zrange_In in Hl.
  f_equal. apply vlp_slot_with_interpolated; lia.
Qed.

Lemma rotation_delta_bound pkt b : Z.abs (rotation_delta pkt b) < 36000.
Proof.
  unfold rotation_delta.
  pose proof (Z.rem_bound_abs (36000 + block_rotation pkt (b + 1) - block_rotation pkt b)
                36000 ltac:(lia)).
  lia.
Qed.

Lemma sweep_bound pkt n : Z.abs (sweep pkt n) <= 35999 * Z.of_nat n.
Proof.
  induction n.
  - simpl. lia.
  - cbn [sweep]. pose proof (rotation_delta_bound pkt (Z.of_nat n)). lia.
Qed.

(** The running values after a block, from the ones holding before it. *)
Lemma block_azimuth_diff_running pkt n :
  (n < 12)%nat ->
  block_azimuth_diff pkt (Z.of_nat n) (F32.of_int (last_diff pkt n))
    (F32.of_int (sweep pkt (Nat.min n 11)))
  = (F32.of_int (block_diff pkt (Z.of_nat n)),
     F32.of_int (last_diff pkt (S n)),
     F32.of_int (sweep pkt (Nat.min (S n) 11))).
Proof.
  intros Hn. unfold block_azimuth_diff, BLOCKS_PER_PACKET.
  destruct (Z.of_nat n <? 12 - 1) eqn:E.
  - apply Z.ltb_lt in E.
    rewrite Nat.min_l by lia. rewrite Nat.min_l by lia.
    cbn [last_diff sweep]. unfold block_diff, BLOCKS_PER_PACKET.
    replace (Z.of_nat n <? 12 - 1) with true by (symmetry; apply Z.ltb_lt; lia).
    fold (rotation_delta pkt (Z.of_nat n)).
    f_equal. unfold F32.add, F32.of_int.
    pose proof (sweep_bound pkt n). pose proof (sweep_bound pkt (S n)) as HS.
    cbn [sweep] in HS.
    pose proof (rotation_delta_bound pkt (Z.of_nat n)).
    apply add_of_Z; unfold F32.prec, F32.emax; try lia.
    all: change (2 ^ 24) with 16777216; lia.
  - apply Z.ltb_ge in E. assert (n = 11%nat) by lia. subst n.
    reflexivity.
Qed.

Lemma unpack_vlp_block_run this pkt g n pc :
  (n < 12)%nat ->
  block_header pkt (Z.of_nat n) = UPPER_BANK ->
  blocks_append this pkt g ->
  unpack_vlp_block this pkt (Z.of_nat n)
    (F32.of_int (last_diff pkt n), F32.of_int (sweep pkt (Nat.min n 11))) pc
  = (inl (F32.of_int (last_diff pkt (S n)),
          F32.of_int (sweep pkt (Nat.min (S n) 11))),
     append_points pc (g (Z.of_nat n))).
Proof.
  intros Hn Hhdr Hg. unfold unpack_vlp_block.
  rewrite Hhdr, Z.eqb_refl. cbn [negb].
  rewrite (block_azimuth_diff_running pkt n Hn).
  destruct (Hg (Z.of_nat n) pc) as [k Hk].
  unfold bind. rewrite Hk. reflexivity.
Qed.

(** The block loop over a prefix of blocks with valid headers. *)
Lemma unpack_vlp_prefix this pkt g pc n :
  (n <= 12)%nat ->
  headers_valid pkt (Z.of_nat n) ->
  blocks_append this pkt g ->
  for_count n 0 (unpack_vlp_block this pkt) (F32.of_int 0, F32.zero) pc
  = (inl (F32.of_int (last_diff pkt n), F32.of_int (sweep pkt (Nat.min n 11))),
     append_points pc (flat_map g (zrange n 0))).
Proof.
  intros Hn Hhdr Hg. induction n.
  - cbn [for_count]. unfold ret. cbn [zrange flat_map].
    rewrite append_points_nil. reflexivity.
  - replace (S n) with (n + 1)%nat at 1 by lia.
    rewrite for_count_plus. unfold bind at 1.
    rewrite IHn by (try lia; intros b Hb; apply Hhdr; lia).
    cbn [for_count]. unfold bind at 1. rewrite Z.add_0_l.
    rewrite (unpack_vlp_block_run this pkt g)
      by (try assumption; try lia; apply Hhdr; lia).
    unfold ret. rewrite append_points_app. f_equal. f_equal.
    rewrite zrange_succ, flat_map_app. cbn [flat_map].
    rewrite app_nil_r, Z.add_0_l. reflexivity.
Qed.

(** A packet whose headers are all valid. *)
Lemma unpack_vlp_valid this pkt g pc :
  headers_valid pkt BLOCKS_PER_PACKET ->
  blocks_append this pkt g ->
  run (unpack_vlp this pkt) pc
  = (Returned (F32.of_int (sweep pkt 11)),
     append_points pc (flat_map g (zrange 12 0))).
Proof.
  intros Hhdr Hg. unfold run, unpack_vlp, for_, bind.
  change (Z.to_nat (BLOCKS_PER_PACKET - 0)) with 12%nat.
  rewrite (unpack_vlp_prefix this pkt g pc 12) by (try assumption; try lia; exact Hhdr).
  reflexivity.
Qed.

(** A packet whose first invalid header is the one of block [b]. *)
Lemma unpack_vlp_invalid this pkt g pc b :
  0 <= b < BLOCKS_PER_PACKET ->
  headers_valid pkt b ->
  block_header pkt b <> UPPER_BANK ->
  blocks_append this pkt g ->
  run (unpack_vlp this pkt) pc
  = (Returned minus_one, append_points pc (flat_map g (zrange (Z.to_nat b) 0))).
Proof.
  intros Hb Hhdr Hbad Hg. unfold BLOCKS_PER_PACKET in Hb.
  unfold run, unpack_vlp, for_, bind.
  change (Z.to_nat (BLOCKS_PER_PACKET - 0)) with 12%nat.
  replace 12%nat with (Z.to_nat b + S (11 - Z.to_nat b))%nat by lia.
  rewrite for_count_plus. unfold bind at 1.
  rewrite (unpack_vlp_prefix this pkt g pc (Z.to_nat b))
    by (try assumption; try lia; rewrite Z2Nat.id by lia; exact Hhdr).
  cbn [for_count]. unfold bind at 1.
  rewrite Z.add_0_l, Z2Nat.id by lia.
  unfold unpack_vlp_block at 1.
  replace (UPPER_BANK =? block_header pkt b) with false
    by (symmetry; apply Z.eqb_neq; congruence).
  reflexivity.
Qed.

(** The blocks append the reference points, and in any case some points. *)
Lemma blocks_append_reference this pkt :
  calibration_covers this ->
  0 <= lasers_per_firing (vlp_spec_ this) ->
  blocks_append this pkt (vlp_block_points this pkt).
Proof.
  intros Hcal Hlpf b pc. apply vlp_block_points_run; assumption.
Qed.

Lemma blocks_append_some this pkt :
  calibration_covers this -> exists g, blocks_append this pkt g.
Proof.
  intros Hcal. eexists. intros b pc.
  apply (vlp_block_run this pkt _ _ b pc Hcal).
Qed.

(** ** Structure of a legacy decode *)

Lemma bank_origin_range pkt i : bank_origin pkt i = 0 \/ bank_origin pkt i = 32.
Proof. unfold bank_origin. destruct (_ =? _); [right | left]; reflexivity. Qed.

Lemma unpack_legacy_block_run this pkt i pc :
  bank_origin pkt i + SCANS_PER_BLOCK
    <= Z.of_nat (List.length (laser_corrections (calibration_ this))) ->
  unpack_legacy_block this pkt i tt pc
  = (inl tt,
     append_points pc
       (flat_map (fun j => option_list (legacy_slot this pkt i j))
          (zrange (Z.to_nat SCANS_PER_BLOCK) 0))).
Proof.
  intros Hcal. unfold unpack_legacy_block, for_. fold (bank_origin pkt i).
  rewrite Z.sub_0_r. unfold bind at 1.
  rewrite (for_count_slots (fun k => k + RAW_SCAN_SIZE) _ 0 _
             (fun j k =>
                option_list
                  (match nth_error (laser_corrections (calibration_ this))
                           (Z.to_nat (j + bank_origin pkt i)) with
                   | Some corrections => legacy_scan this pkt i k corrections
                   | None => None
                   end))).
  - reflexivity.
  - intros j k pc0 Hj. unfold SCANS_PER_BLOCK in *. cbv zeta.
    pose proof (bank_origin_range pkt i) as Hbo.
    replace ((j + bank_origin pkt i) mod 256) with (j + bank_origin pkt i)
      by (symmetry; apply Z.mod_small; lia).
    destruct (nth_error_in_range (laser_corrections (calibration_ this))
                (j + bank_origin pkt i)) as [c Hc]; [lia |].
    unfold bind. rewrite (at_Some _ (j + bank_origin pkt i) c ltac:(lia) Hc), Hc.
    destruct (legacy_scan this pkt i k c) as [p |].
    + reflexivity.
    + unfold ret. rewrite append_points_nil. reflexivity.
Qed.

Lemma unpack_legacy_run this pkt pc :
  legacy_calibration_covers this pkt ->
  run (unpack_legacy this pkt) pc
  = (Returned minus_one, append_points pc (legacy_points this pkt 12)).
Proof.
  intros Hcal. unfold run, unpack_legacy, for_, bind.
  change (Z.to_nat (BLOCKS_PER_PACKET - 0)) with 12%nat.
  rewrite (for_count_slots (fun u : unit => u) 12 0 _
             (fun i _ =>
                flat_map (fun j => option_list (legacy_slot this pkt i j))
                  (zrange (Z.to_nat SCANS_PER_BLOCK) 0))).
  - reflexivity.
  - intros i [] pc0 Hi. apply unpack_legacy_block_run. apply Hcal.
    unfold BLOCKS_PER_PACKET. lia.
Qed.

(** ** Return value and rejected packets *)

Lemma minus_one_negative : F32.ltb minus_one (F32.of_int 0) = true.
Proof. reflexivity. Qed.

Lemma run_snd_bind {A} (m : M A) (k : A -> M float) pc e pc' :
  m pc = (inr e, pc') -> snd (run (bind m k) pc) = pc'.
Proof. intros H. unfold run, bind. rewrite H. destruct e; reflexivity. Qed.

(** What the block loop does on a bad header.  When block [b] is the
    first block of a VLP packet whose header is not the upper-bank
    marker, the cloud is left as the decoding of blocks [0 .. b-1]
    leaves it, nothing of block [b] or of a later block is appended,
    and the call returns -1, a negative value; the points of the
    earlier blocks stay in the cloud, which is unchanged when [b = 0]. *)
Theorem unpack_vlp_stops_at_first_invalid_block
    (this : RawData) (pkt : VelodynePacket) (pc : VPointCloud) (b : Z) :
  0 <= b < BLOCKS_PER_PACKET ->
  headers_valid pkt b ->
  block_header pkt b <> UPPER_BANK ->
  snd (run (unpack_vlp this pkt) pc)
    = snd (for_count (Z.to_nat b) 0 (unpack_vlp_block this pkt)
             (F32.of_int 0, F32.zero) pc)
  /\ (calibration_covers this -> 0 <= lasers_per_firing (vlp_spec_ this) ->
      run (unpack_vlp this pkt) pc
      = (Returned minus_one, append_points pc (vlp_points this pkt (Z.to_nat b))))
  /\ (b = 0 -> run (unpack_vlp this pkt) pc = (Returned minus_one, pc))
  /\ F32.ltb minus_one (F32.of_int 0) = true.
Proof.
  intros Hb Hhdr Hbad.
  assert (Hfalse : (UPPER_BANK =? block_header pkt b) = false)
    by (apply Z.eqb_neq; congruence).
  split; [| split; [| split]].
  - unfold BLOCKS_PER_PACKET in Hb. unfold run, unpack_vlp, for_, bind.
    change (Z.to_nat (BLOCKS_PER_PACKET - 0)) with 12%nat.
    replace 12%nat with (Z.to_nat b + S (11 - Z.to_nat b))%nat by lia.
    rewrite for_count_plus. unfold bind at 1.
    destruct (for_count (Z.to_nat b) 0 (unpack_vlp_block this pkt)
                (F32.of_int 0, F32.zero) pc) as [[[last slice] | e] pc'].
    + cbn [for_count]. unfold bind at 1. rewrite Z.add_0_l, Z2Nat.id by lia.
      unfold unpack_vlp_block at 1. rewrite Hfalse. reflexivity.
    + destruct e; reflexivity.
  - intros Hcal Hlpf.
    apply (unpack_vlp_invalid this pkt (vlp_block_points this pkt) pc b Hb Hhdr Hbad).
    apply blocks_append_reference; assumption.
  - intros ->. unfold run, unpack_vlp, for_, bind.
    change (Z.to_nat (BLOCKS_PER_PACKET - 0)) with 12%nat.
    cbn [for_count]. unfold bind at 1. unfold unpack_vlp_block at 1.
    rewrite Hfalse. reflexivity.
  - exact minus_one_negative.
Qed.

Lemma block_rotation_range pkt b : 0 <= block_rotation pkt b <= 65535.
Proof.
  unfold block_rotation, uint16_at, byte_at.
  pose proof (Byte.to_N_bounded
                (nth (Z.to_nat (b * SIZE_BLOCK + 2)) (data pkt) "000"%byte)).
  pose proof (Byte.to_N_bounded
                (nth (Z.to_nat (b * SIZE_BLOCK + 2 + 1)) (data pkt) "000"%byte)).
  lia.
Qed.

(** ** Point timestamps *)

Lemma appends_ret P {A} (a : A) : appends P (ret a).
Proof. intros pc. exists []. rewrite append_points_nil. split; [reflexivity | constructor]. Qed.

Lemma appends_return_ P {A} v : appends P (@return_ A v).
Proof. intros pc. exists []. rewrite append_points_nil. split; [reflexivity | constructor]. Qed.

Lemma appends_at_ P {A} (v : list A) i : appends P (at_ v i).
Proof.
  intros pc. exists []. rewrite append_points_nil. split; [| constructor].
  unfold at_. destruct (i <? 0); [reflexivity |].
  destruct (nth_error v (Z.to_nat i)); reflexivity.
Qed.

Lemma appends_push_back (P : VPoint.t -> Prop) p : P p -> appends P (push_back p).
Proof.
  intros Hp pc. exists [p]. split; [reflexivity | repeat constructor; exact Hp].
Qed.

Lemma appends_bind P {A B} (m : M A) (k : A -> M B) :
  appends P m -> (forall a, appends P (k a)) -> appends P (bind m k).
Proof.
  intros Hm Hk pc. unfold bind. destruct (Hm pc) as [new1 [E1 F1]].
  destruct (m pc) as [[a | e] pc1]; cbn [snd] in *.
  - destruct (Hk a pc1) as [new2 [E2 F2]]. exists (new1 ++ new2).
    rewrite E2, E1, append_points_app. split; [reflexivity | apply Forall_app; split; assumption].
  - exists new1. split; assumption.
Qed.

Lemma appends_for_count P {St} n : forall lo (body : Z -> St -> M St) s,
  (forall i s, lo <= i < lo + Z.of_nat n -> appends P (body i s)) ->
  appends P (for_count n lo body s).
Proof.
  induction n; intros lo body s H.
  - apply appends_ret.
  - cbn [for_count]. apply appends_bind.
    + apply H. lia.
    + intros s'. apply IHn. intros i s0 Hi. apply H. lia.
Qed.

Lemma appends_for_ P {St} lo hi (body : Z -> St -> M St) s :
  (forall i s, lo <= i < hi -> appends P (body i s)) ->
  appends P (for_ lo hi body s).
Proof.
  intros H. unfold for_. apply appends_for_count. intros i s0 Hi. apply H. lia.
Qed.

Lemma snd_run (m : M float) pc : snd (run m pc) = snd (m pc).
Proof. unfold run. destruct (m pc) as [[v | []] pc']; reflexivity. Qed.

Lemma vlp_scan_at_stamp this pkt az b s k corrections p :
  vlp_scan_at this pkt az b s k corrections = Some p ->
  stamped (vlp_stamp this pkt b s) p.
Proof.
  unfold vlp_scan_at, vlp_stamp, stamped.
  destruct (azimuth_in_view _ _); [| discriminate].
  destruct (position _ _ _ _) as [[xc yc] zc].
  destruct (pointInRange _ _); [| discriminate].
  intros H. injection H as <-. cbn. split; reflexivity.
Qed.

Lemma legacy_scan_stamp this pkt i k corrections p :
  legacy_scan this pkt i k corrections = Some p -> stamped (stamp pkt) p.
Proof.
  unfold legacy_scan, stamped.
  destruct (azimuth_in_view _ _); [| discriminate].
  destruct (position _ _ _ _) as [[xc yc] zc].
  destruct (pointInRange _ _); [| discriminate].
  intros H. injection H as <-. cbn. split; reflexivity.
Qed.

(** Whatever the packet, a VLP decode only appends stamped points. *)
Lemma unpack_vlp_appends this pkt :
  appends (vlp_stamped this pkt) (unpack_vlp this pkt).
Proof.
  unfold unpack_vlp. apply appends_bind; [| intros; apply appends_ret].
  apply appends_for_. intros b [last slice] Hb. unfold unpack_vlp_block.
  destruct (negb _); [apply appends_return_ |].
  destruct (block_azimuth_diff pkt b last slice) as [[azd last'] slice'].
  apply appends_bind; [| intros; apply appends_ret].
  unfold vlp_block. apply appends_for_. intros s k Hs.
  apply appends_for_. intros l k' Hl.
  apply appends_bind; [apply appends_at_ |]. intros c.
  apply appends_bind; [| intros; apply appends_ret].
  destruct (vlp_scan this pkt _ azd b s l k' c) as [p |] eqn:E;
    [| apply appends_ret].
  apply appends_push_back. exists b, s. repeat split; try lia.
  - apply (vlp_scan_at_stamp _ _ _ _ _ _ _ _ E).
  - apply (vlp_scan_at_stamp _ _ _ _ _ _ _ _ E).
Qed.

Lemma unpack_legacy_appends this pkt :
  appends (stamped (stamp pkt)) (unpack_legacy this pkt).
Proof.
  unfold unpack_legacy. apply appends_bind; [| intros; apply appends_ret].
  apply appends_for_. intros i [] Hi. unfold unpack_legacy_block.
  apply appends_bind; [| intros; apply appends_ret].
  apply appends_for_. intros j k Hj.
  apply appends_bind; [apply appends_at_ |]. intros c.
  apply appends_bind; [| intros; apply appends_ret].
  destruct (legacy_scan this pkt i k c) as [p |] eqn:E; [| apply appends_ret].
  apply appends_push_back. exact (legacy_scan_stamp _ _ _ _ _ _ E).
Qed.

Lemma appends_weaken (P Q : VPoint.t -> Prop) {A} (m : M A) :
  (forall p, P p -> Q p) -> appends P m -> appends Q m.
Proof.
  intros HPQ Hm pc. destruct (Hm pc) as [new [E F]]. exists new. split; [exact E |].
  eapply Forall_impl; [exact HPQ | exact F].
Qed.

Lemma getVLP32TimingOffsets_not_nil : getVLP32TimingOffsets <> [].
Proof. rewrite getVLP32TimingOffsets_table. cbn [zrange map]. discriminate. Qed.

(** The stamp of a decoder without timing table, and of one with the
    VLP32 table. *)
Lemma vlp_stamp_no_table this pkt b s :
  timing_offsets_ this = [] -> vlp_stamp this pkt b s = stamp pkt.
Proof. intros H. unfold vlp_stamp. rewrite H. reflexivity. Qed.

Lemma vlp_stamp_vlp32 this pkt b s :
  timing_offsets_ this = getVLP32TimingOffsets ->
  0 <= b < 12 -> 0 <= s < 32 ->
  vlp_stamp this pkt b s = Time_plus (stamp pkt) (vlp32_offset b s).
Proof.
  intros H Hb Hs. unfold vlp_stamp, timing_offset. rewrite H.
  rewrite (nth_error_nth _ _ _ (getVLP32TimingOffsets_nth b s Hb Hs)).
  pose proof getVLP32TimingOffsets_not_nil as Hnn.
  destruct getVLP32TimingOffsets; [congruence | reflexivity].
Qed.

Lemma setup_ok this0 calibration device_model :
  initialized calibration = true ->
  fst (setup this0 calibration device_model) = 0.
Proof.
  intros Hinit. unfold setup. rewrite Hinit. cbn [negb].
  destruct (num_lasers calibration =? 16); [reflexivity |].
  destruct (String.eqb _ _); reflexivity.
Qed.

Lemma setup_vlp16 this0 calibration device_model :
  initialized calibration = true ->
  num_lasers calibration = 16 ->
  let this := snd (setup this0 calibration device_model) in
  timing_offsets_ this = [] /\ is_vlp_ this = true /\ vlp_spec_ this = VLP_16_SPEC.
Proof.
  intros Hinit H16. unfold setup. rewrite Hinit. cbn [negb].
  apply Z.eqb_eq in H16. rewrite H16. cbn [snd]. repeat split.
Qed.

Lemma setup_vlp32 this0 calibration :
  initialized calibration = true ->
  num_lasers calibration <> 16 ->
  let this := snd (setup this0 calibration (Some "VLP32"%string)) in
  timing_offsets_ this = getVLP32TimingOffsets
  /\ is_vlp_ this = true /\ vlp_spec_ this = VLP_32_SPEC.
Proof.
  intros Hinit H16. unfold setup. rewrite Hinit. cbn [negb].
  apply Z.eqb_neq in H16. rewrite H16. cbn [deviceModel].
  rewrite String.eqb_refl. cbn [snd]. repeat split.
Qed.

Lemma vlp_stamp_some_table this pkt b s :
  timing_offsets_ this <> [] ->
  vlp_stamp this pkt b s = Time_plus (stamp pkt) (timing_offset this b s).
Proof.
  intros H. unfold vlp_stamp. destruct (timing_offsets_ this); [congruence | reflexivity].
Qed.

(** Whatever the packet, every point a VLP decode appends is the
    decoding of a channel entry of some block [b] in some firing
    sequence [s], and carries the time of that block and firing
    sequence. *)
Lemma unpack_vlp_appends_slots this pkt :
  appends
    (fun p => exists b s,
       0 <= b < BLOCKS_PER_PACKET
       /\ 0 <= s < firing_seqs_per_block (vlp_spec_ this)
       /\ vlp_decoded_at this pkt b s p
       /\ stamped (vlp_stamp this pkt b s) p)
    (unpack_vlp this pkt).
Proof.
  unfold unpack_vlp. apply appends_bind; [| intros; apply appends_ret].
  apply appends_for_. intros b [last slice] Hb. unfold unpack_vlp_block.
  destruct (negb _); [apply appends_return_ |].
  destruct (block_azimuth_diff pkt b last slice) as [[azd last'] slice'].
  apply appends_bind; [| intros; apply appends_ret].
  unfold vlp_block. apply appends_for_. intros s k Hs.
  apply appends_for_. intros l k' Hl.
  apply appends_bind; [apply appends_at_ |]. intros c.
  apply appends_bind; [| intros; apply appends_ret].
  destruct (vlp_scan this pkt _ azd b s l k' c) as [p |] eqn:E;
    [| apply appends_ret].
  apply appends_push_back. exists b, s.
  split; [lia |]. split; [lia |]. split.
  - unfold vlp_scan in E. do 3 eexists. exact E.
  - exact (vlp_scan_at_stamp _ _ _ _ _ _ _ _ E).
Qed.

Lemma map_flat_map {A B C} (f : B -> C) (g : A -> list B) l :
  map f (flat_map g l) = flat_map (fun a => map f (g a)) l.
Proof.
  induction l as [| a l IH]; [reflexivity |].
  cbn [flat_map]. rewrite map_app, IH. reflexivity.
Qed.

Lemma point_time_stamped t p : stamped t p -> point_time p = t.
Proof. intros [Hs Hn]. unfold point_time. rewrite Hs, Hn. destruct t. reflexivity. Qed.

(** With a timing table, the times of the points of blocks [0 .. n-1]
    are the packet time plus the entry of each point's own block and
    firing sequence. *)
Lemma vlp_points_times this pkt n :
  timing_offsets_ this <> [] ->
  map point_time (vlp_points this pkt n) = vlp_times this pkt n.
Proof.
  intros Htab. unfold vlp_points, vlp_block_points, vlp_times.
  rewrite map_flat_map. apply flat_map_ext_in. intros b _.
  rewrite map_flat_map. apply flat_map_ext_in. intros s _.
  rewrite map_flat_map. apply flat_map_ext_in. intros l _.
  destruct (vlp_slot this pkt b s l) as [p |] eqn:E; [| reflexivity].
  cbn [option_list map]. f_equal.
  rewrite <- (vlp_stamp_some_table this pkt b s Htab).
  apply point_time_stamped. unfold vlp_slot in E.
  destruct (nth_error _ _) as [c |]; [| discriminate].
  exact (vlp_scan_at_stamp _ _ _ _ _ _ _ _ E).
Qed.

(** A VLP decode with a covering calibration appends the points of the
    blocks before the first bad header, all twelve when there is none. *)
Lemma unpack_vlp_leading_blocks this pkt pc n :
  calibration_covers this ->
  0 <= lasers_per_firing (vlp_spec_ this) ->
  (n <= 12)%nat ->
  headers_valid pkt (Z.of_nat n) ->
  n = 12%nat \/ block_header pkt (Z.of_nat n) <> UPPER_BANK ->
  snd (run (unpack_vlp this pkt) pc) = append_points pc (vlp_points this pkt n).
Proof.
  intros Hcal Hlpf Hn Hhdr Hlast.
  destruct (Nat.eq_dec n 12) as [-> | Hne].
  - rewrite (unpack_vlp_valid this pkt (vlp_block_points this pkt) pc Hhdr)
      by (apply blocks_append_reference; assumption).
    reflexivity.
  - destruct Hlast as [-> | Hbad]; [congruence |].
    rewrite (unpack_vlp_invalid this pkt (vlp_block_points this pkt) pc (Z.of_nat n))
      by (try assumption; try (unfold BLOCKS_PER_PACKET; lia);
          apply blocks_append_reference; assumption).
    rewrite Nat2Z.id. reflexivity.
Qed.

(** C8: after [setup] with a calibration of 16 lasers the timing table
    is empty and every point a decode call appends carries the packet
    time unchanged; after [setup] with the "VLP32" model and another
    laser count the table is the VLP32 one, not empty, whose entry at
    row [block], column [firing_seq] is what
    [timing_offsets_[block][firing_seq]] reads; every point a decode
    call appends is the decoding of a channel entry of a block in a
    firing sequence and carries the packet time plus the entry of that
    block and firing sequence; and with a calibration that covers the
    lasers, the times of the appended points are, in order, the packet
    time plus the entry at [(b, s)] for every slot [(b, s, l)] of the
    decoded blocks that yields a point. *)
Theorem setup_selects_timing_offsets
    (this0 : RawData) (calibration : Calibration) (device_model : option string) :
  initialized calibration = true ->
  let this := snd (setup this0 calibration device_model) in
  fst (setup this0 calibration device_model) = 0
  /\ (num_lasers calibration = 16 ->
      timing_offsets_ this = []
      /\ forall pkt pc, exists new,
           snd (run (unpackAndAdd this pkt) pc) = append_points pc new
           /\ Forall (fun p => VPoint.time_sec p = sec (stamp pkt)
                               /\ VPoint.time_nsec p = nsec (stamp pkt)) new)
  /\ (num_lasers calibration <> 16 -> device_model = Some "VLP32"%string ->
      timing_offsets_ this = getVLP32TimingOffsets
      /\ timing_offsets_ this <> []
      /\ (forall block firing_seq,
            0 <= block < BLOCKS_PER_PACKET -> 0 <= firing_seq < 32 ->
            nth_error (nth (Z.to_nat block) (timing_offsets_ this) [])
                      (Z.to_nat firing_seq)
            = Some (timing_offset this block firing_seq)
            /\ timing_offset this block firing_seq = vlp32_offset block firing_seq)
      /\ (forall pkt pc, exists new,
            snd (run (unpackAndAdd this pkt) pc) = append_points pc new
            /\ Forall
                 (fun p => exists block firing_seq,
                    0 <= block < BLOCKS_PER_PACKET
                    /\ 0 <= firing_seq < firing_seqs_per_block VLP_32_SPEC
                    /\ vlp_decoded_at this pkt block firing_seq p
                    /\ VPoint.time_sec p
                       = sec (Time_plus (stamp pkt) (timing_offset this block firing_seq))
                    /\ VPoint.time_nsec p
                       = nsec (Time_plus (stamp pkt) (timing_offset this block firing_seq))
                    /\ (firing_seq < 32 ->
                        nth_error (nth (Z.to_nat block) (timing_offsets_ this) [])
                                  (Z.to_nat firing_seq)
                        = Some (timing_offset this block firing_seq)))
                 new)
      /\ (forall pkt pc n,
            calibration_covers this ->
            0 <= lasers_per_firing (vlp_spec_ this) ->
            (n <= 12)%nat ->
            headers_valid pkt (Z.of_nat n) ->
            n = 12%nat \/ block_header pkt (Z.of_nat n) <> UPPER_BANK ->
            snd (run (unpackAndAdd this pkt) pc)
            = append_points pc (vlp_points this pkt n)
            /\ map point_time (vlp_points this pkt n) = vlp_times this pkt n)).
Proof.
  intros Hinit this. split; [apply setup_ok; exact Hinit |]. split.
  - intros H16.
    destruct (setup_vlp16 this0 calibration device_model Hinit H16) as [Htab [Hvlp _]].
    fold this in Htab, Hvlp. clearbody this.
    split; [exact Htab |]. intros pkt pc. rewrite snd_run.
    unfold unpackAndAdd. rewrite Hvlp.
    refine (appends_weaken _ _ _ _ (unpack_vlp_appends this pkt) pc).
    intros p [b [s [_ [_ Hst]]]].
    rewrite (vlp_stamp_no_table this pkt b s Htab) in Hst. exact Hst.
  - intros H16 Hdm. subst device_model.
    destruct (setup_vlp32 this0 calibration Hinit H16) as [Htab [Hvlp Hspec]].
    fold this in Htab, Hvlp, Hspec. clearbody this.
    assert (Hnn : timing_offsets_ this <> [])
      by (rewrite Htab; exact getVLP32TimingOffsets_not_nil).
    assert (Hentry : forall b s, 0 <= b < 12 -> 0 <= s < 32 ->
               nth_error (nth (Z.to_nat b) (timing_offsets_ this) []) (Z.to_nat s)
               = Some (timing_offset this b s)
               /\ timing_offset this b s = vlp32_offset b s).
    { intros b s Hb Hs. unfold timing_offset. rewrite Htab.
      rewrite (getVLP32TimingOffsets_nth b s) by lia.
      rewrite (nth_error_nth _ _ _ (getVLP32TimingOffsets_nth b s ltac:(lia) ltac:(lia))).
      split; reflexivity. }
    split; [exact Htab |]. split; [exact Hnn |].
    split; [exact Hentry |]. split.
    + intros pkt pc. rewrite snd_run. unfold unpackAndAdd. rewrite Hvlp.
      refine (appends_weaken _ _ _ _ (unpack_vlp_appends_slots this pkt) pc).
      intros p [b [s [Hb [Hs [Hdec Hst]]]]]. rewrite Hspec in Hs.
      rewrite (vlp_stamp_some_table this pkt b s Hnn) in Hst.
      destruct Hst as [Hsec Hnsec].
      exists b, s. split; [exact Hb |]. split; [exact Hs |].
      split; [exact Hdec |]. split; [exact Hsec |]. split; [exact Hnsec |].
      intros Hs32. unfold BLOCKS_PER_PACKET in Hb.
      apply (Hentry b s); lia.
    + intros pkt pc n Hcal Hlpf Hn Hhdr Hlast. unfold unpackAndAdd. rewrite Hvlp.
      split.
      * apply unpack_vlp_leading_blocks; assumption.
      * apply vlp_points_times. exact Hnn.
Qed.

(** ** Rotation table lookups *)

Lemma in_table_iff i : in_table i = true <-> 0 <= i < 36000.
Proof.
  unfold in_table, ROTATION_MAX_UNITS. rewrite andb_true_iff, Z.leb_le, Z.ltb_lt. lia.
Qed.

Lemma azimuth_corrected_range spec az azd s l :
  - 36000 < azimuth_corrected spec az azd s l < 36000.
Proof.
  unfold azimuth_corrected.
  pose proof (Z.rem_bound_abs (IEEE.round_to_int (azimuth_corrected_f spec az azd s l))
                36000 ltac:(lia)).
  lia.
Qed.

Lemma azimuth_corrected_in_table spec az azd s l :
  in_table (azimuth_corrected spec az azd s l) = true
  <-> 0 <= IEEE.round_to_int (azimuth_corrected_f spec az azd s l)
      \/ azimuth_corrected spec az azd s l = 0.
Proof.
  rewrite in_table_iff. unfold azimuth_corrected.
  set (r := IEEE.round_to_int (azimuth_corrected_f spec az azd s l)).
  pose proof (Z.rem_bound_abs r 36000 ltac:(lia)) as Habs.
  destruct (Z_lt_le_dec r 0) as [Hneg | Hpos].
  - pose proof (Z.rem_nonpos r 36000 ltac:(lia) ltac:(lia)). lia.
  - pose proof (Z.rem_bound_pos r 36000 Hpos ltac:(lia)). lia.
Qed.

(** A loop run with two bodies that agree on the states the loop can
    be in, [Inv i] describing those before iteration [i]. *)
Lemma for_count_ext_inv {St} (Inv : Z -> St -> Prop) n :
  forall lo (body body' : Z -> St -> M St) s pc,
  Inv lo s ->
  (forall i s pc, lo <= i < lo + Z.of_nat n -> Inv i s ->
     body i s pc = body' i s pc
     /\ forall s' pc', body i s pc = (inl s', pc') -> Inv (i + 1) s') ->
  for_count n lo body s pc = for_count n lo body' s pc.
Proof.
  induction n; intros lo body body' s pc Hs H; [reflexivity |].
  cbn [for_count]. unfold bind.
  destruct (H lo s pc ltac:(lia) Hs) as [Heq Hnext]. rewrite <- Heq.
  destruct (body lo s pc) as [[s' | e] pc'] eqn:E; [| reflexivity].
  apply IHn; [apply (Hnext s' pc' eq_refl) |].
  intros i s0 pc0 Hi. apply H. lia.
Qed.

Lemma legacy_scan_tables this this' pkt i k c :
  tables_agree this this' ->
  (azimuth_in_view (config_ this) (block_rotation pkt i) = true ->
   block_rotation pkt i < 36000) ->
  legacy_scan this pkt i k c = legacy_scan this' pkt i k c.
Proof.
  intros (Hcfg & _ & _ & _ & _ & Htab) Hrot.
  unfold legacy_scan, pointInRange. rewrite <- Hcfg.
  destruct (azimuth_in_view (config_ this) (block_rotation pkt i)); [| reflexivity].
  pose proof (block_rotation_range pkt i) as Hr.
  destruct (Htab (block_rotation pkt i)) as [Hsin Hcos];
    [apply in_table_iff; specialize (Hrot eq_refl); lia |].
  rewrite Hsin, Hcos. reflexivity.
Qed.

Lemma vlp_scan_at_tables this this' pkt az b s k c :
  tables_agree this this' ->
  (azimuth_in_view (config_ this) az = true -> in_table az = true) ->
  vlp_scan_at this pkt az b s k c = vlp_scan_at this' pkt az b s k c.
Proof.
  intros (Hcfg & _ & Hspec & Hoff & _ & Htab) Hin.
  unfold vlp_scan_at, pointInRange, timing_offset. rewrite <- Hcfg, <- Hspec, <- Hoff.
  destruct (azimuth_in_view (config_ this) az); [| reflexivity].
  destruct (Htab az (Hin eq_refl)) as [Hsin Hcos].
  rewrite Hsin, Hcos. reflexivity.
Qed.

(** A legacy decode reads the tables inside their index range only,
    when the rotations in view are below 36000. *)
Lemma unpack_legacy_tables this this' pkt pc :
  tables_agree this this' ->
  legacy_rotations_in_table this pkt ->
  unpack_legacy this pkt pc = unpack_legacy this' pkt pc.
Proof.
  intros Hag Hrot. pose proof Hag as (_ & Hcal & _).
  unfold unpack_legacy, bind, for_.
  rewrite (for_count_ext _ 0 (unpack_legacy_block this pkt) (unpack_legacy_block this' pkt));
    [reflexivity |].
  intros i [] pc0 Hi. unfold unpack_legacy_block, bind, for_.
  rewrite (for_count_ext _ 0 _
             (fun j k =>
                bind (at_ (laser_corrections (calibration_ this'))
                        ((j + (if block_header pkt i =? LOWER_BANK then 32 else 0)) mod 256))
                  (fun corrections =>
                     bind (match legacy_scan this' pkt i k corrections with
                           | Some point => push_back point
                           | None => ret tt
                           end)
                          (fun _ => ret (k + RAW_SCAN_SIZE))))); [reflexivity |].
  intros j k pc1 Hj. rewrite <- Hcal. unfold bind.
  destruct (at_ (laser_corrections (calibration_ this)) _ pc1) as [[c | e] pc2];
    [| reflexivity].
  rewrite (legacy_scan_tables this this' pkt i k c Hag); [reflexivity |].
  apply Hrot. change (Z.to_nat (BLOCKS_PER_PACKET - 0)) with 12%nat in Hi.
  unfold BLOCKS_PER_PACKET. lia.
Qed.

Lemma vlp_block_tables this this' pkt b pc :
  tables_agree this this' ->
  vlp_azimuths_nonnegative this pkt ->
  0 <= b < BLOCKS_PER_PACKET ->
  vlp_block this pkt (F32.of_int (block_rotation pkt b)) (F32.of_int (block_diff pkt b)) b pc
  = vlp_block this' pkt (F32.of_int (block_rotation pkt b))
      (F32.of_int (block_diff pkt b)) b pc.
Proof.
  intros Hag Hnn Hb. pose proof Hag as (_ & Hcal & Hspec & _).
  unfold vlp_block, for_. rewrite <- Hspec.
  apply for_count_ext. intros s k pc0 Hs.
  apply for_count_ext. intros l k' pc1 Hl.
  rewrite <- Hcal. unfold bind.
  destruct (at_ (laser_corrections (calibration_ this)) l pc1) as [[c | e] pc2];
    [| reflexivity].
  unfold vlp_scan. rewrite <- Hspec.
  rewrite (vlp_scan_at_tables this this' pkt _ b s k' c Hag); [reflexivity |].
  intros Hview. apply azimuth_corrected_in_table. left.
  apply (Hnn b s l Hb); [lia | lia |]. exact Hview.
Qed.

(** A VLP decode reads the tables inside their index range only, when
    the rounded azimuths in view are not negative. *)
Lemma unpack_vlp_tables this this' pkt pc :
  tables_agree this this' ->
  vlp_azimuths_nonnegative this pkt ->
  unpack_vlp this pkt pc = unpack_vlp this' pkt pc.
Proof.
  intros Hag Hnn. unfold unpack_vlp, bind, for_.
  change (Z.to_nat (BLOCKS_PER_PACKET - 0)) with 12%nat.
  rewrite (for_count_ext_inv
             (fun i running => 0 <= i /\ fst running = F32.of_int (last_diff pkt (Z.to_nat i)))
             12 0 (unpack_vlp_block this pkt) (unpack_vlp_block this' pkt));
    [reflexivity | split; [lia | reflexivity] |].
  intros i [last slice] pc0 Hi [_ Hlast]. cbn [fst] in Hlast. subst last.
  unfold unpack_vlp_block.
  destruct (negb (UPPER_BANK =? block_header pkt i)); [split; [reflexivity | discriminate] |].
  assert (Hazd : block_azimuth_diff pkt i (F32.of_int (last_diff pkt (Z.to_nat i))) slice
                 = (F32.of_int (block_diff pkt i),
                    F32.of_int (last_diff pkt (S (Z.to_nat i))),
                    snd (block_azimuth_diff pkt i
                           (F32.of_int (last_diff pkt (Z.to_nat i))) slice))).
  { unfold block_azimuth_diff, block_diff. cbn [last_diff]. rewrite Z2Nat.id by lia.
    unfold block_diff. destruct (i <? BLOCKS_PER_PACKET - 1) eqn:E; cbn [snd]; [reflexivity |].
    apply Z.ltb_ge in E. unfold BLOCKS_PER_PACKET in E.
    assert (i = 11) as -> by lia. reflexivity. }
  rewrite Hazd. unfold bind.
  rewrite (vlp_block_tables this this' pkt i pc0 Hag Hnn)
    by (unfold BLOCKS_PER_PACKET; lia).
  split; [reflexivity |].
  intros s' pc'.
  destruct (vlp_block this' pkt _ _ i pc0) as [[k | e] pc1]; [| discriminate].
  unfold ret. intros H. injection H as <- _. cbn [fst].
  split; [lia |]. rewrite Z2Nat.inj_add by lia. rewrite Nat.add_1_r. reflexivity.
Qed.

(** C10 (as amended): the VLP table index is the C++ remainder by 36000
    of the rounded interpolated azimuth, so it lies strictly between
    -36000 and 36000 and is inside the tables as soon as that rounded
    azimuth is not negative; a VLP decode whose azimuths in view are
    not negative reads nothing outside the tables.  The legacy index is
    the raw rotation, between 0 and 65535, inside the tables exactly
    when it is below 36000; a legacy decode whose rotations in view are
    below 36000 reads nothing outside the tables. *)
Theorem rotation_table_lookups
    (this this' : RawData) (pkt : VelodynePacket) (pc : VPointCloud) :
  tables_agree this this' ->
  (forall spec az azd s l,
     - 36000 < azimuth_corrected spec az azd s l < 36000
     /\ (0 <= IEEE.round_to_int (azimuth_corrected_f spec az azd s l) ->
         in_table (azimuth_corrected spec az azd s l) = true))
  /\ (vlp_azimuths_nonnegative this pkt ->
      unpack_vlp this pkt pc = unpack_vlp this' pkt pc)
  /\ (forall i,
        0 <= block_rotation pkt i <= 65535
        /\ (in_table (block_rotation pkt i) = true <-> block_rotation pkt i < 36000))
  /\ (legacy_rotations_in_table this pkt ->
      unpack_legacy this pkt pc = unpack_legacy this' pkt pc).
Proof.
  intros Hag. split; [| split; [| split]].
  - intros spec az azd s l. split; [apply azimuth_corrected_range |].
    intros H. apply azimuth_corrected_in_table. left. exact H.
  - intros Hnn. apply unpack_vlp_tables; assumption.
  - intros i. pose proof (block_rotation_range pkt i). split; [assumption |].
    rewrite in_table_iff. lia.
  - intros Hrot. apply unpack_legacy_tables; assumption.
Qed.

Lemma forallb_zrange (f : Z -> bool) n lo i :
  forallb f (zrange n lo) = true -> lo <= i < lo + Z.of_nat n -> f i = true.
Proof.
  intros H Hi. rewrite forallb_forall in H. apply H. apply zrange_In. exact Hi.
Qed.

Lemma vlp_azimuths_nonnegativeb_sound this pkt :
  vlp_azimuths_nonnegativeb this pkt = true -> vlp_azimuths_nonnegative this pkt.
Proof.
  intros H b s l Hb Hs Hl Hview. unfold vlp_azimuths_nonnegativeb in H.
  apply (forallb_zrange _ _ _ b) in H; [| unfold BLOCKS_PER_PACKET in *; lia].
  apply (forallb_zrange _ _ _ s) in H; [| lia].
  apply (forallb_zrange _ _ _ l) in H; [| lia].
  cbv beta in H. rewrite Hview in H. cbn [implb] in H. apply Z.leb_le. exact H.
Qed.

(** ** Intensity *)

(** In [unpack_vlp] the distance word does not reach the intensity
    unless it is 65535. *)
Lemma vlp_intensity_below_full_scale corrections tmp_uint raw_intensity :
  0 <= tmp_uint < 65535 ->
  vlp_intensity corrections tmp_uint raw_intensity
  = clamp_intensity corrections
      (F32.add (F32.of_int raw_intensity)
         (F32.mul (focal_slope corrections)
            (F32.abs (F32.sub (focal_offset corrections) (F32.of_int 256))))).
Proof.
  intros H. unfold vlp_intensity. rewrite Z.quot_small by lia. reflexivity.
Qed.

Lemma vlp_scan_at_intensity this pkt az b s k corrections p :
  vlp_scan_at this pkt az b s k corrections = Some p ->
  VPoint.intensity p
  = vlp_intensity corrections (block_uint pkt b k) (block_data pkt b (k + 2)).
Proof.
  unfold vlp_scan_at.
  destruct (azimuth_in_view _ _); [| discriminate].
  destruct (position _ _ _ _) as [[xc yc] zc].
  destruct (pointInRange _ _); [| discriminate].
  intros H. injection H as <-. reflexivity.
Qed.

Lemma legacy_scan_intensity this pkt i k corrections p :
  legacy_scan this pkt i k corrections = Some p ->
  VPoint.intensity p
  = legacy_intensity corrections (block_uint pkt i k) (block_data pkt i (k + 2)).
Proof.
  unfold legacy_scan.
  destruct (azimuth_in_view _ _); [| discriminate].
  destruct (position _ _ _ _) as [[xc yc] zc].
  destruct (pointInRange _ _); [| discriminate].
  intros H. injection H as <-. reflexivity.
Qed.

(** ** Two-point correction with equal reference corrections *)

Lemma F32_format : 0 < F32.prec /\ F32.prec < F32.emax.
Proof. unfold F32.prec, F32.emax. lia. Qed.

Lemma F64_format : 0 < F64.prec /\ F64.prec < F64.emax.
Proof. unfold F64.prec, F64.emax. lia. Qed.

Lemma mul_in_format x y : in_format F32.prec F32.emax (F32.mul x y).
Proof.
  destruct F32_format as [H1 H2].
  destruct x as [sx | sx | | sx mx ex], y as [sy | sy | | sy my ey];
    cbn [F32.mul SFmul in_format]; unfold F32.mul; cbn [SFmul]; try exact I.
  apply binary_round_aux_format; assumption.
Qed.

Lemma binary_normalize_in_format z e sz :
  in_format F32.prec F32.emax (binary_normalize F32.prec F32.emax z e sz).
Proof.
  destruct F32_format as [H1 H2].
  destruct z; cbn [binary_normalize]; [exact I | |]; unfold binary_round;
    destruct (shl_align _ _ _); apply binary_round_aux_format; assumption.
Qed.

Lemma sub_in_format x y :
  in_format F32.prec F32.emax x -> in_format F32.prec F32.emax y ->
  in_format F32.prec F32.emax (F32.sub x y).
Proof.
  intros Hx Hy. unfold F32.sub.
  destruct x as [sx | sx | | sx mx ex], y as [sy | sy | | sy my ey];
    cbn [SFsub in_format]; try exact I; try assumption.
  - destruct sx, sy; exact I.
  - destruct sx, sy; exact I.
  - apply binary_normalize_in_format.
Qed.

Lemma add_in_format x y :
  in_format F32.prec F32.emax x -> in_format F32.prec F32.emax y ->
  in_format F32.prec F32.emax (F32.add x y).
Proof.
  intros Hx Hy. unfold F32.add.
  destruct x as [sx | sx | | sx mx ex], y as [sy | sy | | sy my ey];
    cbn [SFadd in_format]; try exact I; try assumption.
  - destruct sx, sy; exact I.
  - destruct sx, sy; exact I.
  - apply binary_normalize_in_format.
Qed.

Lemma neg_in_format x :
  in_format F32.prec F32.emax x -> in_format F32.prec F32.emax (F32.neg x).
Proof. destruct x; cbn; trivial. Qed.

(** A [float] converted to [double]: exact, of the same magnitude. *)
Lemma of_float_finite s m e :
  in_format F32.prec F32.emax (S754_finite s m e) ->
  exists m' e',
    F64.of_float (S754_finite s m e) = S754_finite s m' e'
    /\ Zpos (digits2_pos m') + e' = Zpos (digits2_pos m) + e.
Proof.
  destruct F64_format as [H1 H2].
  cbn [in_format]. unfold F32.prec, F32.emax, emin. intros [HD He].
  unfold F64.of_float, IEEE.convert.
  pose proof (binary_round_shl F64.prec F64.emax H1 H2 s m e) as H. cbv zeta in H.
  assert (Hle : fexp F64.prec F64.emax (Zpos (digits2_pos m) + e) <= e)
    by (unfold fexp, emin, F64.prec, F64.emax; lia).
  rewrite H; [| exact Hle | unfold F64.prec, F64.emax in *; lia].
  eexists _, _. split; [reflexivity |].
  rewrite (digits2_shl F64.prec F64.emax H1 H2) by lia. lia.
Qed.

Lemma of_float_below x :
  in_format F32.prec F32.emax x -> IEEE.is_finite x = true ->
  below 128 (F64.of_float x).
Proof.
  intros Hx Hfin. destruct x as [s | s | | s m e]; try discriminate; [exact I |].
  destruct (of_float_finite s m e Hx) as (m' & e' & -> & Hd).
  cbn [below in_format] in *. unfold F32.prec, F32.emax in Hx. lia.
Qed.

(** [float] to [double] and back. *)
Lemma of_double_of_float x :
  F32.valid x = true -> IEEE.is_finite x = true ->
  F32.of_double (F64.of_float x) = x.
Proof.
  intros Hv Hfin. destruct x as [s | s | | s m e]; try discriminate; [reflexivity |].
  destruct F32_format as [H1 H2]. destruct F64_format as [H3 H4].
  unfold F32.valid, valid_binary, bounded in Hv. apply andb_true_iff in Hv.
  destruct Hv as [Hc He]. apply Z.leb_le in He.
  pose proof Hc as Hc'. unfold canonical_mantissa in Hc'. apply Z.eqb_eq in Hc'.
  unfold F64.of_float, IEEE.convert.
  pose proof (binary_round_shl F64.prec F64.emax H3 H4 s m e) as H. cbv zeta in H.
  assert (HD : 1 <= Zpos (digits2_pos m)) by lia.
  assert (Hle : fexp F64.prec F64.emax (Zpos (digits2_pos m) + e) <= e).
  { revert Hc'. unfold fexp, emin, F64.prec, F64.emax, F32.prec, F32.emax. lia. }
  rewrite H; [| exact Hle | unfold F64.prec, F64.emax, F32.prec, F32.emax in *; lia].
  unfold F32.of_double, IEEE.convert.
  set (k := e - fexp F64.prec F64.emax (Zpos (digits2_pos m) + e)).
  replace (fexp F64.prec F64.emax (Zpos (digits2_pos m) + e)) with (e - k) by (subst k; lia).
  apply (binary_round_shr F32.prec F32.emax H1 H2); [subst k; lia | exact Hc | exact He].
Qed.

(** The interpolated correction is +0 when both reference corrections
    equal the base correction and nothing is infinite. *)
Lemma interpolation_zero dc v near den :
  IEEE.is_finite dc = true -> F32.valid dc = true ->
  in_format F32.prec F32.emax v -> IEEE.is_finite v = true ->
  below 128 near ->
  (exists sd md ed, den = S754_finite sd md ed) ->
  F32.sub
    (F32.of_double
       (F64.add
          (F64.div (F64.mul (F64.of_float (F32.sub dc dc))
                            (F64.sub (F64.of_float v) near))
                   den)
          (F64.of_float dc)))
    dc
  = S754_zero false.
Proof.
  intros Hfin Hval Hv Hvfin Hnear (sd & md & ed & ->).
  destruct F32_format as [H1 H2]. destruct F64_format as [H3 H4].
  assert (Hsub : F32.sub dc dc = S754_zero false).
  { destruct dc as [s | s | | s m e]; try discriminate.
    - destruct s; reflexivity.
    - apply (sub_self F32.prec F32.emax H1 H2). }
  rewrite Hsub. change (F64.of_float (S754_zero false)) with (S754_zero false).
  assert (Ht : IEEE.is_finite (F64.sub (F64.of_float v) near) = true).
  { apply (sub_below_finite F64.prec F64.emax H3 H4 128);
      [apply of_float_below; assumption | exact Hnear | unfold F64.emax; lia]. }
  destruct (F64.sub (F64.of_float v) near) as [s2 | s2 | | s2 m2 e2]; try discriminate.
  - unfold F64.mul, F64.div, F64.add. cbn [SFmul SFdiv].
    destruct dc as [s | s | | s m e]; try discriminate.
    + change (F64.of_float (S754_zero s)) with (S754_zero s).
      destruct s2, sd, s; reflexivity.
    + assert (Hdc := of_double_of_float _ Hval Hfin).
      destruct (of_float_finite s m e) as (m' & e' & Hf & _).
      { cbn [in_format]. unfold F32.valid, valid_binary, bounded in Hval.
        apply andb_true_iff in Hval. destruct Hval as [Hc He].
        apply Z.leb_le in He. unfold canonical_mantissa in Hc. apply Z.eqb_eq in Hc.
        revert Hc. unfold fexp. lia. }
      rewrite Hf in *. cbn [SFadd]. rewrite Hdc. exact Hsub.
  - unfold F64.mul, F64.div, F64.add. cbn [SFmul SFdiv].
    destruct dc as [s | s | | s m e]; try discriminate.
    + change (F64.of_float (S754_zero s)) with (S754_zero s).
      destruct s2, sd, s; reflexivity.
    + assert (Hdc := of_double_of_float _ Hval Hfin).
      destruct (of_float_finite s m e) as (m' & e' & Hf & _).
      { cbn [in_format]. unfold F32.valid, valid_binary, bounded in Hval.
        apply andb_true_iff in Hval. destruct Hval as [Hc He].
        apply Z.leb_le in He. unfold canonical_mantissa in Hc. apply Z.eqb_eq in Hc.
        revert Hc. unfold fexp. lia. }
      rewrite Hf in *. cbn [SFadd]. rewrite Hdc. exact Hsub.
Qed.

Lemma provisional_xy_in_format corrections distance ct st :
  in_format F32.prec F32.emax (fst (provisional_xy corrections distance ct st))
  /\ in_format F32.prec F32.emax (snd (provisional_xy corrections distance ct st)).
Proof.
  unfold provisional_xy. cbv zeta. cbn [fst snd]. split.
  - match goal with
    | |- in_format _ _ (if _ then F32.neg ?x else _) =>
        assert (Hx : in_format F32.prec F32.emax x)
          by (apply sub_in_format; apply mul_in_format)
    end.
    destruct (F32.ltb _ _); [apply neg_in_format |]; exact Hx.
  - match goal with
    | |- in_format _ _ (if _ then F32.neg ?x else _) =>
        assert (Hx : in_format F32.prec F32.emax x)
          by (apply add_in_format; apply mul_in_format)
    end.
    destruct (F32.ltb _ _); [apply neg_in_format |]; exact Hx.
Qed.

Lemma decimal_24_below : below 128 (F64.decimal 24 1).
Proof. vm_compute. discriminate. Qed.

Lemma decimal_193_below : below 128 (F64.decimal 193 2).
Proof. vm_compute. discriminate. Qed.

Lemma x_interval_finite :
  exists sd md ed,
    F64.sub (F64.decimal 2504 2) (F64.decimal 24 1) = S754_finite sd md ed.
Proof. vm_compute. eauto. Qed.

Lemma y_interval_finite :
  exists sd md ed,
    F64.sub (F64.decimal 2504 2) (F64.decimal 193 2) = S754_finite sd md ed.
Proof. vm_compute. eauto. Qed.

(** The position of a return is the same without two-point correction
    and with a two-point correction whose reference corrections equal
    the base correction, when nothing in the interpolation is infinite. *)
Lemma position_zero_delta corrections distance ct st :
  two_pt_correction_available corrections = false ->
  two_pt_finite corrections distance ct st = true ->
  position (zero_delta corrections) distance ct st
  = position corrections distance ct st.
Proof.
  intros Hflag Hfin. unfold two_pt_finite in Hfin.
  apply andb_true_iff in Hfin. destruct Hfin as [Hfin Hyy].
  apply andb_true_iff in Hfin. destruct Hfin as [Hfin Hxx].
  apply andb_true_iff in Hfin. destruct Hfin as [Hdc Hval].
  destruct (provisional_xy_in_format corrections distance ct st) as [Fxx Fyy].
  unfold provisional_xy in Hxx, Hyy, Fxx, Fyy. cbv zeta in Hxx, Hyy, Fxx, Fyy.
  cbn [fst snd] in Hxx, Hyy, Fxx, Fyy.
  unfold position. rewrite Hflag. cbv zeta.
  cbn [zero_delta dist_correction two_pt_correction_available dist_correction_x
       dist_correction_y vert_offset_correction horiz_offset_correction
       cos_rot_correction sin_rot_correction cos_vert_correction sin_vert_correction].
  rewrite (interpolation_zero _ _ _ _ Hdc Hval Fxx Hxx decimal_24_below x_interval_finite).
  rewrite (interpolation_zero _ _ _ _ Hdc Hval Fyy Hyy decimal_193_below y_interval_finite).
  reflexivity.
Qed.

Lemma vlp_intensity_zero_delta c u raw :
  vlp_intensity (zero_delta c) u raw = vlp_intensity c u raw.
Proof. reflexivity. Qed.

Lemma legacy_intensity_zero_delta c u raw :
  legacy_intensity (zero_delta c) u raw = legacy_intensity c u raw.
Proof. reflexivity. Qed.

Lemma legacy_scan_zero_delta this1 this2 pkt i k c1 c2 :
  zero_delta_variant this1 this2 ->
  is_vlp_ this1 = false ->
  two_pt_inputs_finite this1 pkt ->
  In c1 (laser_corrections (calibration_ this1)) ->
  two_pt_equiv c1 c2 ->
  legacy_scan this1 pkt i k c1 = legacy_scan this2 pkt i k c2.
Proof.
  intros (Hcfg & _ & _ & _ & Hsin & Hcos & _) Hvlp Hfin Hin Heq.
  unfold legacy_scan, pointInRange. rewrite <- Hcfg, <- Hsin, <- Hcos.
  destruct Heq as [<- | [Hflag ->]]; [reflexivity |].
  destruct (azimuth_in_view (config_ this1) (block_rotation pkt i)) eqn:Hview;
    [| reflexivity].
  rewrite legacy_intensity_zero_delta.
  cbn [zero_delta dist_correction laser_ring].
  rewrite position_zero_delta; [reflexivity | exact Hflag |].
  specialize (Hfin c1 i k (block_rotation pkt i) Hin Hflag Hview).
  unfold resolution in Hfin. rewrite Hvlp in Hfin. exact Hfin.
Qed.

Lemma vlp_scan_at_zero_delta this1 this2 pkt az b s k c1 c2 :
  zero_delta_variant this1 this2 ->
  is_vlp_ this1 = true ->
  two_pt_inputs_finite this1 pkt ->
  In c1 (laser_corrections (calibration_ this1)) ->
  two_pt_equiv c1 c2 ->
  vlp_scan_at this1 pkt az b s k c1 = vlp_scan_at this2 pkt az b s k c2.
Proof.
  intros (Hcfg & Hspec & Hoff & _ & Hsin & Hcos & _) Hvlp Hfin Hin Heq.
  unfold vlp_scan_at, pointInRange, timing_offset.
  rewrite <- Hcfg, <- Hspec, <- Hoff, <- Hsin, <- Hcos.
  destruct Heq as [<- | [Hflag ->]]; [reflexivity |].
  destruct (azimuth_in_view (config_ this1) az) eqn:Hview; [| reflexivity].
  rewrite vlp_intensity_zero_delta.
  cbn [zero_delta dist_correction laser_ring].
  rewrite position_zero_delta; [reflexivity | exact Hflag |].
  specialize (Hfin c1 b k az Hin Hflag Hview).
  unfold resolution in Hfin. rewrite Hvlp in Hfin. exact Hfin.
Qed.

(** [v.at(i)] on two vectors related entry by entry. *)
Lemma at_Forall2 {A} (R : A -> A -> Prop) (v1 v2 : list A) i pc :
  Forall2 R v1 v2 ->
  (exists a1 a2, at_ v1 i pc = (inl a1, pc) /\ at_ v2 i pc = (inl a2, pc)
                 /\ R a1 a2 /\ In a1 v1)
  \/ (at_ v1 i pc = (inr OutOfRange, pc) /\ at_ v2 i pc = (inr OutOfRange, pc)).
Proof.
  intros HR. unfold at_. destruct (i <? 0); [right; split; reflexivity |].
  revert HR. generalize (Z.to_nat i). intros n. revert v1 v2.
  induction n; intros v1 v2 HR; destruct HR as [| a1 a2 t1 t2 Ha Ht]; cbn [nth_error].
  - right. split; reflexivity.
  - left. exists a1, a2. repeat split; [exact Ha | left; reflexivity].
  - right. split; reflexivity.
  - destruct (IHn t1 t2 Ht) as [(b1 & b2 & E1 & E2 & Hb & Hin) | [E1 E2]].
    + left. exists b1, b2. rewrite E1, E2. repeat split; [exact Hb | right; exact Hin].
    + right. rewrite E1, E2. split; reflexivity.
Qed.

Lemma unpack_legacy_zero_delta this1 this2 pkt pc :
  zero_delta_variant this1 this2 ->
  is_vlp_ this1 = false ->
  two_pt_inputs_finite this1 pkt ->
  unpack_legacy this1 pkt pc = unpack_legacy this2 pkt pc.
Proof.
  intros Hvar Hvlp Hfin. pose proof Hvar as (_ & _ & _ & _ & _ & _ & Hcal).
  unfold unpack_legacy, bind, for_.
  rewrite (for_count_ext _ 0 (unpack_legacy_block this1 pkt) (unpack_legacy_block this2 pkt));
    [reflexivity |].
  intros i [] pc0 Hi. unfold unpack_legacy_block, bind, for_.
  rewrite (for_count_ext _ 0 _
             (fun j k =>
                bind (at_ (laser_corrections (calibration_ this2))
                        ((j + (if block_header pkt i =? LOWER_BANK then 32 else 0)) mod 256))
                  (fun corrections =>
                     bind (match legacy_scan this2 pkt i k corrections with
                           | Some point => push_back point
                           | None => ret tt
                           end)
                          (fun _ => ret (k + RAW_SCAN_SIZE))))); [reflexivity |].
  intros j k pc1 Hj. unfold bind.
  destruct (at_Forall2 _ _ _
              ((j + (if block_header pkt i =? LOWER_BANK then 32 else 0)) mod 256) pc1 Hcal)
    as [(c1 & c2 & E1 & E2 & Hc & Hin) | [E1 E2]]; rewrite E1, E2; [| reflexivity].
  rewrite (legacy_scan_zero_delta this1 this2 pkt i k c1 c2 Hvar Hvlp Hfin Hin Hc).
  reflexivity.
Qed.

Lemma unpack_vlp_zero_delta this1 this2 pkt pc :
  zero_delta_variant this1 this2 ->
  is_vlp_ this1 = true ->
  two_pt_inputs_finite this1 pkt ->
  unpack_vlp this1 pkt pc = unpack_vlp this2 pkt pc.
Proof.
  intros Hvar Hvlp Hfin. pose proof Hvar as (_ & Hspec & _ & _ & _ & _ & Hcal).
  unfold unpack_vlp, bind, for_.
  rewrite (for_count_ext _ 0 (unpack_vlp_block this1 pkt) (unpack_vlp_block this2 pkt));
    [reflexivity |].
  intros b [last slice] pc0 Hb. unfold unpack_vlp_block.
  destruct (negb (UPPER_BANK =? block_header pkt b)); [reflexivity |].
  destruct (block_azimuth_diff pkt b last slice) as [[azd last'] slice'].
  unfold bind.
  assert (Hblock : forall az, vlp_block this1 pkt az azd b pc0 = vlp_block this2 pkt az azd b pc0).
  { intros az. unfold vlp_block, for_. rewrite <- Hspec.
    apply for_count_ext. intros s k pc1 Hs.
    apply for_count_ext. intros l k' pc2 Hl. unfold bind.
    destruct (at_Forall2 _ _ _ l pc2 Hcal)
      as [(c1 & c2 & E1 & E2 & Hc & Hin) | [E1 E2]]; rewrite E1, E2; [| reflexivity].
    unfold vlp_scan. rewrite <- Hspec.
    rewrite (vlp_scan_at_zero_delta this1 this2 pkt _ b s k' c1 c2 Hvar Hvlp Hfin Hin Hc).
    reflexivity. }
  rewrite Hblock. reflexivity.
Qed.

(** C9 (as amended): a decoder whose calibration entries have the
    two-point correction off and a decoder in which some of them have
    it on with [dist_correction_x] and [dist_correction_y] equal to
    [dist_correction] decode every packet to the same points and
    return value, in both paths, provided nothing infinite reaches the
    interpolation: the base correction and the provisional [xx], [yy]
    of the packet's returns are finite. *)
Theorem two_pt_zero_delta_same_cloud
    (this1 this2 : RawData) (pkt : VelodynePacket) (pc : VPointCloud) :
  zero_delta_variant this1 this2 ->
  two_pt_inputs_finite this1 pkt ->
  run (unpackAndAdd this1 pkt) pc = run (unpackAndAdd this2 pkt) pc.
Proof.
  intros Hvar Hfin. pose proof Hvar as (_ & _ & _ & Hvlp & _).
  unfold run, unpackAndAdd. rewrite <- Hvlp.
  destruct (is_vlp_ this1) eqn:E.
  - rewrite (unpack_vlp_zero_delta this1 this2 pkt pc Hvar E Hfin). reflexivity.
  - rewrite (unpack_legacy_zero_delta this1 this2 pkt pc Hvar E Hfin). reflexivity.
Qed.

Lemma block_uint_range pkt b k : 0 <= block_uint pkt b k <= 65535.
Proof.
  unfold block_uint, block_data, byte_at.
  pose proof (Byte.to_N_bounded
                (nth (Z.to_nat (b * SIZE_BLOCK + 4 + k)) (data pkt) "000"%byte)).
  pose proof (Byte.to_N_bounded
                (nth (Z.to_nat (b * SIZE_BLOCK + 4 + (k + 1))) (data pkt) "000"%byte)).
  lia.
Qed.

(** ** Decode calls and the caller's cloud *)

Lemma emits_le n n' {A} (m : M A) : (n <= n')%nat -> emits n m -> emits n' m.
Proof.
  intros Hle [r [new [Hlen H]]]. exists r, new. split; [lia | exact H].
Qed.

Lemma emits_ret {A} (a : A) : emits 0 (ret a).
Proof.
  exists (inl a), []. split; [reflexivity |]. intros pc.
  rewrite append_points_nil. reflexivity.
Qed.

Lemma emits_return_ {A} v : emits 0 (@return_ A v).
Proof.
  exists (inr (Return v)), []. split; [reflexivity |]. intros pc.
  rewrite append_points_nil. reflexivity.
Qed.

Lemma emits_throw {A} : emits 0 (@throw_out_of_range A).
Proof.
  exists (inr OutOfRange), []. split; [reflexivity |]. intros pc.
  rewrite append_points_nil. reflexivity.
Qed.

Lemma emits_at_ {A} (v : list A) i : emits 0 (at_ v i).
Proof.
  unfold at_. destruct (i <? 0); [apply emits_throw |].
  destruct (nth_error v (Z.to_nat i)); [apply emits_ret | apply emits_throw].
Qed.

Lemma emits_push_back p : emits 1 (push_back p).
Proof. exists (inl tt), [p]. split; [reflexivity |]. intros pc. reflexivity. Qed.

Lemma emits_bind n1 n2 {A B} (m : M A) (k : A -> M B) :
  emits n1 m -> (forall a, emits n2 (k a)) -> emits (n1 + n2) (bind m k).
Proof.
  intros [r [new1 [Hlen1 H1]]] Hk. destruct r as [a | e].
  - destruct (Hk a) as [r2 [new2 [Hlen2 H2]]]. exists r2, (new1 ++ new2).
    split; [rewrite length_app; lia |]. intros pc. unfold bind.
    rewrite H1, H2, append_points_app. reflexivity.
  - exists (inr e), new1. split; [lia |]. intros pc. unfold bind.
    rewrite H1. reflexivity.
Qed.

Lemma emits_for_count c {St} n : forall lo (body : Z -> St -> M St) s,
  (forall i s, lo <= i < lo + Z.of_nat n -> emits c (body i s)) ->
  emits (n * c) (for_count n lo body s).
Proof.
  induction n; intros lo body s H.
  - apply emits_ret.
  - cbn [for_count]. replace (S n * c)%nat with (c + n * c)%nat by lia.
    apply emits_bind.
    + apply H. lia.
    + intros s'. apply IHn. intros i s0 Hi. apply H. lia.
Qed.

Lemma emits_for_ c {St} lo hi (body : Z -> St -> M St) s :
  (forall i s, lo <= i < hi -> emits c (body i s)) ->
  emits (Z.to_nat (hi - lo) * c) (for_ lo hi body s).
Proof.
  intros H. unfold for_. apply emits_for_count. intros i s0 Hi. apply H. lia.
Qed.

(** A channel slot appends at most one point. *)
Lemma emits_slot {A} (v : list A) i (f : A -> option VPoint.t) (k : Z) :
  emits 1
    (bind (at_ v i)
       (fun a =>
          bind (match f a with Some point => push_back point | None => ret tt end)
               (fun _ => ret k))).
Proof.
  apply (emits_bind 0 1); [apply emits_at_ |]. intros a.
  apply (emits_bind 1 0); [| intros; apply emits_ret].
  destruct (f a); [apply emits_push_back |].
  apply (emits_le 0); [lia | apply emits_ret].
Qed.

Lemma unpack_legacy_emits this pkt : emits (12 * 32) (unpack_legacy this pkt).
Proof.
  unfold unpack_legacy.
  apply (emits_bind (12 * 32) 0 _ _); [| intros; apply emits_ret].
  apply (emits_for_ 32 0 BLOCKS_PER_PACKET). intros i [] Hi. unfold unpack_legacy_block.
  apply (emits_bind 32 0 _ _); [| intros; apply emits_ret].
  apply (emits_for_ 1 0 SCANS_PER_BLOCK). intros j k Hj.
  apply emits_slot.
Qed.

Lemma unpack_vlp_emits this pkt :
  emits (12 * (Z.to_nat (firing_seqs_per_block (vlp_spec_ this))
               * Z.to_nat (lasers_per_firing_seq (vlp_spec_ this))))
    (unpack_vlp this pkt).
Proof.
  set (fs := Z.to_nat (firing_seqs_per_block (vlp_spec_ this))).
  set (lp := Z.to_nat (lasers_per_firing_seq (vlp_spec_ this))).
  unfold unpack_vlp.
  apply (emits_le (12 * (fs * lp) + 0)); [lia |].
  apply emits_bind; [| intros; apply emits_ret].
  apply (emits_for_ (fs * lp) 0 BLOCKS_PER_PACKET). intros b [last slice] Hb.
  unfold unpack_vlp_block.
  destruct (negb _); [apply (emits_le 0); [lia | apply emits_return_] |].
  destruct (block_azimuth_diff pkt b last slice) as [[azd last'] slice'].
  apply (emits_le (fs * lp + 0)); [lia |].
  apply emits_bind; [| intros; apply emits_ret].
  unfold vlp_block.
  apply (emits_le (Z.to_nat (firing_seqs_per_block (vlp_spec_ this) - 0) * lp));
    [rewrite Z.sub_0_r; fold fs; lia |].
  apply emits_for_. intros s k Hs.
  apply (emits_le (Z.to_nat (lasers_per_firing_seq (vlp_spec_ this) - 0) * 1));
    [rewrite Z.sub_0_r; fold lp; lia |].
  apply emits_for_. intros l k' Hl.
  apply (emits_slot _ l
           (fun c => vlp_scan this pkt (F32.of_int (block_rotation pkt b)) azd b s l k' c)).
Qed.

(** X1: the outcome of a decode call and the points it appends do not
    depend on the cloud it is given: the call leaves the points already
    there in place, appends its own behind them and adds their number
    to [width].  It appends at most [12 * 32] points in the legacy
    path and at most 12 times the slots of a block in the VLP path.
    Hence decoding two packets in turn appends the points of the first
    followed by the points of the second. *)
Theorem unpackAndAdd_appends_independently
    (this : RawData) (pkt : VelodynePacket) :
  exists o new,
    (List.length new <= max_points this)%nat
    /\ (forall pc, run (unpackAndAdd this pkt) pc = (o, append_points pc new))
    /\ (forall pc,
          width pc = Z.of_nat (List.length (points pc)) ->
          width (snd (run (unpackAndAdd this pkt) pc))
          = Z.of_nat (List.length (points (snd (run (unpackAndAdd this pkt) pc)))))
    /\ (forall pkt', exists new',
          forall pc,
            snd (run (unpackAndAdd this pkt') (snd (run (unpackAndAdd this pkt) pc)))
            = append_points pc (new ++ new')).
Proof.
  assert (Hrun : forall pkt0, exists o new,
             (List.length new <= max_points this)%nat
             /\ forall pc, run (unpackAndAdd this pkt0) pc = (o, append_points pc new)).
  { intros pkt0. unfold max_points, unpackAndAdd.
    destruct (is_vlp_ this);
      [destruct (unpack_vlp_emits this pkt0) as [r [new [Hlen H]]]
      | destruct (unpack_legacy_emits this pkt0) as [r [new [Hlen H]]]];
      exists (outcome_of r), new; (split; [exact Hlen |]);
      intros pc; unfold run; rewrite H; destruct r as [v | [v |]]; reflexivity. }
  destruct (Hrun pkt) as [o [new [Hlen H]]]. exists o, new.
  split; [exact Hlen |]. split; [exact H |]. split.
  - intros pc Hw. rewrite H. cbn [snd append_points width points].
    rewrite length_app, Hw. lia.
  - intros pkt'. destruct (Hrun pkt') as [o' [new' [_ H']]]. exists new'.
    intros pc. rewrite H, H'. cbn [snd]. apply append_points_app.
Qed.

(** ** The legacy path as a whole *)

(** X2: with a calibration that has an entry for every laser of each
    block's bank, a legacy decode never rejects a packet: whatever the
    headers, it decodes all twelve blocks, appends the points of the
    channel slots [(i, j)] in block order then channel order, slot
    [(i, j)] being decoded from the three bytes at offset [3 j] of
    block [i] with the calibration entry [j + 32] when the header of
    the block is the lower-bank marker and [j] for any other header,
    and returns -1. *)
Theorem unpack_legacy_decodes_every_block
    (this : RawData) (pkt : VelodynePacket) (pc : VPointCloud) :
  is_vlp_ this = false ->
  legacy_calibration_covers this pkt ->
  run (unpackAndAdd this pkt) pc
  = (Returned minus_one,
     append_points pc
       (flat_map
          (fun i =>
             flat_map
               (fun j =>
                  match nth_error (laser_corrections (calibration_ this))
                          (Z.to_nat (j + (if block_header pkt i =? LOWER_BANK
                                          then 32 else 0))) with
                  | Some corrections =>
                      option_list (legacy_scan this pkt i (j * 3) corrections)
                  | None => []
                  end)
               (zrange 32 0))
          (zrange 12 0))).
Proof.
  intros Hvlp Hcal. unfold unpackAndAdd. rewrite Hvlp.
  rewrite (unpack_legacy_run this pkt pc Hcal). f_equal. f_equal.
  unfold legacy_points. apply flat_map_ext_in. intros i _.
  apply flat_map_ext_in. intros j _. unfold legacy_slot, bank_origin, RAW_SCAN_SIZE.
  destruct (nth_error _ _); reflexivity.
Qed.

(** A loop whose iterations complete when [ok] holds of the index and
    throw otherwise completes when [ok] holds throughout and throws
    otherwise. *)
Lemma for_count_first_throw {St} (ok : Z -> bool) n :
  forall lo (body : Z -> St -> M St) s pc,
  (forall i s pc, lo <= i < lo + Z.of_nat n -> ok i = true ->
     exists s' pc', body i s pc = (inl s', pc')) ->
  (forall i s pc, lo <= i < lo + Z.of_nat n -> ok i = false ->
     exists pc', body i s pc = (inr OutOfRange, pc')) ->
  if forallb ok (zrange n lo)
  then exists s' pc', for_count n lo body s pc = (inl s', pc')
  else exists pc', for_count n lo body s pc = (inr OutOfRange, pc').
Proof.
  induction n; intros lo body s pc Hok Hko.
  - cbn. do 2 eexists. reflexivity.
  - cbn [zrange forallb for_count]. unfold bind.
    destruct (ok lo) eqn:E; cbn [andb].
    + destruct (Hok lo s pc ltac:(lia) E) as [s' [pc' ->]].
      apply IHn; intros i s0 pc0 Hi; [apply Hok | apply Hko]; lia.
    + destruct (Hko lo s pc ltac:(lia) E) as [pc' ->]. eauto.
Qed.

Lemma forallb_zrange_iff (f : Z -> bool) n lo :
  forallb f (zrange n lo) = true <-> forall i, lo <= i < lo + Z.of_nat n -> f i = true.
Proof.
  rewrite forallb_forall. split; intros H i Hi; apply H; apply zrange_In; exact Hi.
Qed.

(** A legacy block completes when the calibration covers its bank and
    throws otherwise. *)
Lemma unpack_legacy_block_outcome this pkt i pc :
  if bank_origin pkt i + SCANS_PER_BLOCK
     <=? Z.of_nat (List.length (laser_corrections (calibration_ this)))
  then exists pc', unpack_legacy_block this pkt i tt pc = (inl tt, pc')
  else exists pc', unpack_legacy_block this pkt i tt pc = (inr OutOfRange, pc').
Proof.
  set (len := Z.of_nat (List.length (laser_corrections (calibration_ this)))).
  pose proof (bank_origin_range pkt i) as Hbo.
  unfold unpack_legacy_block, for_. fold (bank_origin pkt i). rewrite Z.sub_0_r.
  match goal with
  | |- context [for_count ?n 0 ?body 0] =>
      pose proof (for_count_first_throw (fun j => j + bank_origin pkt i <? len)
                    n 0 body 0 pc) as H
  end.
  match type of H with
  | ?A -> ?B -> _ => assert (Ha : A); [| assert (Hb : B); [| specialize (H Ha Hb)]]
  end.
  - intros j k pc0 Hj Hok. apply Z.ltb_lt in Hok. unfold SCANS_PER_BLOCK in Hj.
    change (Z.of_nat (Z.to_nat 32)) with 32 in Hj.
    replace ((j + bank_origin pkt i) mod 256) with (j + bank_origin pkt i)
      by (symmetry; apply Z.mod_small; lia).
    destruct (nth_error_in_range (laser_corrections (calibration_ this))
                (j + bank_origin pkt i)) as [c Hc]; [fold len; lia |].
    unfold bind. rewrite (at_Some _ (j + bank_origin pkt i) c ltac:(lia) Hc).
    destruct (legacy_scan this pkt i k c); cbn; do 2 eexists; reflexivity.
  - intros j k pc0 Hj Hko. apply Z.ltb_ge in Hko. unfold SCANS_PER_BLOCK in Hj.
    change (Z.of_nat (Z.to_nat 32)) with 32 in Hj.
    replace ((j + bank_origin pkt i) mod 256) with (j + bank_origin pkt i)
      by (symmetry; apply Z.mod_small; lia).
    unfold bind, at_.
    destruct (j + bank_origin pkt i <? 0) eqn:E; [apply Z.ltb_lt in E; lia |].
    destruct (nth_error (laser_corrections (calibration_ this))
                (Z.to_nat (j + bank_origin pkt i))) eqn:En.
    + assert (Hsome : nth_error (laser_corrections (calibration_ this))
                        (Z.to_nat (j + bank_origin pkt i)) <> None) by congruence.
      apply nth_error_Some in Hsome. fold len in Hko. lia.
    + cbn. eexists. reflexivity.
  - destruct (forallb _ _) eqn:Hall.
    + rewrite forallb_zrange_iff in Hall.
      specialize (Hall 31 ltac:(unfold SCANS_PER_BLOCK; lia)). cbv beta in Hall.
      apply Z.ltb_lt in Hall.
      replace (bank_origin pkt i + SCANS_PER_BLOCK <=? len) with true
        by (symmetry; apply Z.leb_le; unfold SCANS_PER_BLOCK; lia).
      unfold bind at 1. destruct H as [k [pc' ->]]. cbn. eexists. reflexivity.
    + destruct (bank_origin pkt i + SCANS_PER_BLOCK <=? len) eqn:Hle.
      * apply Z.leb_le in Hle.
        assert (Htrue : forallb (fun j => j + bank_origin pkt i <? len)
                          (zrange (Z.to_nat SCANS_PER_BLOCK) 0) = true).
        { apply forallb_zrange_iff. intros j Hj. apply Z.ltb_lt.
          unfold SCANS_PER_BLOCK in *. lia. }
        congruence.
      * unfold bind at 1. destruct H as [pc' ->]. eexists. reflexivity.
Qed.

(** X3: a legacy decode ends with [std::out_of_range] exactly when the
    calibration has fewer entries than some block's bank needs, 32 for
    a block of the upper bank and 64 for a block with the lower-bank
    header; otherwise it returns -1 after decoding every block. *)
Theorem unpack_legacy_throws_iff
    (this : RawData) (pkt : VelodynePacket) (pc : VPointCloud) :
  is_vlp_ this = false ->
  (fst (run (unpackAndAdd this pkt) pc) = Threw
   <-> exists i, 0 <= i < 12
                 /\ Z.of_nat (List.length (laser_corrections (calibration_ this)))
                    < (if block_header pkt i =? LOWER_BANK then 64 else 32))
  /\ (fst (run (unpackAndAdd this pkt) pc) = Threw
      \/ run (unpackAndAdd this pkt) pc
         = (Returned minus_one, append_points pc (legacy_points this pkt 12))).
Proof.
  intros Hvlp.
  set (len := Z.of_nat (List.length (laser_corrections (calibration_ this)))).
  set (ok := fun i => bank_origin pkt i + SCANS_PER_BLOCK <=? len).
  assert (Hneed : forall i,
             (if block_header pkt i =? LOWER_BANK then 64 else 32)
             = bank_origin pkt i + SCANS_PER_BLOCK).
  { intros i. unfold bank_origin, SCANS_PER_BLOCK.
    destruct (block_header pkt i =? LOWER_BANK); reflexivity. }
  pose proof (for_count_first_throw ok 12 0 (unpack_legacy_block this pkt) tt pc) as H.
  match type of H with
  | ?A -> ?B -> _ => assert (Ha : A); [| assert (Hb : B); [| specialize (H Ha Hb)]]
  end.
  - intros i [] pc0 _ Hok. pose proof (unpack_legacy_block_outcome this pkt i pc0) as Hblk.
    fold len in Hblk. unfold ok in Hok. rewrite Hok in Hblk.
    destruct Hblk as [pc' ->]. do 2 eexists. reflexivity.
  - intros i [] pc0 _ Hko. pose proof (unpack_legacy_block_outcome this pkt i pc0) as Hblk.
    fold len in Hblk. unfold ok in Hko. rewrite Hko in Hblk. exact Hblk.
  - destruct (forallb ok (zrange 12 0)) eqn:Hall.
    + rewrite forallb_zrange_iff in Hall.
      assert (Hcal : legacy_calibration_covers this pkt).
      { intros i Hi. specialize (Hall i ltac:(unfold BLOCKS_PER_PACKET in Hi; lia)).
        unfold ok in Hall. apply Z.leb_le in Hall. exact Hall. }
      unfold unpackAndAdd. rewrite Hvlp, (unpack_legacy_run this pkt pc Hcal).
      split; [| right; reflexivity]. cbn [fst]. split; [discriminate |].
      intros [i [Hi Hlt]]. rewrite Hneed in Hlt.
      specialize (Hall i ltac:(lia)). unfold ok in Hall. apply Z.leb_le in Hall. lia.
    + destruct H as [pc' Hthrow].
      assert (Hrun : fst (run (unpackAndAdd this pkt) pc) = Threw).
      { unfold unpackAndAdd. rewrite Hvlp. unfold run, unpack_legacy, for_, bind.
        change (Z.to_nat (BLOCKS_PER_PACKET - 0)) with 12%nat.
        rewrite Hthrow. reflexivity. }
      split; [| left; exact Hrun]. split; [| intros _; exact Hrun]. intros _.
      destruct (existsb (fun i => negb (ok i)) (zrange 12 0)) eqn:Hex.
      * apply existsb_exists in Hex. destruct Hex as [i [Hin Hi]].
        apply zrange_In in Hin. exists i. split; [lia |].
        rewrite Hneed. apply negb_true_iff in Hi. unfold ok in Hi.
        apply Z.leb_gt in Hi. exact Hi.
      * assert (Htrue : forallb ok (zrange 12 0) = true).
        { apply forallb_forall. intros i Hin.
          destruct (ok i) eqn:Hi; [reflexivity |].
          assert (Hex' : existsb (fun i => negb (ok i)) (zrange 12 0) = true).
          { apply existsb_exists. exists i. split; [exact Hin |]. rewrite Hi. reflexivity. }
          congruence. }
        congruence.
Qed.

(** ** Calibration lookups of the VLP path *)

Lemma no_throw_ret {A} (a : A) : no_throw (ret a).
Proof. intros pc. discriminate. Qed.

Lemma no_throw_return_ {A} v : no_throw (@return_ A v).
Proof. intros pc. discriminate. Qed.

Lemma no_throw_push_back p : no_throw (push_back p).
Proof. intros pc. discriminate. Qed.

Lemma no_throw_at_ {A} (v : list A) i :
  0 <= i < Z.of_nat (List.length v) -> no_throw (at_ v i).
Proof.
  intros Hi pc. destruct (nth_error_in_range v i Hi) as [a Ha].
  rewrite (at_Some v i a ltac:(lia) Ha). discriminate.
Qed.

Lemma no_throw_bind {A B} (m : M A) (k : A -> M B) :
  no_throw m -> (forall a, no_throw (k a)) -> no_throw (bind m k).
Proof.
  intros Hm Hk pc. unfold bind. specialize (Hm pc).
  destruct (m pc) as [[a | e] pc']; [apply Hk |].
  cbn [fst] in *. intros E. apply Hm. injection E as ->. reflexivity.
Qed.

Lemma no_throw_for_count {St} n : forall lo (body : Z -> St -> M St) s,
  (forall i s, lo <= i < lo + Z.of_nat n -> no_throw (body i s)) ->
  no_throw (for_count n lo body s).
Proof.
  induction n; intros lo body s H.
  - apply no_throw_ret.
  - cbn [for_count]. apply no_throw_bind.
    + apply H. lia.
    + intros s'. apply IHn. intros i s0 Hi. apply H. lia.
Qed.

Lemma no_throw_for_ {St} lo hi (body : Z -> St -> M St) s :
  (forall i s, lo <= i < hi -> no_throw (body i s)) ->
  no_throw (for_ lo hi body s).
Proof.
  intros H. unfold for_. apply no_throw_for_count. intros i s0 Hi. apply H. lia.
Qed.

(** Without firing sequences, or with an entry for every laser of a
    firing sequence, no block throws. *)
Lemma unpack_vlp_no_throw this pkt :
  firing_seqs_per_block (vlp_spec_ this) <= 0
  \/ lasers_per_firing_seq (vlp_spec_ this)
     <= Z.of_nat (List.length (laser_corrections (calibration_ this))) ->
  no_throw (unpack_vlp this pkt).
Proof.
  intros Hcase. unfold unpack_vlp.
  apply no_throw_bind; [| intros; apply no_throw_ret].
  apply no_throw_for_. intros b [last slice] Hb. unfold unpack_vlp_block.
  destruct (negb _); [apply no_throw_return_ |].
  destruct (block_azimuth_diff pkt b last slice) as [[azd last'] slice'].
  apply no_throw_bind; [| intros; apply no_throw_ret].
  unfold vlp_block. apply no_throw_for_. intros s k Hs.
  apply no_throw_for_. intros l k' Hl.
  apply no_throw_bind; [apply no_throw_at_; lia |]. intros c.
  apply no_throw_bind; [| intros; apply no_throw_ret].
  destruct (vlp_scan _ _ _ _ _ _ _ _ _); [apply no_throw_push_back | apply no_throw_ret].
Qed.

(** The laser loop of a firing sequence throws at the first laser the
    calibration lacks. *)
Lemma vlp_lasers_throw this pkt az azd block firing_seq k pc :
  Z.of_nat (List.length (laser_corrections (calibration_ this)))
    < lasers_per_firing_seq (vlp_spec_ this) ->
  exists pc',
    for_ 0 (lasers_per_firing_seq (vlp_spec_ this))
      (fun laser k =>
         (corrections <- at_ (laser_corrections (calibration_ this)) laser ;;
          (match vlp_scan this pkt az azd block firing_seq laser k corrections with
           | Some point => push_back point
           | None => ret tt
           end) ;;;
          ret (k + RAW_SCAN_SIZE))%decode)
      k pc
    = (inr OutOfRange, pc').
Proof.
  intros Hlen.
  set (len := Z.of_nat (List.length (laser_corrections (calibration_ this)))) in *.
  unfold for_. rewrite Z.sub_0_r.
  match goal with
  | |- context [for_count ?n 0 ?body k pc] =>
      pose proof (for_count_first_throw (fun l => l <? len) n 0 body k pc) as H
  end.
  match type of H with
  | ?A -> ?B -> _ => assert (Ha : A); [| assert (Hb : B); [| specialize (H Ha Hb)]]
  end.
  - intros l k0 pc0 Hl Hok. apply Z.ltb_lt in Hok.
    destruct (nth_error_in_range (laser_corrections (calibration_ this)) l) as [c Hc];
      [fold len; lia |].
    unfold bind. rewrite (at_Some _ l c ltac:(lia) Hc).
    destruct (vlp_scan this pkt az azd block firing_seq l k0 c); cbn;
      do 2 eexists; reflexivity.
  - intros l k0 pc0 Hl Hko. apply Z.ltb_ge in Hko. unfold bind, at_.
    destruct (l <? 0) eqn:E; [apply Z.ltb_lt in E; lia |].
    destruct (nth_error (laser_corrections (calibration_ this)) (Z.to_nat l)) eqn:En.
    + assert (Hsome : nth_error (laser_corrections (calibration_ this)) (Z.to_nat l)
                      <> None) by congruence.
      apply nth_error_Some in Hsome. fold len in Hko. lia.
    + cbn. eexists. reflexivity.
  - destruct (forallb _ _) eqn:Hall; [| exact H].
    rewrite forallb_zrange_iff in Hall. specialize (Hall len ltac:(lia)).
    cbv beta in Hall. apply Z.ltb_lt in Hall. lia.
Qed.

(** X4: a VLP decode ends with [std::out_of_range] exactly when the
    first block has the expected header, the profile has at least one
    firing sequence per block and the calibration has fewer entries
    than the profile has lasers per firing sequence.  The lookup
    [laser_corrections.at(laser)] precedes the field-of-view and range
    tests, so the exception does not depend on the measurements. *)
Theorem unpack_vlp_throws_iff
    (this : RawData) (pkt : VelodynePacket) (pc : VPointCloud) :
  is_vlp_ this = true ->
  (fst (run (unpackAndAdd this pkt) pc) = Threw
   <-> block_header pkt 0 = UPPER_BANK
       /\ 0 < firing_seqs_per_block (vlp_spec_ this)
       /\ Z.of_nat (List.length (laser_corrections (calibration_ this)))
          < lasers_per_firing_seq (vlp_spec_ this)).
Proof.
  intros Hvlp. unfold unpackAndAdd. rewrite Hvlp. split.
  - intros Hthrow.
    assert (Hnt : ~ no_throw (unpack_vlp this pkt)).
    { intros Hnt. specialize (Hnt pc). unfold run in Hthrow.
      destruct (unpack_vlp this pkt pc) as [[v | [v |]] pc']; cbn in *;
        try discriminate. congruence. }
    split; [| split].
    + destruct (Z.eq_dec (block_header pkt 0) UPPER_BANK) as [E | E]; [exact E |].
      exfalso. unfold run, unpack_vlp, for_, bind in Hthrow.
      change (Z.to_nat (BLOCKS_PER_PACKET - 0)) with 12%nat in Hthrow.
      cbn [for_count] in Hthrow. unfold bind at 1 in Hthrow.
      unfold unpack_vlp_block at 1 in Hthrow.
      replace (UPPER_BANK =? block_header pkt 0) with false in Hthrow
        by (symmetry; apply Z.eqb_neq; congruence).
      cbn in Hthrow. discriminate.
    + destruct (Z_lt_le_dec 0 (firing_seqs_per_block (vlp_spec_ this))) as [H | H];
        [exact H |].
      exfalso. apply Hnt. apply unpack_vlp_no_throw. left. exact H.
    + destruct (Z_lt_le_dec
                  (Z.of_nat (List.length (laser_corrections (calibration_ this))))
                  (lasers_per_firing_seq (vlp_spec_ this))) as [H | H]; [exact H |].
      exfalso. apply Hnt. apply unpack_vlp_no_throw. right. exact H.
  - intros [Hhdr [Hfs Hlen]].
    unfold run, unpack_vlp, for_, bind.
    change (Z.to_nat (BLOCKS_PER_PACKET - 0)) with 12%nat.
    cbn [for_count]. unfold bind at 1. unfold unpack_vlp_block at 1.
    rewrite Hhdr, Z.eqb_refl. cbn [negb].
    destruct (block_azimuth_diff pkt 0 (F32.of_int 0) F32.zero) as [[azd last'] slice'].
    unfold bind at 1. unfold vlp_block, for_ at 1. rewrite Z.sub_0_r.
    destruct (Z.to_nat (firing_seqs_per_block (vlp_spec_ this))) as [| n] eqn:En; [lia |].
    cbn [for_count]. unfold bind at 1.
    destruct (vlp_lasers_throw this pkt (F32.of_int (block_rotation pkt 0)) azd 0 0 0 pc Hlen)
      as [pc' ->].
    reflexivity.
Qed.

(** ** The field-of-view and range gates *)

Lemma SFcompare_rank x y :
  match SFcompare x y with
  | Some Lt => exists a b, rank x = Some a /\ rank y = Some b /\ rank_lt a b
  | Some Eq => exists a, rank x = Some a /\ rank y = Some a
  | Some Gt => exists a b, rank x = Some a /\ rank y = Some b /\ rank_lt b a
  | None => rank x = None \/ rank y = None
  end.
Proof.
  unfold rank_lt.
  destruct x as [sx | sx | | sx mx ex], y as [sy | sy | | sy my ey];
    try destruct sx; try destruct sy; cbn [SFcompare rank];
    try (left; reflexivity); try (right; reflexivity);
    try (eexists; split; [reflexivity | reflexivity]);
    try (do 2 eexists; split; [reflexivity | split; [reflexivity | cbn; lia]]).
  - destruct (Z.compare_spec ex ey) as [E | E | E]; cbn [CompOpp].
    + subst ey. change (Pcompare mx my Eq) with (Pos.compare mx my).
      destruct (Pos.compare_spec mx my) as [M | M | M]; cbn [CompOpp].
      * subst my. eexists. split; reflexivity.
      * do 2 eexists. split; [reflexivity | split; [reflexivity | cbn; lia]].
      * do 2 eexists. split; [reflexivity | split; [reflexivity | cbn; lia]].
    + do 2 eexists. split; [reflexivity | split; [reflexivity | cbn; lia]].
    + do 2 eexists. split; [reflexivity | split; [reflexivity | cbn; lia]].
  - destruct (Z.compare_spec ex ey) as [E | E | E].
    + subst ey. change (Pcompare mx my Eq) with (Pos.compare mx my).
      destruct (Pos.compare_spec mx my) as [M | M | M].
      * subst my. eexists. split; reflexivity.
      * do 2 eexists. split; [reflexivity | split; [reflexivity | cbn; lia]].
      * do 2 eexists. split; [reflexivity | split; [reflexivity | cbn; lia]].
    + do 2 eexists. split; [reflexivity | split; [reflexivity | cbn; lia]].
    + do 2 eexists. split; [reflexivity | split; [reflexivity | cbn; lia]].
Qed.

Lemma SFleb_rank x y :
  SFleb x y = true ->
  exists a b, rank x = Some a /\ rank y = Some b /\ ~ rank_lt b a.
Proof.
  unfold SFleb. pose proof (SFcompare_rank x y) as H.
  destruct (SFcompare x y) as [[] |]; try discriminate; intros _.
  - destruct H as [a [Hx Hy]]. exists a, a. split; [exact Hx | split; [exact Hy |]].
    unfold rank_lt. lia.
  - destruct H as [a [b [Hx [Hy Hlt]]]]. exists a, b.
    split; [exact Hx | split; [exact Hy |]]. unfold rank_lt in *. lia.
Qed.

Lemma SFltb_rank x y :
  SFltb x y = true ->
  exists a b, rank x = Some a /\ rank y = Some b /\ rank_lt a b.
Proof.
  unfold SFltb. pose proof (SFcompare_rank x y) as H.
  destruct (SFcompare x y) as [[] |]; try discriminate; intros _. exact H.
Qed.

(** No value lies between crossed bounds. *)
Lemma SFleb_crossed lo hi x :
  SFltb hi lo = true -> SFleb lo x = true -> SFleb x hi = true -> False.
Proof.
  intros Hc H1 H2.
  destruct (SFltb_rank _ _ Hc) as [h [l [Hh [Hl Hlt]]]].
  destruct (SFleb_rank _ _ H1) as [l' [a [Hl' [Ha Hla]]]].
  destruct (SFleb_rank _ _ H2) as [a' [h' [Ha' [Hh' Hah]]]].
  assert (l' = l) by congruence. assert (a' = a) by congruence.
  assert (h' = h) by congruence. subst l' a' h'.
  unfold rank_lt in *. lia.
Qed.

Lemma SFleb_nan_l x y : IEEE.is_nan x = true -> SFleb x y = false.
Proof. destruct x; try discriminate. reflexivity. Qed.

Lemma SFleb_nan_r x y : IEEE.is_nan y = true -> SFleb x y = false.
Proof. destruct y; try discriminate. destruct x; reflexivity. Qed.

Lemma gate_closed_slot this azimuth range :
  gate_closed this ->
  azimuth_in_view (config_ this) azimuth && pointInRange this range = false.
Proof.
  intros [Hangle | [Hcross | [Hnan | Hnan]]].
  - replace (azimuth_in_view (config_ this) azimuth) with false; [reflexivity |].
    symmetry. apply not_true_is_false. rewrite azimuth_in_view_spec. lia.
  - rewrite andb_comm. replace (pointInRange this range) with false; [reflexivity |].
    symmetry. apply not_true_is_false. unfold pointInRange, F64.leb.
    rewrite andb_true_iff. intros [H1 H2].
    exact (SFleb_crossed _ _ _ Hcross H1 H2).
  - rewrite andb_comm. unfold pointInRange, F64.leb.
    rewrite (SFleb_nan_l _ _ Hnan). reflexivity.
  - rewrite andb_comm. unfold pointInRange, F64.leb.
    rewrite (SFleb_nan_r _ _ Hnan), andb_false_r. reflexivity.
Qed.

Lemma legacy_scan_gates this pkt i k corrections p :
  legacy_scan this pkt i k corrections = Some p ->
  azimuth_in_view (config_ this) (block_rotation pkt i)
  && pointInRange this
       (F32.add (F32.mul (F32.of_int (block_uint pkt i k)) DISTANCE_RESOLUTION)
                (dist_correction corrections))
  = true.
Proof.
  unfold legacy_scan.
  destruct (azimuth_in_view (config_ this) (block_rotation pkt i)); [| discriminate].
  destruct (position _ _ _ _) as [[xc yc] zc].
  destruct (pointInRange _ _); [reflexivity | discriminate].
Qed.

Lemma vlp_scan_at_gates this pkt az block firing_seq k corrections p :
  vlp_scan_at this pkt az block firing_seq k corrections = Some p ->
  azimuth_in_view (config_ this) az
  && pointInRange this
       (F32.add (F32.mul (F32.of_int (block_uint pkt block k))
                         (distance_resolution (vlp_spec_ this)))
                (dist_correction corrections))
  = true.
Proof.
  unfold vlp_scan_at.
  destruct (azimuth_in_view (config_ this) az); [| discriminate].
  destruct (position _ _ _ _) as [[xc yc] zc].
  destruct (pointInRange _ _); [reflexivity | discriminate].
Qed.

(** X5: a decoder whose field of view is collapsed ([min_angle] equal
    to [max_angle]) or whose range gate is empty ([max_range] below
    [min_range], or a NaN bound) appends no point, whatever the packet
    and in both paths: the cloud is left as it was. *)
Theorem decode_with_closed_gate
    (this : RawData) (pkt : VelodynePacket) (pc : VPointCloud) :
  gate_closed this ->
  snd (run (unpackAndAdd this pkt) pc) = pc.
Proof.
  intros Hclosed.
  assert (Happ : appends (fun _ => False) (unpackAndAdd this pkt)).
  { unfold unpackAndAdd. destruct (is_vlp_ this).
    - unfold unpack_vlp. apply appends_bind; [| intros; apply appends_ret].
      apply appends_for_. intros b [last slice] Hb. unfold unpack_vlp_block.
      destruct (negb _); [apply appends_return_ |].
      destruct (block_azimuth_diff pkt b last slice) as [[azd last'] slice'].
      apply appends_bind; [| intros; apply appends_ret].
      unfold vlp_block. apply appends_for_. intros s k Hs.
      apply appends_for_. intros l k' Hl.
      apply appends_bind; [apply appends_at_ |]. intros c.
      apply appends_bind; [| intros; apply appends_ret].
      destruct (vlp_scan this pkt _ azd b s l k' c) as [p |] eqn:E;
        [| apply appends_ret].
      apply vlp_scan_at_gates in E. rewrite (gate_closed_slot this _ _ Hclosed) in E.
      discriminate.
    - unfold unpack_legacy. apply appends_bind; [| intros; apply appends_ret].
      apply appends_for_. intros i [] Hi. unfold unpack_legacy_block.
      apply appends_bind; [| intros; apply appends_ret].
      apply appends_for_. intros j k Hj.
      apply appends_bind; [apply appends_at_ |]. intros c.
      apply appends_bind; [| intros; apply appends_ret].
      destruct (legacy_scan this pkt i k c) as [p |] eqn:E; [| apply appends_ret].
      apply legacy_scan_gates in E. rewrite (gate_closed_slot this _ _ Hclosed) in E.
      discriminate. }
  rewrite snd_run. destruct (Happ pc) as [new [E F]]. rewrite E.
  destruct new as [| p new]; [apply append_points_nil |].
  inversion F as [| ? ? Hp _]. contradiction.
Qed.

(** ** Ring and intensity of the points *)

Lemma SFltb_irrefl x : SFltb x x = false.
Proof.
  destruct (SFltb x x) eqn:E; [| reflexivity].
  destruct (SFltb_rank _ _ E) as [a [b [Ha [Hb Hlt]]]].
  assert (a = b) by congruence. subst b. unfold rank_lt in Hlt. lia.
Qed.

Lemma clamp_intensity_bounds corrections intensity :
  F32.ltb (max_intensity corrections) (min_intensity corrections) = false ->
  F32.ltb (clamp_intensity corrections intensity) (min_intensity corrections) = false
  /\ F32.ltb (max_intensity corrections) (clamp_intensity corrections intensity) = false.
Proof.
  intros Hb. unfold clamp_intensity, F32.ltb in *.
  destruct (SFltb intensity (min_intensity corrections)) eqn:E1.
  - rewrite Hb. split; [apply SFltb_irrefl | exact Hb].
  - destruct (SFltb (max_intensity corrections) intensity) eqn:E2.
    + split; [exact Hb | apply SFltb_irrefl].
    + split; [exact E1 | exact E2].
Qed.

Lemma legacy_scan_from_calibration this pkt i k corrections p :
  In corrections (laser_corrections (calibration_ this)) ->
  legacy_scan this pkt i k corrections = Some p -> from_calibration this p.
Proof.
  intros Hin. unfold legacy_scan.
  destruct (azimuth_in_view _ _); [| discriminate].
  destruct (position _ _ _ _) as [[xc yc] zc].
  destruct (pointInRange _ _); [| discriminate].
  intros H. injection H as <-. exists corrections. split; [exact Hin |].
  split; [reflexivity |]. cbn [VPoint.intensity]. unfold legacy_intensity.
  apply clamp_intensity_bounds.
Qed.

Lemma vlp_scan_at_from_calibration this pkt az b s k corrections p :
  In corrections (laser_corrections (calibration_ this)) ->
  vlp_scan_at this pkt az b s k corrections = Some p -> from_calibration this p.
Proof.
  intros Hin. unfold vlp_scan_at.
  destruct (azimuth_in_view _ _); [| discriminate].
  destruct (position _ _ _ _) as [[xc yc] zc].
  destruct (pointInRange _ _); [| discriminate].
  intros H. injection H as <-. exists corrections. split; [exact Hin |].
  split; [reflexivity |]. cbn [VPoint.intensity]. unfold vlp_intensity.
  apply clamp_intensity_bounds.
Qed.

(** What follows a lookup runs on an entry of the vector. *)
Lemma appends_at_bind P {A B} (v : list A) i (k : A -> M B) :
  (forall a, In a v -> appends P (k a)) -> appends P (bind (at_ v i) k).
Proof.
  intros Hk pc. unfold bind, at_.
  destruct (i <? 0).
  - exists []. rewrite append_points_nil. split; [reflexivity | constructor].
  - destruct (nth_error v (Z.to_nat i)) as [a |] eqn:E.
    + apply (Hk a (nth_error_In _ _ E)).
    + exists []. rewrite append_points_nil. split; [reflexivity | constructor].
Qed.

(** X6: every point a decode call appends, in either path and whatever
    the packet, carries the ring number of an entry of the calibration,
    and its intensity compares neither below that entry's
    [min_intensity] nor above its [max_intensity], provided the entry
    has [min_intensity] not above [max_intensity]. *)
Theorem decoded_points_from_calibration
    (this : RawData) (pkt : VelodynePacket) (pc : VPointCloud) :
  exists new,
    snd (run (unpackAndAdd this pkt) pc) = append_points pc new
    /\ Forall
         (fun p =>
            exists c,
              In c (laser_corrections (calibration_ this))
              /\ VPoint.laser_id p = laser_ring c
              /\ (F32.ltb (max_intensity c) (min_intensity c) = false ->
                  F32.ltb (VPoint.intensity p) (min_intensity c) = false
                  /\ F32.ltb (max_intensity c) (VPoint.intensity p) = false))
         new.
Proof.
  rewrite snd_run.
  assert (H : appends (from_calibration this) (unpackAndAdd this pkt)); [| exact (H pc)].
  unfold unpackAndAdd. destruct (is_vlp_ this).
  - unfold unpack_vlp. apply appends_bind; [| intros; apply appends_ret].
    apply appends_for_. intros b [last slice] Hb. unfold unpack_vlp_block.
    destruct (negb _); [apply appends_return_ |].
    destruct (block_azimuth_diff pkt b last slice) as [[azd last'] slice'].
    apply appends_bind; [| intros; apply appends_ret].
    unfold vlp_block. apply appends_for_. intros s k Hs.
    apply appends_for_. intros l k' Hl.
    apply appends_at_bind. intros c Hin.
    apply appends_bind; [| intros; apply appends_ret].
    destruct (vlp_scan this pkt _ azd b s l k' c) as [p |] eqn:E;
      [| apply appends_ret].
    apply appends_push_back. exact (vlp_scan_at_from_calibration _ _ _ _ _ _ _ _ Hin E).
  - unfold unpack_legacy. apply appends_bind; [| intros; apply appends_ret].
    apply appends_for_. intros i [] Hi. unfold unpack_legacy_block.
    apply appends_bind; [| intros; apply appends_ret].
    apply appends_for_. intros j k Hj.
    apply appends_at_bind. intros c Hin.
    apply appends_bind; [| intros; apply appends_ret].
    destruct (legacy_scan this pkt i k c) as [p |] eqn:E; [| apply appends_ret].
    apply appends_push_back. exact (legacy_scan_from_calibration _ _ _ _ _ _ Hin E).
Qed.

(** ** Selection of the decode path by [setup] *)

(** X7: [setup] stores the calibration it has read even when it fails;
    without an initialized calibration it returns -1 and leaves the
    profile, the timing table, the path flag and the rotation tables as
    they were.  Otherwise it returns 0 and selects the VLP path exactly
    when the calibration has 16 lasers or the device model is "VLP32",
    16 lasers taking the VLP16 profile even with the "VLP32" model; the
    timing table is filled exactly for "VLP32" with another laser
    count.  In the remaining case the decoder is a legacy one: the
    profile is left untouched and every point a decode call appends
    carries the packet time. *)
Theorem setup_selects_decode_path
    (this0 : RawData) (calibration : Calibration) (device_model : option string) :
  let model :=
    match device_model with
    | Some m => m
    | None => deviceModel (config_ this0)
    end in
  let status := fst (setup this0 calibration device_model) in
  let this := snd (setup this0 calibration device_model) in
  calibration_ this = calibration
  /\ (initialized calibration = false ->
      status = -1
      /\ vlp_spec_ this = vlp_spec_ this0
      /\ timing_offsets_ this = timing_offsets_ this0
      /\ is_vlp_ this = is_vlp_ this0
      /\ forall i, sin_rot_table_ this i = sin_rot_table_ this0 i
                   /\ cos_rot_table_ this i = cos_rot_table_ this0 i)
  /\ (initialized calibration = true ->
      status = 0
      /\ deviceModel (config_ this) = model
      /\ (is_vlp_ this = true
          <-> num_lasers calibration = 16 \/ model = "VLP32"%string)
      /\ (num_lasers calibration = 16 -> vlp_spec_ this = VLP_16_SPEC)
      /\ (timing_offsets_ this <> []
          <-> num_lasers calibration <> 16 /\ model = "VLP32"%string)
      /\ (is_vlp_ this = false ->
          vlp_spec_ this = vlp_spec_ this0
          /\ forall pkt pc, exists new,
               snd (run (unpackAndAdd this pkt) pc) = append_points pc new
               /\ Forall (fun p => VPoint.time_sec p = sec (stamp pkt)
                                   /\ VPoint.time_nsec p = nsec (stamp pkt)) new)).
Proof.
  intros model status this.
  assert (Hlegacy : forall this',
             is_vlp_ this' = false ->
             forall pkt pc, exists new,
               snd (run (unpackAndAdd this' pkt) pc) = append_points pc new
               /\ Forall (fun p => VPoint.time_sec p = sec (stamp pkt)
                                   /\ VPoint.time_nsec p = nsec (stamp pkt)) new).
  { intros this' Hvlp pkt pc. rewrite snd_run. unfold unpackAndAdd. rewrite Hvlp.
    exact (unpack_legacy_appends this' pkt pc). }
  split; [| split].
  - subst this. unfold setup. destruct (negb (initialized calibration)); [reflexivity |].
    destruct (num_lasers calibration =? 16); [reflexivity |].
    destruct (String.eqb _ _); reflexivity.
  - intros Hinit. subst status this. unfold setup. rewrite Hinit. cbn [negb fst snd].
    repeat split.
  - intros Hinit.
    assert (Hmodel : deviceModel
                       match device_model with
                       | Some m =>
                           {| deviceModel := m;
                              max_range := max_range (config_ this0);
                              min_range := min_range (config_ this0);
                              min_angle := min_angle (config_ this0);
                              max_angle := max_angle (config_ this0);
                              tmp_min_angle := tmp_min_angle (config_ this0);
                              tmp_max_angle := tmp_max_angle (config_ this0) |}
                       | None => config_ this0
                       end = model).
    { subst model. destruct device_model; reflexivity. }
    pose proof getVLP32TimingOffsets_not_nil as Hnn.
    split; [apply setup_ok; exact Hinit |].
    specialize (Hlegacy this). clearbody model. revert Hlegacy.
    subst this. unfold setup. rewrite Hinit. cbn [negb]. rewrite Hmodel.
    destruct (num_lasers calibration =? 16) eqn:E16.
    + apply Z.eqb_eq in E16. cbn [snd config_ is_vlp_ vlp_spec_ timing_offsets_].
      intros _. split; [exact Hmodel |]. split; [split; [intros _; left; exact E16 | reflexivity] |].
      split; [reflexivity |]. split; [| discriminate].
      split; [congruence | intros [H _]; congruence].
    + apply Z.eqb_neq in E16. destruct (String.eqb model "VLP32") eqn:Em.
      * apply String.eqb_eq in Em.
        cbn [snd config_ is_vlp_ vlp_spec_ timing_offsets_].
        intros _. split; [exact Hmodel |].
        split; [split; [intros _; right; exact Em | reflexivity] |].
        split; [congruence |]. split; [| discriminate].
        split; [intros _; split; assumption | intros _; exact Hnn].
      * apply String.eqb_neq in Em.
        cbn [snd config_ is_vlp_ vlp_spec_ timing_offsets_].
        intros Hlegacy. split; [exact Hmodel |].
        split; [split; [discriminate | intros [H | H]; congruence] |].
        split; [congruence |].
        split; [split; [congruence | intros [_ H]; congruence] |].
        intros _. split; [reflexivity |]. apply Hlegacy. reflexivity.
Qed.

(** ** The rotation tables *)

Lemma rot_table_loop_from n : forall fuel k cos_t sin_t,
  0 <= k -> k + Z.of_nat n = ROTATION_MAX_UNITS -> (n < fuel)%nat ->
  exists cos_t' sin_t',
    rot_table_loop fuel k (cos_t, sin_t) = Some (cos_t', sin_t')
    /\ forall i,
         cos_t' i = (if (k <=? i) && (i <? ROTATION_MAX_UNITS)
                     then cosf (table_rotation i) else cos_t i)
         /\ sin_t' i = (if (k <=? i) && (i <? ROTATION_MAX_UNITS)
                        then sinf (table_rotation i) else sin_t i).
Proof.
  unfold ROTATION_MAX_UNITS.
  induction n; intros fuel k cos_t sin_t Hk Hn Hfuel;
    (destruct fuel as [| fuel]; [lia |]); cbn [rot_table_loop]; unfold ROTATION_MAX_UNITS.
  - replace (k <? 36000) with false by (symmetry; apply Z.ltb_ge; lia).
    exists cos_t, sin_t. split; [reflexivity |]. intros i.
    replace ((k <=? i) && (i <? 36000)) with false; [split; reflexivity |].
    symmetry. apply andb_false_iff. rewrite Z.leb_gt, Z.ltb_ge. lia.
  - replace (k <? 36000) with true by (symmetry; apply Z.ltb_lt; lia).
    cbv zeta. cbn [fst snd]. rewrite (Z.mod_small (k + 1) 65536) by lia.
    destruct (IHn fuel (k + 1)
                (store cos_t k (cosf (table_rotation k)))
                (store sin_t k (sinf (table_rotation k)))
                ltac:(lia) ltac:(lia) ltac:(lia))
      as [cos_t' [sin_t' [Hrun Htab]]].
    exists cos_t', sin_t'. split; [exact Hrun |]. intros i.
    destruct (Htab i) as [Hc Hs]. rewrite Hc, Hs. unfold store.
    destruct (Z.eq_dec i k) as [-> | Hne].
    + rewrite Z.eqb_refl.
      replace (k + 1 <=? k) with false by (symmetry; apply Z.leb_gt; lia).
      replace (k <=? k) with true by (symmetry; apply Z.leb_le; lia).
      replace (k <? 36000) with true by (symmetry; apply Z.ltb_lt; lia).
      split; reflexivity.
    + replace (i =? k) with false by (symmetry; apply Z.eqb_neq; exact Hne).
      replace (k + 1 <=? i) with (k <=? i); [split; reflexivity |].
      destruct (k <=? i) eqn:E1; symmetry.
      * apply Z.leb_le in E1. apply Z.leb_le. lia.
      * apply Z.leb_gt in E1. apply Z.leb_gt. lia.
Qed.

Lemma rot_table_loop_short n : forall fuel k tables,
  0 <= k -> k + Z.of_nat n = ROTATION_MAX_UNITS -> (fuel <= n)%nat ->
  rot_table_loop fuel k tables = None.
Proof.
  unfold ROTATION_MAX_UNITS.
  induction n; intros fuel k tables Hk Hn Hfuel;
    (destruct fuel as [| fuel]; [reflexivity |]); [lia |].
  cbn [rot_table_loop]. unfold ROTATION_MAX_UNITS.
  replace (k <? 36000) with true by (symmetry; apply Z.ltb_lt; lia).
  cbv zeta. rewrite (Z.mod_small (k + 1) 65536) by lia.
  apply IHn; lia.
Qed.

Lemma rot_table_loop_more fuel : forall k tables r d,
  rot_table_loop fuel k tables = Some r ->
  rot_table_loop (fuel + d) k tables = Some r.
Proof.
  induction fuel; intros k tables r d H; [discriminate |].
  cbn [rot_table_loop Nat.add] in *.
  destruct (k <? ROTATION_MAX_UNITS); [apply IHfuel; exact H | exact H].
Qed.

(** X8: the table loop of [setup] ends after testing its condition
    36001 times, its 16-bit counter never wrapping.  It stores at
    every index [i] of [0, 36000) the values of [cosf] and [sinf] at
    the heading [from_degrees (ROTATION_RESOLUTION * i)] narrowed to
    [float], and writes nowhere else; these are the tables of the
    decoder [setup] returns with an initialized calibration, which
    depend neither on the calibration nor on the device model nor on
    what the tables held before. *)
Theorem setup_fills_rotation_tables
    (this0 : RawData) (calibration : Calibration) (device_model : option string) :
  exists cos_t sin_t,
    (forall fuel,
       rot_table_loop fuel 0 (cos_rot_table_ this0, sin_rot_table_ this0)
       = if (fuel <=? Z.to_nat 36000)%nat then None else Some (cos_t, sin_t))
    /\ (forall i, 0 <= i < 36000 ->
          cos_t i = cosf (F32.of_double
                            (from_degrees
                               (F64.of_float
                                  (F32.mul ROTATION_RESOLUTION (F32.of_int i)))))
          /\ sin_t i = sinf (F32.of_double
                               (from_degrees
                                  (F64.of_float
                                     (F32.mul ROTATION_RESOLUTION (F32.of_int i))))))
    /\ (forall i, ~ 0 <= i < 36000 ->
          cos_t i = cos_rot_table_ this0 i /\ sin_t i = sin_rot_table_ this0 i)
    /\ (initialized calibration = true ->
        forall i,
          cos_rot_table_ (snd (setup this0 calibration device_model)) i = cos_t i
          /\ sin_rot_table_ (snd (setup this0 calibration device_model)) i = sin_t i).
Proof.
  destruct (rot_table_loop_from (Z.to_nat 36000) (S (Z.to_nat 36000)) 0
              (cos_rot_table_ this0) (sin_rot_table_ this0)
              ltac:(lia) ltac:(unfold ROTATION_MAX_UNITS; lia) ltac:(lia))
    as [cos_t [sin_t [Hrun Htab]]].
  exists cos_t, sin_t. split; [| split; [| split]].
  - intros fuel. destruct (fuel <=? Z.to_nat 36000)%nat eqn:E.
    + apply Nat.leb_le in E.
      apply (rot_table_loop_short (Z.to_nat 36000)); [lia | unfold ROTATION_MAX_UNITS; lia | exact E].
    + apply Nat.leb_gt in E.
      replace fuel with (S (Z.to_nat 36000) + (fuel - S (Z.to_nat 36000)))%nat by lia.
      apply rot_table_loop_more. exact Hrun.
  - intros i Hi. destruct (Htab i) as [Hc Hs]. rewrite Hc, Hs.
    unfold ROTATION_MAX_UNITS, table_rotation.
    replace ((0 <=? i) && (i <? 36000)) with true; [split; reflexivity |].
    symmetry. apply andb_true_iff. rewrite Z.leb_le, Z.ltb_lt. lia.
  - intros i Hi. destruct (Htab i) as [Hc Hs]. rewrite Hc, Hs.
    unfold ROTATION_MAX_UNITS.
    replace ((0 <=? i) && (i <? 36000)) with false; [split; reflexivity |].
    symmetry. apply andb_false_iff. rewrite Z.leb_gt, Z.ltb_ge. lia.
  - intros Hinit i. destruct (Htab i) as [Hc Hs]. rewrite Hc, Hs.
    unfold setup. rewrite Hinit. cbn [negb].
    destruct (num_lasers calibration =? 16);
      [| destruct (String.eqb _ _)];
      cbn [snd cos_rot_table_ sin_rot_table_]; unfold in_table;
      split; reflexivity.
Qed.

(** ** The firing at the start of a block *)

Lemma round_to_int_int_float p :
  Zpos p < 2 ^ 24 -> IEEE.round_to_int (int_float 24 false p) = Zpos p.
Proof.
  intros Hp. destruct F32_format as [H1 H2].
  pose proof (digits2_pos_le F32.prec F32.emax H1 H2 p 24 ltac:(lia) Hp) as Hd.
  unfold int_float. set (j := 24 - Zpos (digits2_pos p)).
  assert (Hj : 0 <= j) by (unfold j; lia).
  pose proof (shl_pos F32.prec F32.emax H1 H2 p j Hj) as Hshl.
  cbn [IEEE.round_to_int].
  assert (Hmag : IEEE.round_mag (shl p j) (- j) = Zpos p).
  { unfold IEEE.round_mag. destruct j as [| pj | pj] eqn:Ej; [| | lia].
    - cbn [Z.opp]. rewrite Z.shiftl_0_r. reflexivity.
    - cbn [Z.opp]. rewrite Hshl.
      rewrite Z.shiftr_div_pow2 by lia. rewrite Z.div_mul by lia.
      rewrite Z.mul_pow2_bits_low by lia. lia. }
  rewrite Hmag. unfold IEEE.int_of_mag, IEEE.INT_MIN, IEEE.INT_MAX. cbn [cond_Zopp].
  replace ((- 2 ^ 31 <=? Zpos p) && (Zpos p <=? 2 ^ 31 - 1)) with true; [reflexivity |].
  symmetry. apply andb_true_iff. rewrite !Z.leb_le. lia.
Qed.

Lemma round_to_int_of_int n :
  0 <= n < 2 ^ 24 -> IEEE.round_to_int (F32.of_int n) = n.
Proof.
  intros Hn. destruct F32_format as [H1 H2]. unfold F32.of_int.
  rewrite (of_Z_int F32.prec F32.emax H1 H2 n) by (unfold F32.prec; lia).
  destruct n as [| p | p]; [reflexivity | | lia].
  apply round_to_int_int_float. lia.
Qed.

Lemma of_int_finite n : Z.abs n < 2 ^ 24 -> IEEE.is_finite (F32.of_int n) = true.
Proof.
  intros Hn. destruct F32_format as [H1 H2]. unfold F32.of_int.
  rewrite (of_Z_int F32.prec F32.emax H1 H2 n) by (unfold F32.prec; lia).
  destruct n; reflexivity.
Qed.

Lemma mul_zero_l s y :
  IEEE.is_finite y = true -> exists s', F32.mul (S754_zero s) y = S754_zero s'.
Proof. destruct y; try discriminate; intros _; eexists; reflexivity. Qed.

Lemma mul_zero_r x s :
  IEEE.is_finite x = true -> exists s', F32.mul x (S754_zero s) = S754_zero s'.
Proof. destruct x; try discriminate; intros _; eexists; reflexivity. Qed.

Lemma add_zero_zero s1 s2 :
  exists s, F32.add (S754_zero s1) (S754_zero s2) = S754_zero s.
Proof. destruct s1, s2; eexists; reflexivity. Qed.

Lemma div_zero_positive s y :
  F32.ltb (F32.of_int 0) y = true -> exists s', F32.div (S754_zero s) y = S754_zero s'.
Proof.
  destruct y as [sy | sy | | sy my ey]; try discriminate; intros _; eexists; reflexivity.
Qed.

Lemma round_add_zero x s :
  IEEE.is_finite x = true ->
  IEEE.round_to_int (F32.add x (S754_zero s)) = IEEE.round_to_int x.
Proof.
  destruct x as [sx | sx | | sx mx ex]; try discriminate; intros _.
  - destruct sx, s; reflexivity.
  - reflexivity.
Qed.

Lemma block_diff_bound pkt b : Z.abs (block_diff pkt b) < 36000.
Proof.
  unfold block_diff. destruct (b <? BLOCKS_PER_PACKET - 1); apply rotation_delta_bound.
Qed.

(** X9: with finite firing durations and a positive block duration,
    the lasers of the first firing of a block (firing sequence 0, laser
    index below [lasers_per_firing]) are not interpolated: the azimuth
    they are tested and looked up at is the block's recorded rotation
    reduced by 36000, which is the rotation itself when it is below
    36000, whatever the step to the next block. *)
Theorem first_firing_at_block_rotation
    (this : RawData) (pkt : VelodynePacket) (b l : Z) :
  IEEE.is_finite (firing_duration (vlp_spec_ this)) = true ->
  IEEE.is_finite (firing_seq_duration (vlp_spec_ this)) = true ->
  F32.ltb (F32.of_int 0) (block_duration (vlp_spec_ this)) = true ->
  0 <= l < lasers_per_firing (vlp_spec_ this) ->
  azimuth_corrected (vlp_spec_ this) (F32.of_int (block_rotation pkt b))
    (F32.of_int (block_diff pkt b)) 0 l
  = Z.rem (block_rotation pkt b) 36000
  /\ (block_rotation pkt b < 36000 ->
      azimuth_corrected (vlp_spec_ this) (F32.of_int (block_rotation pkt b))
        (F32.of_int (block_diff pkt b)) 0 l
      = block_rotation pkt b).
Proof.
  intros Hfd Hfsd Hbd Hl.
  pose proof (block_rotation_range pkt b) as Hrot.
  assert (Hmain : azimuth_corrected (vlp_spec_ this) (F32.of_int (block_rotation pkt b))
                    (F32.of_int (block_diff pkt b)) 0 l
                  = Z.rem (block_rotation pkt b) 36000).
  { unfold azimuth_corrected, azimuth_corrected_f.
    rewrite (Z.quot_small l (lasers_per_firing (vlp_spec_ this))) by lia.
    change (F32.of_int 0) with (S754_zero false).
    destruct (mul_zero_l false _ Hfd) as [s1 ->].
    destruct (mul_zero_l false _ Hfsd) as [s2 ->].
    destruct (add_zero_zero s1 s2) as [s3 ->].
    destruct (mul_zero_r (F32.of_int (block_diff pkt b)) s3) as [s4 ->].
    { apply of_int_finite. pose proof (block_diff_bound pkt b). lia. }
    destruct (div_zero_positive s4 _ Hbd) as [s5 ->].
    rewrite round_add_zero by (apply of_int_finite; lia).
    rewrite round_to_int_of_int by lia. reflexivity. }
  split; [exact Hmain |]. intros Hlt. rewrite Hmain. apply Z.rem_small. lia.
Qed.

(** ** The window [setParameters] leaves *)

(** X10: whatever the view direction and width, [setParameters] never
    leaves a collapsed window: [min_angle] and [max_angle] differ
    afterwards and the field-of-view test of the decode routines
    accepts both of them.  When the derived bounds differ they are
    stored as they are; when they are equal the test accepts afterwards
    exactly the azimuths from 0 to 36000, both included.  The range
    bounds are stored unchanged, and neither the calibration nor the
    profile, the timing table or the path flag is touched. *)
Theorem setParameters_window_not_empty
    (this : RawData) (min_r max_r view_direction view_width : double) :
  let this' := setParameters this min_r max_r view_direction view_width in
  let lo := derived_min_angle view_direction view_width in
  let hi := derived_max_angle view_direction view_width in
  min_angle (config_ this') <> max_angle (config_ this')
  /\ azimuth_in_view (config_ this') (min_angle (config_ this')) = true
  /\ azimuth_in_view (config_ this') (max_angle (config_ this')) = true
  /\ (lo <> hi -> min_angle (config_ this') = lo /\ max_angle (config_ this') = hi)
  /\ (lo = hi ->
      forall a, azimuth_in_view (config_ this') a = true <-> 0 <= a <= 36000)
  /\ min_range (config_ this') = min_r
  /\ max_range (config_ this') = max_r
  /\ calibration_ this' = calibration_ this
  /\ vlp_spec_ this' = vlp_spec_ this
  /\ timing_offsets_ this' = timing_offsets_ this
  /\ is_vlp_ this' = is_vlp_ this.
Proof.
  intros this' lo hi.
  pose proof (setParameters_angles this min_r max_r view_direction view_width)
    as [Hmin Hmax].
  fold this' lo hi in Hmin, Hmax.
  assert (Hview : forall a,
             azimuth_in_view (config_ this') a = true <->
             (min_angle (config_ this') <= a /\ a <= max_angle (config_ this')
              /\ min_angle (config_ this') < max_angle (config_ this'))
             \/ (max_angle (config_ this') < min_angle (config_ this')
                 /\ (a <= max_angle (config_ this') \/ min_angle (config_ this') <= a)))
    by (intros a; apply azimuth_in_view_spec).
  assert (Hrest : min_range (config_ this') = min_r
                  /\ max_range (config_ this') = max_r
                  /\ calibration_ this' = calibration_ this
                  /\ vlp_spec_ this' = vlp_spec_ this
                  /\ timing_offsets_ this' = timing_offsets_ this
                  /\ is_vlp_ this' = is_vlp_ this).
  { subst this'. unfold setParameters.
    destruct (hardware_angle _ =? hardware_angle _); repeat split. }
  destruct (lo =? hi) eqn:E.
  - apply Z.eqb_eq in E.
    split; [lia |]. split; [apply Hview; lia |]. split; [apply Hview; lia |].
    split; [intros Hne; contradiction |].
    split; [intros _ a; rewrite Hview; lia |].
    exact Hrest.
  - apply Z.eqb_neq in E.
    split; [lia |]. split; [apply Hview; lia |]. split; [apply Hview; lia |].
    split; [intros _; split; assumption |].
    split; [intros Heq; contradiction |].
    exact Hrest.
Qed.

(** ** The sweep a VLP decode returns *)

Lemma rotation_delta_in_range pkt b :
  block_rotation pkt b < 36000 -> 0 <= rotation_delta pkt b < 36000.
Proof.
  intros Hb. unfold rotation_delta.
  pose proof (block_rotation_range pkt b). pose proof (block_rotation_range pkt (b + 1)).
  rewrite Z.rem_mod_nonneg by lia. apply Z.mod_pos_bound. lia.
Qed.

Lemma sweep_in_range pkt n :
  (forall b, 0 <= b < Z.of_nat n -> block_rotation pkt b < 36000) ->
  0 <= sweep pkt n <= 35999 * Z.of_nat n.
Proof.
  induction n; intros H.
  - cbn. lia.
  - cbn [sweep].
    pose proof (rotation_delta_in_range pkt (Z.of_nat n) (H (Z.of_nat n) ltac:(lia))).
    specialize (IHn ltac:(intros b Hb; apply H; lia)). lia.
Qed.

Lemma of_int_not_negative n :
  0 <= n < 2 ^ 24 -> F32.ltb (F32.of_int n) (F32.of_int 0) = false.
Proof.
  intros Hn. destruct F32_format as [H1 H2]. unfold F32.of_int at 1.
  rewrite (of_Z_int F32.prec F32.emax H1 H2 n) by (unfold F32.prec; lia).
  destruct n as [| p | p]; [reflexivity | reflexivity | lia].
Qed.

(** X11: on a VLP packet with valid headers whose first eleven blocks
    report rotations below 36000, a decode call returns a whole number
    of hundredths of a degree between 0 and 395989; the value is not
    negative, so it cannot be taken for the -1 that reports a rejected
    packet. *)
Theorem unpack_vlp_sweep_not_negative
    (this : RawData) (pkt : VelodynePacket) (pc : VPointCloud) :
  is_vlp_ this = true ->
  headers_valid pkt BLOCKS_PER_PACKET ->
  calibration_covers this ->
  (forall b, 0 <= b < 11 -> block_rotation pkt b < 36000) ->
  exists n,
    fst (run (unpackAndAdd this pkt) pc) = Returned (F32.of_int n)
    /\ 0 <= n <= 395989
    /\ F32.ltb (F32.of_int n) (F32.of_int 0) = false
    /\ F32.of_int n <> minus_one.
Proof.
  intros Hvlp Hhdr Hcal Hrot. exists (sweep pkt 11).
  destruct (blocks_append_some this pkt Hcal) as [g Hg].
  unfold unpackAndAdd. rewrite Hvlp, (unpack_vlp_valid this pkt g pc Hhdr Hg).
  pose proof (sweep_in_range pkt 11 ltac:(intros b Hb; apply Hrot; lia)) as Hs.
  assert (Hnn : F32.ltb (F32.of_int (sweep pkt 11)) (F32.of_int 0) = false)
    by (apply of_int_not_negative; lia).
  split; [reflexivity |]. split; [lia |]. split; [exact Hnn |].
  intros E. rewrite E, minus_one_negative in Hnn. discriminate.
Qed.

Lemma sweep_congruent pkt n :
  exists q, sweep pkt n = block_rotation pkt (Z.of_nat n) - block_rotation pkt 0 + 36000 * q.
Proof.
  induction n.
  - exists 0. cbn. lia.
  - destruct IHn as [q Hq]. cbn [sweep]. unfold rotation_delta.
    pose proof (Z.quot_rem'
                  (36000 + block_rotation pkt (Z.of_nat n + 1)
                   - block_rotation pkt (Z.of_nat n)) 36000) as Hqr.
    exists (q + 1 - Z.quot (36000 + block_rotation pkt (Z.of_nat n + 1)
                            - block_rotation pkt (Z.of_nat n)) 36000).
    rewrite Nat2Z.inj_succ. unfold Z.succ. lia.
Qed.

Lemma sweep_monotone pkt n :
  (forall b, 0 <= b < Z.of_nat n ->
     block_rotation pkt b <= block_rotation pkt (b + 1) < 36000) ->
  sweep pkt n = block_rotation pkt (Z.of_nat n) - block_rotation pkt 0.
Proof.
  induction n; intros H.
  - cbn. lia.
  - cbn [sweep]. rewrite IHn by (intros b Hb; apply H; lia).
    unfold rotation_delta. pose proof (H (Z.of_nat n) ltac:(lia)) as Hn.
    pose proof (block_rotation_range pkt (Z.of_nat n)).
    rewrite Z.rem_mod_nonneg by lia.
    replace (36000 + block_rotation pkt (Z.of_nat n + 1) - block_rotation pkt (Z.of_nat n))
      with (block_rotation pkt (Z.of_nat n + 1) - block_rotation pkt (Z.of_nat n)
            + 1 * 36000) by lia.
    rewrite Z.mod_add by lia. rewrite Z.mod_small by lia.
    rewrite Nat2Z.inj_succ. unfold Z.succ. lia.
Qed.

(** Two rotations below 36000: the delta is their difference, plus
    36000 when the rotation falls. *)
Lemma rotation_delta_cases pkt b :
  block_rotation pkt b < 36000 -> block_rotation pkt (b + 1) < 36000 ->
  (block_rotation pkt b <= block_rotation pkt (b + 1)
   /\ rotation_delta pkt b = block_rotation pkt (b + 1) - block_rotation pkt b)
  \/ (block_rotation pkt (b + 1) < block_rotation pkt b
      /\ rotation_delta pkt b
         = block_rotation pkt (b + 1) - block_rotation pkt b + 36000).
Proof.
  intros Hb Hb'. unfold rotation_delta.
  pose proof (block_rotation_range pkt b). pose proof (block_rotation_range pkt (b + 1)).
  rewrite Z.rem_mod_nonneg by lia.
  destruct (Z_le_gt_dec (block_rotation pkt b) (block_rotation pkt (b + 1))) as [Hle | Hgt].
  - left. split; [exact Hle |].
    replace (36000 + block_rotation pkt (b + 1) - block_rotation pkt b)
      with (block_rotation pkt (b + 1) - block_rotation pkt b + 1 * 36000) by lia.
    rewrite Z.mod_add by lia. apply Z.mod_small. lia.
  - right. split; [lia |]. rewrite Z.mod_small by lia. lia.
Qed.

(** With rotations below 36000 the sweep is at least the difference of
    the last and the first rotation, and is that difference only when
    no rotation falls. *)
Lemma sweep_wraps pkt n :
  (forall b, 0 <= b <= Z.of_nat n -> block_rotation pkt b < 36000) ->
  block_rotation pkt (Z.of_nat n) - block_rotation pkt 0 <= sweep pkt n
  /\ (sweep pkt n = block_rotation pkt (Z.of_nat n) - block_rotation pkt 0 ->
      forall b, 0 <= b < Z.of_nat n ->
        block_rotation pkt b <= block_rotation pkt (b + 1)).
Proof.
  induction n; intros H.
  - cbn. split; [lia |]. intros _ b Hb. lia.
  - destruct (IHn ltac:(intros b Hb; apply H; lia)) as [Hlow Hconv].
    cbn [sweep]. rewrite Nat2Z.inj_succ. unfold Z.succ.
    pose proof (rotation_delta_cases pkt (Z.of_nat n)
                  (H (Z.of_nat n) ltac:(lia)) (H (Z.of_nat n + 1) ltac:(lia))) as Hc.
    split; [lia |]. intros Heq b Hb.
    destruct (Z.eq_dec b (Z.of_nat n)) as [-> | Hne].
    + lia.
    + apply Hconv; lia.
Qed.

(** X12: the value a VLP decode returns for a packet with valid headers
    differs from the rotation of the last block minus the rotation of
    the first by a multiple of 36000; when the rotations do not
    decrease from block to block and stay below 36000, it is that
    difference; and for a packet whose twelve rotations are all below
    36000 it is that difference if and only if the rotations do not
    decrease from block to block. *)
Theorem unpack_vlp_sweep_telescopes
    (this : RawData) (pkt : VelodynePacket) (pc : VPointCloud) :
  is_vlp_ this = true ->
  headers_valid pkt BLOCKS_PER_PACKET ->
  calibration_covers this ->
  exists n,
    fst (run (unpackAndAdd this pkt) pc) = Returned (F32.of_int n)
    /\ (exists q, n = block_rotation pkt 11 - block_rotation pkt 0 + 36000 * q)
    /\ ((forall b, 0 <= b < 11 ->
           block_rotation pkt b <= block_rotation pkt (b + 1) < 36000) ->
        n = block_rotation pkt 11 - block_rotation pkt 0)
    /\ ((forall b, 0 <= b <= 11 -> block_rotation pkt b < 36000) ->
        (n = block_rotation pkt 11 - block_rotation pkt 0
         <-> forall b, 0 <= b < 11 ->
               block_rotation pkt b <= block_rotation pkt (b + 1))).
Proof.
  intros Hvlp Hhdr Hcal. exists (sweep pkt 11).
  destruct (blocks_append_some this pkt Hcal) as [g Hg].
  unfold unpackAndAdd. rewrite Hvlp, (unpack_vlp_valid this pkt g pc Hhdr Hg).
  split; [reflexivity |]. split; [| split].
  - exact (sweep_congruent pkt 11).
  - intros Hmono. apply (sweep_monotone pkt 11). intros b Hb. apply Hmono. lia.
  - intros Hrot. split.
    + intros Heq. apply (proj2 (sweep_wraps pkt 11 ltac:(intros b Hb; apply Hrot; lia))).
      exact Heq.
    + intros Hmono. apply (sweep_monotone pkt 11). intros b Hb.
      split; [apply Hmono; lia | apply Hrot; lia].
Qed.

(** ** Slots without a return *)

(** Every point of a decode call is the point of a channel slot. *)
Lemma unpackAndAdd_appends_slots (P : VPoint.t -> Prop) this pkt :
  (forall i k c p,
     In c (laser_corrections (calibration_ this)) ->
     legacy_scan this pkt i k c = Some p -> P p) ->
  (forall az b s k c p,
     In c (laser_corrections (calibration_ this)) ->
     vlp_scan_at this pkt az b s k c = Some p -> P p) ->
  appends P (unpackAndAdd this pkt).
Proof.
  intros Hlegacy Hvlp. unfold unpackAndAdd. destruct (is_vlp_ this).
  - unfold unpack_vlp. apply appends_bind; [| intros; apply appends_ret].
    apply appends_for_. intros b [last slice] Hb. unfold unpack_vlp_block.
    destruct (negb _); [apply appends_return_ |].
    destruct (block_azimuth_diff pkt b last slice) as [[azd last'] slice'].
    apply appends_bind; [| intros; apply appends_ret].
    unfold vlp_block. apply appends_for_. intros s k Hs.
    apply appends_for_. intros l k' Hl.
    apply appends_at_bind. intros c Hin.
    apply appends_bind; [| intros; apply appends_ret].
    destruct (vlp_scan this pkt _ azd b s l k' c) as [p |] eqn:E;
      [| apply appends_ret].
    apply appends_push_back. exact (Hvlp _ _ _ _ _ _ Hin E).
  - unfold unpack_legacy. apply appends_bind; [| intros; apply appends_ret].
    apply appends_for_. intros i [] Hi. unfold unpack_legacy_block.
    apply appends_bind; [| intros; apply appends_ret].
    apply appends_for_. intros j k Hj.
    apply appends_at_bind. intros c Hin.
    apply appends_bind; [| intros; apply appends_ret].
    destruct (legacy_scan this pkt i k c) as [p |] eqn:E; [| apply appends_ret].
    apply appends_push_back. exact (Hlegacy _ _ _ _ Hin E).
Qed.

(** A distance of zero is outside a range gate with a positive lower
    bound. *)
Lemma zero_out_of_range this s :
  F64.ltb (F64.of_int 0) (min_range (config_ this)) = true ->
  pointInRange this (S754_zero s) = false.
Proof.
  intros Hpos. unfold pointInRange. cbn [F64.of_float IEEE.convert].
  unfold F64.of_float, IEEE.convert.
  replace (F64.leb (min_range (config_ this)) (S754_zero s)) with false; [reflexivity |].
  symmetry. apply not_true_is_false. intros Hle. unfold F64.leb, F64.ltb in *.
  destruct (SFltb_rank _ _ Hpos) as [z [m [Hz [Hm Hlt]]]].
  destruct (SFleb_rank _ _ Hle) as [m' [z' [Hm' [Hz' Hnlt]]]].
  assert (m' = m) by congruence. subst m'.
  change (F64.of_int 0) with (S754_zero false) in Hz.
  cbn [rank] in Hz, Hz'. assert (z' = z) by congruence. subst z'. contradiction.
Qed.

Lemma zero_distance res dc :
  IEEE.is_finite res = true -> (exists s, dc = S754_zero s) ->
  exists s, F32.add (F32.mul (F32.of_int 0) res) dc = S754_zero s.
Proof.
  intros Hres [s ->]. change (F32.of_int 0) with (S754_zero false).
  destruct (mul_zero_l false res Hres) as [s1 ->]. apply add_zero_zero.
Qed.

(** X13: with a positive [min_range] and finite distance resolutions, a
    channel slot whose distance word is 0 and whose laser has a zero
    [dist_correction] yields no point, in either path; so when every
    entry of the calibration has a zero [dist_correction], every point a
    decode call appends was decoded from a slot with a distance word
    other than 0. *)
Theorem empty_returns_are_dropped
    (this : RawData) (pkt : VelodynePacket) (pc : VPointCloud) :
  F64.ltb (F64.of_int 0) (min_range (config_ this)) = true ->
  IEEE.is_finite DISTANCE_RESOLUTION = true ->
  IEEE.is_finite (distance_resolution (vlp_spec_ this)) = true ->
  (forall block k corrections,
     block_uint pkt block k = 0 ->
     (exists s, dist_correction corrections = S754_zero s) ->
     legacy_scan this pkt block k corrections = None
     /\ forall azimuth firing_seq,
          vlp_scan_at this pkt azimuth block firing_seq k corrections = None)
  /\ ((forall c, In c (laser_corrections (calibration_ this)) ->
         exists s, dist_correction c = S754_zero s) ->
      exists new,
        snd (run (unpackAndAdd this pkt) pc) = append_points pc new
        /\ Forall
             (fun p =>
                exists block k corrections,
                  block_uint pkt block k <> 0
                  /\ (legacy_scan this pkt block k corrections = Some p
                      \/ exists azimuth firing_seq,
                           vlp_scan_at this pkt azimuth block firing_seq k corrections
                           = Some p))
             new).
Proof.
  intros Hmin Hres Hres'.
  assert (Hslot : forall block k corrections,
             block_uint pkt block k = 0 ->
             (exists s, dist_correction corrections = S754_zero s) ->
             legacy_scan this pkt block k corrections = None
             /\ forall azimuth firing_seq,
                  vlp_scan_at this pkt azimuth block firing_seq k corrections = None).
  { intros block k c Hzero Hdc. split.
    - destruct (legacy_scan this pkt block k c) as [p |] eqn:E; [| reflexivity].
      apply legacy_scan_gates in E. rewrite Hzero in E.
      destruct (zero_distance _ _ Hres Hdc) as [s Hs]. rewrite Hs in E.
      rewrite (zero_out_of_range this s Hmin), andb_false_r in E. discriminate.
    - intros az fs.
      destruct (vlp_scan_at this pkt az block fs k c) as [p |] eqn:E; [| reflexivity].
      apply vlp_scan_at_gates in E. rewrite Hzero in E.
      destruct (zero_distance _ _ Hres' Hdc) as [s Hs]. rewrite Hs in E.
      rewrite (zero_out_of_range this s Hmin), andb_false_r in E. discriminate. }
  split; [exact Hslot |]. intros Hcal. rewrite snd_run.
  assert (H : appends (from_return this pkt) (unpackAndAdd this pkt)); [| exact (H pc)].
  apply unpackAndAdd_appends_slots.
  - intros i k c p Hin E. exists i, k, c. split; [| left; exact E].
    intros Hzero. destruct (Hslot i k c Hzero (Hcal c Hin)) as [Hnone _]. congruence.
  - intros az b s k c p Hin E. exists b, k, c. split; [| right; exists az, s; exact E].
    intros Hzero. destruct (Hslot b k c Hzero (Hcal c Hin)) as [_ Hnone].
    rewrite Hnone in E. discriminate.
Qed.

(** ** Order of the initialisation calls *)

(** X14: [setup] and [setParameters] do not interfere: called in either
    order they leave the same decoder, and [setup] returns the same
    status.  A second [setParameters] overrides the first entirely. *)
Theorem setup_setParameters_commute
    (this : RawData) (calibration : Calibration) (device_model : option string)
    (min_r max_r view_direction view_width : double) :
  snd (setup (setParameters this min_r max_r view_direction view_width)
         calibration device_model)
  = setParameters (snd (setup this calibration device_model))
      min_r max_r view_direction view_width
  /\ fst (setup (setParameters this min_r max_r view_direction view_width)
            calibration device_model)
     = fst (setup this calibration device_model)
  /\ forall min_r' max_r' view_direction' view_width',
       setParameters (setParameters this min_r' max_r' view_direction' view_width')
         min_r max_r view_direction view_width
       = setParameters this min_r max_r view_direction view_width.
Proof.
  destruct this as [[model maxr minr mina maxa tmin tmax] cal0 spec0 offsets0 vlp0 sin0 cos0].
  unfold setup, setParameters.
  cbn [config_ calibration_ vlp_spec_ timing_offsets_ is_vlp_ sin_rot_table_
       cos_rot_table_ deviceModel].
  set (lo := hardware_angle
               (positive_modulo
                  (F64.add view_direction (F64.div view_width (F64.of_int 2))))).
  set (hi := hardware_angle
               (positive_modulo
                  (F64.sub view_direction (F64.div view_width (F64.of_int 2))))).
  set (table := getVLP32TimingOffsets).
  split; [| split].
  - destruct (initialized calibration); cbn [negb].
    + destruct (lo =? hi); destruct device_model as [m |];
        cbn [config_ deviceModel];
        (destruct (num_lasers calibration =? 16);
         [| destruct (String.eqb _ "VLP32")]);
        cbn [config_ calibration_ vlp_spec_ timing_offsets_ is_vlp_ sin_rot_table_
             cos_rot_table_ deviceModel max_range min_range min_angle max_angle
             tmp_min_angle tmp_max_angle snd];
        match goal with |- ?a = ?a => reflexivity end.
    + destruct (lo =? hi); destruct device_model as [m |];
        cbn [config_ calibration_ vlp_spec_ timing_offsets_ is_vlp_ sin_rot_table_
             cos_rot_table_ deviceModel max_range min_range min_angle max_angle
             tmp_min_angle tmp_max_angle snd];
        match goal with |- ?a = ?a => reflexivity end.
  - destruct (initialized calibration); cbn [negb].
    + destruct (lo =? hi); destruct device_model as [m |];
        cbn [config_ deviceModel];
        (destruct (num_lasers calibration =? 16);
         [| destruct (String.eqb _ "VLP32")]);
        cbn [fst]; match goal with |- ?a = ?a => reflexivity end.
    + destruct (lo =? hi); cbn [fst]; match goal with |- ?a = ?a => reflexivity end.
  - intros min_r' max_r' view_direction' view_width'.
    destruct (hardware_angle _ =? hardware_angle _); destruct (lo =? hi);
      cbn [config_ calibration_ vlp_spec_ timing_offsets_ is_vlp_ sin_rot_table_
           cos_rot_table_ deviceModel];
      match goal with |- ?a = ?a => reflexivity end.
Qed.

(** ** Magnitudes through the floating-point operations *)

Section FloatBounds.

Variables prec emax : Z.
Hypothesis Hprec : 0 < prec.
Hypothesis Hemax : prec < emax.

Lemma shr_m_of_loc m l : shr_m (shr_record_of_loc m l) = m.
Proof using Type. destruct l as [| []]; reflexivity. Qed.

Lemma below_le E E' x : E <= E' -> below E x -> below E' x.
Proof using Type. destruct x; cbn [below]; intros; try assumption; lia. Qed.

Lemma shr_fexp_round_bound m e l mrs e' E :
  0 <= m -> e <= emax - prec ->
  Zdigits2 m + e + 1 <= E -> emin prec emax + 1 <= E -> E <= emax ->
  shr_fexp prec emax m e l = (mrs, e') ->
  0 <= round_nearest_even (shr_m mrs) (loc_of_shr_record mrs)
  /\ e' <= emax - prec
  /\ Zdigits2 (round_nearest_even (shr_m mrs) (loc_of_shr_record mrs)) + e' <= E.
Proof using Hprec Hemax.
  intros Hm He HD Hmin HE. unfold shr_fexp, shr.
  pose proof (fexp_le prec emax Hprec Hemax (Zdigits2 m + e) ltac:(lia)) as Hfe.
  pose proof (Zdigits2_bound prec emax Hprec Hemax m) as Hb.
  pose proof (Zdigits2_nonneg prec emax Hprec Hemax m) as Hd0.
  rewrite Z.abs_eq in Hb by lia.
  destruct (fexp prec emax (Zdigits2 m + e) - e) as [| n | n] eqn:En;
    intros H; injection H as <- <-;
    match goal with
    | |- context [round_nearest_even ?q ?l] =>
        pose proof (round_nearest_even_range prec emax Hprec Hemax q l) as Hr;
        set (mr := round_nearest_even q l) in *
    end.
  - rewrite shr_m_of_loc in Hr. split; [lia |]. split; [lia |].
    assert (Zdigits2 mr <= Zdigits2 m + 1).
    { apply (Zdigits2_le prec emax Hprec Hemax); [lia |]. rewrite Z.abs_eq by lia.
      rewrite Z.pow_add_r by lia. lia. }
    lia.
  - assert (Hq := shr_m_iter prec emax Hprec Hemax n (shr_record_of_loc m l)
                    ltac:(rewrite shr_m_of_loc; lia)).
    rewrite shr_m_of_loc in Hq.
    set (q := shr_m (iter_pos shr_1 n (shr_record_of_loc m l))) in *.
    assert (Hq0 : 0 <= q) by (rewrite Hq; apply Z.div_pos; lia).
    pose proof (Zdigits2_div prec emax Hprec Hemax m (Zpos n) Hm ltac:(lia)) as Hd.
    rewrite <- Hq in Hd.
    pose proof (Zdigits2_bound prec emax Hprec Hemax q) as Hbq.
    rewrite Z.abs_eq in Hbq by lia.
    set (K := Z.max 0 (Zdigits2 m - Zpos n)) in *.
    assert (HK : 2 ^ Zdigits2 q <= 2 ^ K) by (apply Z.pow_le_mono_r; lia).
    assert (Hmr : Zdigits2 mr <= K + 1).
    { apply (Zdigits2_le prec emax Hprec Hemax); [lia |]. rewrite Z.abs_eq by lia.
      rewrite Z.pow_add_r by lia. lia. }
    split; [lia |]. split; [lia |].
    unfold fexp in *. lia.
  - rewrite shr_m_of_loc in Hr. split; [lia |]. split; [lia |].
    assert (Zdigits2 mr <= Zdigits2 m + 1).
    { apply (Zdigits2_le prec emax Hprec Hemax); [lia |]. rewrite Z.abs_eq by lia.
      rewrite Z.pow_add_r by lia. lia. }
    lia.
Qed.

(** The result of [binary_round_aux] is zero or finite with the given sign, below 2^E *)
Lemma binary_round_aux_bound s m e l E :
  0 <= m -> e <= emax - prec ->
  Zdigits2 m + e + 1 <= E -> emin prec emax + 1 <= E -> E <= emax ->
  match binary_round_aux prec emax s m e l with
  | S754_zero s' => s' = s
  | S754_finite s' m' e' => s' = s /\ Zpos (digits2_pos m') + e' <= E
  | _ => False
  end.
Proof using Hprec Hemax.
  intros Hm He HD Hmin HE. unfold binary_round_aux.
  destruct (shr_fexp prec emax m e l) as [mrs' e'] eqn:E1.
  destruct (shr_fexp_round_bound m e l mrs' e' E Hm He HD Hmin HE E1) as (Hmr & He' & HD').
  set (mr := round_nearest_even (shr_m mrs') (loc_of_shr_record mrs')) in *.
  destruct (shr_fexp prec emax mr e' loc_Exact) as [mrs'' e''] eqn:E2.
  pose proof (fexp_le prec emax Hprec Hemax (Zdigits2 mr + e') ltac:(lia)) as Hfe.
  revert E2. unfold shr_fexp, shr. cbn [shr_record_of_loc].
  destruct (fexp prec emax (Zdigits2 mr + e') - e') as [| n | n] eqn:En;
    intros H; injection H as <- <-; cbn [shr_m].
  - destruct mr as [| p | p]; [reflexivity | | lia].
    replace (e' <=? emax - prec) with true by (symmetry; apply Z.leb_le; lia).
    cbn [Zdigits2] in HD'. split; [reflexivity | lia].
  - assert (Hq := shr_m_iter prec emax Hprec Hemax n
                    (Build_shr_record mr false false) ltac:(cbn [shr_m]; lia)).
    cbn [shr_m] in Hq.
    pose proof (Zdigits2_div prec emax Hprec Hemax mr (Zpos n) Hmr ltac:(lia)) as Hd.
    rewrite <- Hq in Hd.
    destruct (shr_m (iter_pos shr_1 n (Build_shr_record mr false false)))
      as [| p | p] eqn:Ep.
    + reflexivity.
    + replace (e' + Zpos n <=? emax - prec) with true by (symmetry; apply Z.leb_le; lia).
      cbn [Zdigits2] in Hd. split; [reflexivity | lia].
    + assert (0 <= mr / 2 ^ Zpos n) by (apply Z.div_pos; lia). lia.
  - destruct mr as [| p | p]; [reflexivity | | lia].
    replace (e' <=? emax - prec) with true by (symmetry; apply Z.leb_le; lia).
    cbn [Zdigits2] in HD'. split; [reflexivity | lia].
Qed.

Lemma digits2_mul mx my :
  Zpos (digits2_pos (mx * my)) <= Zpos (digits2_pos mx) + Zpos (digits2_pos my).
Proof using Hprec Hemax.
  apply (digits2_pos_le prec emax Hprec Hemax); [lia |].
  pose proof (digits2_pos_bounds prec emax Hprec Hemax mx) as [_ Hx].
  pose proof (digits2_pos_bounds prec emax Hprec Hemax my) as [_ Hy].
  rewrite Pos2Z.inj_mul, Z.pow_add_r by lia. nia.
Qed.

(** Product of two non-negative numbers. *)
Lemma mul_bounded Ex Ey E x y :
  nonneg x -> below Ex x -> nonneg y -> below Ey y ->
  Ex + Ey + 1 <= E -> emin prec emax + 1 <= E -> E <= emax - prec ->
  nonneg (SFmul prec emax x y) /\ below E (SFmul prec emax x y).
Proof using Hprec Hemax.
  intros Hx Bx Hy By HE Hmin Hmax.
  destruct x as [sx | sx | | [] mx ex]; cbn [nonneg] in Hx; try contradiction;
    destruct y as [sy | sy | | [] my ey]; cbn [nonneg] in Hy; try contradiction;
    cbn [SFmul below nonneg]; try (split; exact I).
  cbn [below] in Bx, By. cbn [xorb].
  pose proof (digits2_mul mx my) as Hd.
  pose proof (binary_round_aux_bound false (Zpos (mx * my)) (ex + ey) loc_Exact E
                ltac:(lia) ltac:(lia) ltac:(cbn [Zdigits2]; lia) Hmin ltac:(lia)) as H.
  destruct (binary_round_aux prec emax false (Zpos (mx * my)) (ex + ey) loc_Exact)
    as [s | s | | s m e]; try contradiction.
  - split; exact I.
  - destruct H as [-> H]. split; [exact I | exact H].
Qed.

Lemma binary_round_bound s m e E :
  Zpos (digits2_pos m) + e + 1 <= E -> emin prec emax + 1 <= E -> E <= emax ->
  match binary_round prec emax s m e with
  | S754_zero s' => s' = s
  | S754_finite s' m' e' => s' = s /\ Zpos (digits2_pos m') + e' <= E
  | _ => False
  end.
Proof using Hprec Hemax.
  intros HD Hmin HE. unfold binary_round.
  rewrite (shl_align_eq prec emax Hprec Hemax).
  pose proof (fexp_le prec emax Hprec Hemax (Zpos (digits2_pos m) + e) ltac:(lia)) as Hfe.
  set (e0 := fexp prec emax (Zpos (digits2_pos m) + e)) in *.
  apply binary_round_aux_bound; try lia.
  cbn [Zdigits2].
  destruct (Z_le_gt_dec e e0).
  - replace (shl m (e - e0)) with m
      by (destruct (e - e0) eqn:E0; cbn [shl]; [reflexivity | lia | reflexivity]).
    lia.
  - rewrite (digits2_shl prec emax Hprec Hemax) by lia. lia.
Qed.

(** Sum of two non-negative numbers. *)
Lemma add_bounded E x y :
  nonneg x -> below E x -> nonneg y -> below E y ->
  emin prec emax <= E -> E + 2 <= emax ->
  nonneg (SFadd prec emax x y) /\ below (E + 2) (SFadd prec emax x y).
Proof using Hprec Hemax.
  intros Hx Bx Hy By Hmin Hmax.
  destruct x as [sx | sx | | [] mx ex]; cbn [nonneg] in Hx; try contradiction;
    destruct y as [sy | sy | | [] my ey]; cbn [nonneg] in Hy; try contradiction;
    cbn [SFadd].
  - destruct sx, sy; split; exact I.
  - split; [exact I | apply (below_le E); [lia | exact By]].
  - split; [exact I | apply (below_le E); [lia | exact Bx]].
  - cbn [below] in Bx, By. rewrite !(shl_align_eq prec emax Hprec Hemax). cbn [fst cond_Zopp].
    set (ez := Z.min ex ey).
    pose proof (shl_pos prec emax Hprec Hemax mx (ex - ez) ltac:(lia)) as HX.
    pose proof (shl_pos prec emax Hprec Hemax my (ey - ez) ltac:(lia)) as HY.
    pose proof (digits2_pos_bounds prec emax Hprec Hemax mx) as [_ Hbx].
    pose proof (digits2_pos_bounds prec emax Hprec Hemax my) as [_ Hby].
    assert (HX' : Zpos (shl mx (ex - ez)) < 2 ^ (E - ez)).
    { rewrite HX.
      apply Z.lt_le_trans with (2 ^ Zpos (digits2_pos mx) * 2 ^ (ex - ez)).
      - apply Z.mul_lt_mono_pos_r; [apply Z.pow_pos_nonneg; lia | exact Hbx].
      - rewrite <- Z.pow_add_r by lia. apply Z.pow_le_mono_r; lia. }
    assert (HY' : Zpos (shl my (ey - ez)) < 2 ^ (E - ez)).
    { rewrite HY.
      apply Z.lt_le_trans with (2 ^ Zpos (digits2_pos my) * 2 ^ (ey - ez)).
      - apply Z.mul_lt_mono_pos_r; [apply Z.pow_pos_nonneg; lia | exact Hby].
      - rewrite <- Z.pow_add_r by lia. apply Z.pow_le_mono_r; lia. }
    change (Zpos (shl mx (ex - ez)) + Zpos (shl my (ey - ez)))
      with (Zpos (shl mx (ex - ez) + shl my (ey - ez))).
    cbn [binary_normalize].
    assert (Hd : Zpos (digits2_pos (shl mx (ex - ez) + shl my (ey - ez))) <= E - ez + 1).
    { apply (digits2_pos_le prec emax Hprec Hemax); [lia |].
      rewrite Pos2Z.inj_add, Z.pow_add_r by lia. lia. }
    pose proof (binary_round_bound false (shl mx (ex - ez) + shl my (ey - ez)) ez (E + 2)
                  ltac:(lia) ltac:(lia) ltac:(lia)) as H.
    destruct (binary_round prec emax false _ ez) as [s | s | | s m e]; try contradiction.
    + split; exact I.
    + destruct H as [-> H]. split; [exact I | exact H].
Qed.

(** Quotient of a non-negative number by a number of at least [2^(L-1)]. *)
Lemma div_bounded Ex L E x y :
  nonneg x -> below Ex x -> at_least L y ->
  Ex - L + 2 <= E -> emin prec emax + 1 <= E -> E <= emax ->
  nonneg (SFdiv prec emax x y) /\ below E (SFdiv prec emax x y).
Proof using Hprec Hemax.
  intros Hx Bx Hy HE Hmin Hmax.
  destruct y as [sy | sy | | [] my ey]; cbn [at_least] in Hy; try contradiction.
  destruct x as [sx | sx | | [] mx ex]; cbn [nonneg] in Hx; try contradiction;
    cbn [SFdiv].
  - split; exact I.
  - cbn [below] in Bx. unfold SFdiv_core_binary. cbn [Zdigits2 xorb].
    set (d1 := Zpos (digits2_pos mx)) in *. set (d2 := Zpos (digits2_pos my)) in *.
    pose proof (fexp_le prec emax Hprec Hemax (d1 + ex - (d2 + ey)) ltac:(lia)) as Hfe.
    set (e' := Z.min (fexp prec emax (d1 + ex - (d2 + ey))) (ex - ey)) in *.
    set (s := ex - ey - e').
    assert (Hs : 0 <= s) by (unfold s, e'; lia).
    set (m' := match s with
               | 0 => Zpos mx
               | Zpos _ => Z.shiftl (Zpos mx) s
               | Zneg _ => 0
               end).
    assert (Hm' : m' = Zpos mx * 2 ^ s).
    { unfold m'. destruct s as [| p | p] eqn:Es; [rewrite Z.pow_0_r; lia | | lia].
      apply Z.shiftl_mul_pow2. lia. }
    destruct (Z.div_eucl m' (Zpos my)) as [q r] eqn:Ediv.
    assert (Hq : q = m' / Zpos my) by (unfold Z.div; rewrite Ediv; reflexivity).
    pose proof (digits2_pos_bounds prec emax Hprec Hemax mx) as [_ Hbx].
    pose proof (digits2_pos_bounds prec emax Hprec Hemax my) as [Hby _].
    fold d1 in Hbx. fold d2 in Hby.
    assert (Hd2 : 1 <= d2) by (unfold d2; lia).
    assert (Hq0 : 0 <= q) by (rewrite Hq; apply Z.div_pos; lia).
    set (K := Z.max 0 (d1 + s - d2 + 1)).
    assert (HqK : q < 2 ^ K).
    { rewrite Hq. apply Z.div_lt_upper_bound; [lia |].
      apply Z.lt_le_trans with (2 ^ (d1 + s)).
      - rewrite Hm', Z.pow_add_r by lia.
        apply Z.mul_lt_mono_pos_r; [apply Z.pow_pos_nonneg; lia | exact Hbx].
      - apply Z.le_trans with (2 ^ (d2 - 1) * 2 ^ K).
        + rewrite <- Z.pow_add_r by lia. apply Z.pow_le_mono_r; lia.
        + apply Z.mul_le_mono_nonneg_r; [apply Z.pow_nonneg; lia | exact Hby]. }
    assert (HdK : Zdigits2 q <= K).
    { apply (Zdigits2_le prec emax Hprec Hemax); [lia |]. rewrite Z.abs_eq by lia. exact HqK. }
    assert (Hbound : Zdigits2 q + e' + 1 <= E).
    { unfold K in HdK. unfold fexp in *. lia. }
    pose proof (binary_round_aux_bound false q e' (new_location (Zpos my) r) E
                  Hq0 ltac:(lia) Hbound Hmin Hmax) as H.
    destruct (binary_round_aux prec emax false q e' (new_location (Zpos my) r))
      as [s0 | s0 | | s0 m0 e0]; try contradiction.
    + split; exact I.
    + destruct H as [-> H]. split; [exact I | exact H].
Qed.

(** A non-negative number below [2^30] rounds to an [int] that is not
    negative. *)
Lemma round_to_int_nonneg x :
  nonneg x -> below 30 x -> 0 <= IEEE.round_to_int x.
Proof using Hprec Hemax.
  intros Hx Bx. destruct x as [sx | sx | | [] m e]; cbn [nonneg] in Hx; try contradiction.
  - cbn. lia.
  - cbn [below] in Bx. cbn [IEEE.round_to_int].
    pose proof (digits2_pos_bounds prec emax Hprec Hemax m) as [_ Hb].
    assert (Hmag : 0 <= IEEE.round_mag m e <= 2 ^ 30 + 1).
    { unfold IEEE.round_mag. destruct e as [| p | p].
      - rewrite Z.shiftl_0_r. split; [lia |].
        assert (2 ^ Zpos (digits2_pos m) <= 2 ^ 30) by (apply Z.pow_le_mono_r; lia). lia.
      - rewrite Z.shiftl_mul_pow2 by lia. split; [lia |].
        assert (Zpos m * 2 ^ Zpos p < 2 ^ Zpos (digits2_pos m) * 2 ^ Zpos p)
          by (apply Z.mul_lt_mono_pos_r; [apply Z.pow_pos_nonneg; lia | exact Hb]).
        rewrite <- Z.pow_add_r in H by lia.
        assert (2 ^ (Zpos (digits2_pos m) + Zpos p) <= 2 ^ 30)
          by (apply Z.pow_le_mono_r; lia).
        lia.
      - rewrite Z.shiftr_div_pow2 by lia.
        assert (0 <= Zpos m / 2 ^ Zpos p) by (apply Z.div_pos; lia).
        assert (Zpos m / 2 ^ Zpos p <= 2 ^ 30).
        { apply Z.lt_le_incl. apply Z.div_lt_upper_bound; [lia |].
          apply Z.lt_le_trans with (2 ^ Zpos (digits2_pos m)); [exact Hb |].
          rewrite <- Z.pow_add_r by lia. apply Z.pow_le_mono_r; lia. }
        destruct (Z.testbit (Zpos m) (Zpos p - 1)); lia. }
    unfold IEEE.int_of_mag, IEEE.INT_MIN, IEEE.INT_MAX. cbn [cond_Zopp].
    replace ((- 2 ^ 31 <=? IEEE.round_mag m e) && (IEEE.round_mag m e <=? 2 ^ 31 - 1))
      with true; [lia |].
    symmetry. apply andb_true_iff. rewrite !Z.leb_le. lia.
Qed.

End FloatBounds.

Lemma of_int_bounded n E :
  0 <= n < 2 ^ E -> 0 <= E <= 24 ->
  nonneg (F32.of_int n) /\ below E (F32.of_int n).
Proof.
  intros Hn HE. destruct F32_format as [H1 H2]. unfold F32.of_int.
  assert (Hlt : 2 ^ E <= 2 ^ 24) by (apply Z.pow_le_mono_r; lia).
  rewrite (of_Z_int F32.prec F32.emax H1 H2 n) by (unfold F32.prec; lia).
  destruct n as [| p | p]; [split; exact I | | lia].
  split; [exact I |]. unfold int_float, F32.prec. cbn [below].
  pose proof (digits2_pos_le F32.prec F32.emax H1 H2 p E ltac:(lia) ltac:(lia)) as Hd.
  pose proof (digits2_pos_le F32.prec F32.emax H1 H2 p 24 ltac:(lia) ltac:(lia)) as Hd'.
  rewrite (digits2_shl F32.prec F32.emax H1 H2) by lia. lia.
Qed.

Lemma block_diff_in_range pkt b :
  (forall b', 0 <= b' < 11 -> block_rotation pkt b' < 36000) ->
  0 <= b < 12 -> 0 <= block_diff pkt b < 36000.
Proof.
  intros Hrot Hb. unfold block_diff, BLOCKS_PER_PACKET.
  destruct (b <? 12 - 1) eqn:E.
  - apply Z.ltb_lt in E. apply rotation_delta_in_range. apply Hrot. lia.
  - apply rotation_delta_in_range. apply Hrot. lia.
Qed.

(** With a bounded profile and rotations below 36000, the interpolated
    azimuth of every slot is not negative and rounds inside [int]. *)
Lemma rounded_azimuth_nonneg spec pkt b s l :
  profile_bounded spec ->
  (forall b', 0 <= b' < 11 -> block_rotation pkt b' < 36000) ->
  0 <= b < 12 ->
  0 <= s < firing_seqs_per_block spec ->
  0 <= l < lasers_per_firing_seq spec ->
  0 <= rounded_azimuth spec pkt b s l.
Proof.
  intros (Hfd & Bfd & Hfsd & Bfsd & Hbd & Hlpf & Hlpfs & Hfspb) Hrot Hb Hs Hl.
  destruct F32_format as [H1 H2].
  assert (Hemin : emin F32.prec F32.emax = -149) by reflexivity.
  assert (Hemax : F32.emax = 128) by reflexivity.
  assert (Hprec : F32.prec = 24) by reflexivity.
  unfold rounded_azimuth, azimuth_corrected_f.
  pose proof (block_rotation_range pkt b) as Hr.
  pose proof (block_diff_in_range pkt b Hrot Hb) as Hd.
  assert (Hq : 0 <= Z.quot l (lasers_per_firing spec) < 2 ^ 5).
  { split; [apply Z.quot_pos; lia |].
    apply Z.le_lt_trans with l; [| lia].
    apply Z.quot_le_upper_bound; [lia |]. nia. }
  destruct (of_int_bounded _ 5 Hq ltac:(lia)) as [Nq Bq].
  destruct (of_int_bounded s 5 ltac:(lia) ltac:(lia)) as [Ns Bs].
  destruct (of_int_bounded (block_diff pkt b) 16 ltac:(lia) ltac:(lia)) as [Nd Bd].
  destruct (of_int_bounded (block_rotation pkt b) 16 ltac:(lia) ltac:(lia)) as [Nr Br].
  destruct (mul_bounded F32.prec F32.emax H1 H2 5 6 12 _ _ Nq Bq Hfd Bfd
              ltac:(lia) ltac:(lia) ltac:(lia)) as [Nfo Bfo].
  destruct (mul_bounded F32.prec F32.emax H1 H2 5 6 12 _ _ Ns Bs Hfsd Bfsd
              ltac:(lia) ltac:(lia) ltac:(lia)) as [Nso Bso].
  destruct (add_bounded F32.prec F32.emax H1 H2 12 _ _ Nfo Bfo Nso Bso
              ltac:(lia) ltac:(lia)) as [Nt Bt].
  destruct (mul_bounded F32.prec F32.emax H1 H2 16 14 31 _ _ Nd Bd Nt Bt
              ltac:(lia) ltac:(lia) ltac:(lia)) as [Np Bp].
  destruct (div_bounded F32.prec F32.emax H1 H2 31 6 27 _ _ Np Bp Hbd
              ltac:(lia) ltac:(lia) ltac:(lia)) as [Nv Bv].
  destruct (add_bounded F32.prec F32.emax H1 H2 27 _ _
              Nr (below_le 16 27 _ ltac:(lia) Br) Nv Bv
              ltac:(lia) ltac:(lia)) as [Na Ba].
  apply (round_to_int_nonneg F32.prec F32.emax H1 H2); [exact Na |].
  apply (below_le 29); [lia | exact Ba].
Qed.

(** X15: with a profile whose timing constants are bounded as the
    data-sheet ones are (firing durations from 0 to below 64, block
    duration at least 32, at most 32 lasers and 32 firing sequences per
    block, a positive number of lasers per firing), a VLP decode of a
    packet whose first eleven blocks report rotations below 36000
    stays inside the rotation tables: the interpolated azimuth of every
    slot rounds to a non-negative [int], so the index it is reduced to
    lies in [0, 36000), and the decode does not depend on anything
    outside the tables. *)
Theorem vlp_lookups_inside_tables
    (this : RawData) (pkt : VelodynePacket) :
  profile_bounded (vlp_spec_ this) ->
  (forall b, 0 <= b < 11 -> block_rotation pkt b < 36000) ->
  (forall b s l,
     0 <= b < 12 ->
     0 <= s < firing_seqs_per_block (vlp_spec_ this) ->
     0 <= l < lasers_per_firing_seq (vlp_spec_ this) ->
     0 <= IEEE.round_to_int
            (azimuth_corrected_f (vlp_spec_ this) (F32.of_int (block_rotation pkt b))
               (F32.of_int (block_diff pkt b)) s l)
     /\ 0 <= azimuth_corrected (vlp_spec_ this) (F32.of_int (block_rotation pkt b))
               (F32.of_int (block_diff pkt b)) s l < 36000)
  /\ (forall this' pc,
        tables_agree this this' ->
        unpack_vlp this pkt pc = unpack_vlp this' pkt pc).
Proof.
  intros Hprofile Hrot.
  assert (Hnn : forall b s l,
             0 <= b < 12 ->
             0 <= s < firing_seqs_per_block (vlp_spec_ this) ->
             0 <= l < lasers_per_firing_seq (vlp_spec_ this) ->
             0 <= rounded_azimuth (vlp_spec_ this) pkt b s l)
    by (intros b s l Hb Hs Hl; apply rounded_azimuth_nonneg; assumption).
  split.
  - intros b s l Hb Hs Hl. specialize (Hnn b s l Hb Hs Hl).
    unfold rounded_azimuth in Hnn. split; [exact Hnn |].
    apply in_table_iff. apply azimuth_corrected_in_table. left. exact Hnn.
  - intros this' pc Hag. apply unpack_vlp_tables; [exact Hag |].
    intros b s l Hb Hs Hl _. apply Hnn; assumption.
Qed.

(** ** The bytes a decode call reads *)

Lemma same_blocks_header pkt pkt' b :
  same_blocks pkt pkt' -> 0 <= b < 12 -> block_header pkt b = block_header pkt' b.
Proof.
  intros [_ H] Hb. unfold block_header, uint16_at.
  change (BLOCKS_PER_PACKET * SIZE_BLOCK) with 1200 in H. change SIZE_BLOCK with 100.
  rewrite (H (b * 100)), (H (b * 100 + 1)) by lia. reflexivity.
Qed.

Lemma same_blocks_rotation pkt pkt' b :
  same_blocks pkt pkt' -> 0 <= b < 12 -> block_rotation pkt b = block_rotation pkt' b.
Proof.
  intros [_ H] Hb. unfold block_rotation, uint16_at.
  change (BLOCKS_PER_PACKET * SIZE_BLOCK) with 1200 in H. change SIZE_BLOCK with 100.
  rewrite (H (b * 100 + 2)), (H (b * 100 + 2 + 1)) by lia. reflexivity.
Qed.

Lemma same_blocks_data pkt pkt' b k :
  same_blocks pkt pkt' -> 0 <= b < 12 -> 0 <= k < 96 ->
  block_data pkt b k = block_data pkt' b k.
Proof.
  intros [_ H] Hb Hk. unfold block_data.
  change (BLOCKS_PER_PACKET * SIZE_BLOCK) with 1200 in H. change SIZE_BLOCK with 100.
  apply H. lia.
Qed.

Lemma legacy_scan_same_blocks this pkt pkt' i k c :
  same_blocks pkt pkt' -> 0 <= i < 12 -> 0 <= k <= 93 ->
  legacy_scan this pkt i k c = legacy_scan this pkt' i k c.
Proof.
  intros Hsame Hi Hk. unfold legacy_scan, block_uint.
  rewrite (same_blocks_rotation pkt pkt' i Hsame Hi).
  rewrite (same_blocks_data pkt pkt' i k Hsame Hi) by lia.
  rewrite (same_blocks_data pkt pkt' i (k + 1) Hsame Hi) by lia.
  rewrite (same_blocks_data pkt pkt' i (k + 2) Hsame Hi) by lia.
  rewrite (proj1 Hsame). reflexivity.
Qed.

Lemma vlp_scan_at_same_blocks this pkt pkt' az b s k c :
  same_blocks pkt pkt' -> 0 <= b < 12 -> 0 <= k <= 93 ->
  vlp_scan_at this pkt az b s k c = vlp_scan_at this pkt' az b s k c.
Proof.
  intros Hsame Hb Hk. unfold vlp_scan_at, block_uint.
  rewrite (same_blocks_data pkt pkt' b k Hsame Hb) by lia.
  rewrite (same_blocks_data pkt pkt' b (k + 1) Hsame Hb) by lia.
  rewrite (same_blocks_data pkt pkt' b (k + 2) Hsame Hb) by lia.
  rewrite (proj1 Hsame). reflexivity.
Qed.

(** What holds of the loop variables when a loop completes. *)
Lemma for_count_inv {St} (Inv : Z -> St -> Prop) n :
  forall lo (body : Z -> St -> M St) s pc s' pc',
  Inv lo s ->
  (forall i s pc s' pc', lo <= i < lo + Z.of_nat n -> Inv i s ->
     body i s pc = (inl s', pc') -> Inv (i + 1) s') ->
  for_count n lo body s pc = (inl s', pc') ->
  Inv (lo + Z.of_nat n) s'.
Proof.
  induction n; intros lo body s pc s' pc' Hs Hstep Hrun.
  - cbn in Hrun. injection Hrun as <- _. rewrite Z.add_0_r. exact Hs.
  - cbn [for_count] in Hrun. unfold bind in Hrun.
    destruct (body lo s pc) as [[s1 | e] pc1] eqn:E; [| discriminate].
    replace (lo + Z.of_nat (S n)) with (lo + 1 + Z.of_nat n) by lia.
    apply (IHn (lo + 1) body s1 pc1 s' pc'); [| | exact Hrun].
    + apply (Hstep lo s pc s1 pc1); [lia | exact Hs | exact E].
    + intros i s0 pc0 s0' pc0' Hi. apply Hstep. lia.
Qed.

(** A channel slot advances the byte offset by 3 when it completes. *)
Lemma slot_advances {A} (v : list A) i (f : A -> option VPoint.t) (k : Z) pc k' pc' :
  bind (at_ v i)
    (fun a =>
       bind (match f a with Some point => push_back point | None => ret tt end)
            (fun _ => ret (k + RAW_SCAN_SIZE))) pc
  = (inl k', pc') ->
  k' = k + 3.
Proof.
  unfold bind. destruct (at_ v i pc) as [[a | e] pc1]; [| discriminate].
  destruct (f a); cbn; intros H; injection H as <- _; reflexivity.
Qed.

Lemma unpack_legacy_same_blocks this pkt pkt' pc :
  same_blocks pkt pkt' ->
  unpack_legacy this pkt pc = unpack_legacy this pkt' pc.
Proof.
  intros Hsame. unfold unpack_legacy, bind, for_.
  change (Z.to_nat (BLOCKS_PER_PACKET - 0)) with 12%nat.
  rewrite (for_count_ext _ 0 (unpack_legacy_block this pkt) (unpack_legacy_block this pkt'));
    [reflexivity |].
  intros i [] pc0 Hi. unfold unpack_legacy_block, bind, for_.
  rewrite <- (same_blocks_header pkt pkt' i Hsame) by lia.
  change (Z.to_nat (SCANS_PER_BLOCK - 0)) with 32%nat.
  rewrite (for_count_ext_inv (fun j k => k = 3 * j) 32 0 _
             (fun j k =>
                bind (at_ (laser_corrections (calibration_ this))
                        ((j + (if block_header pkt i =? LOWER_BANK then 32 else 0)) mod 256))
                  (fun corrections =>
                     bind (match legacy_scan this pkt' i k corrections with
                           | Some point => push_back point
                           | None => ret tt
                           end)
                          (fun _ => ret (k + RAW_SCAN_SIZE))))); [reflexivity | lia |].
  intros j k pc1 Hj ->. split.
  - unfold bind.
    destruct (at_ (laser_corrections (calibration_ this)) _ pc1) as [[c | e] pc2];
      [| reflexivity].
    rewrite (legacy_scan_same_blocks this pkt pkt' i (3 * j) c Hsame) by lia.
    reflexivity.
  - intros k' pc' H.
    apply (slot_advances _ _ (fun c => legacy_scan this pkt i (3 * j) c)) in H. lia.
Qed.

Lemma vlp_block_same_blocks this pkt pkt' az azd b pc :
  same_blocks pkt pkt' ->
  0 <= b < 12 ->
  0 <= firing_seqs_per_block (vlp_spec_ this) ->
  0 <= lasers_per_firing_seq (vlp_spec_ this) ->
  firing_seqs_per_block (vlp_spec_ this) * lasers_per_firing_seq (vlp_spec_ this) <= 32 ->
  vlp_block this pkt az azd b pc = vlp_block this pkt' az azd b pc.
Proof.
  intros Hsame Hb Hfs Hlp Hslots. unfold vlp_block, for_. rewrite !Z.sub_0_r.
  set (fs := firing_seqs_per_block (vlp_spec_ this)) in *.
  set (lp := lasers_per_firing_seq (vlp_spec_ this)) in *.
  assert (Hinner : forall s k pc0,
             0 <= s < fs -> k = 3 * (s * lp) ->
             for_count (Z.to_nat lp) 0
               (fun laser k =>
                  bind (at_ (laser_corrections (calibration_ this)) laser)
                    (fun corrections =>
                       bind (match vlp_scan this pkt az azd b s laser k corrections with
                             | Some point => push_back point
                             | None => ret tt
                             end)
                            (fun _ => ret (k + RAW_SCAN_SIZE)))) k pc0
             = for_count (Z.to_nat lp) 0
                 (fun laser k =>
                    bind (at_ (laser_corrections (calibration_ this)) laser)
                      (fun corrections =>
                         bind (match vlp_scan this pkt' az azd b s laser k corrections with
                               | Some point => push_back point
                               | None => ret tt
                               end)
                              (fun _ => ret (k + RAW_SCAN_SIZE)))) k pc0).
  { intros s k pc0 Hs ->.
    apply (for_count_ext_inv (fun l k => k = 3 * (s * lp + l))); [lia |].
    intros l k pc1 Hl ->. split.
    - unfold bind.
      destruct (at_ (laser_corrections (calibration_ this)) l pc1) as [[c | e] pc2];
        [| reflexivity].
      unfold vlp_scan.
      rewrite (vlp_scan_at_same_blocks this pkt pkt' _ b s (3 * (s * lp + l)) c Hsame Hb)
        by nia.
      reflexivity.
    - intros k' pc' H.
      apply (slot_advances _ _ (fun c => vlp_scan this pkt az azd b s l _ c)) in H. lia. }
  apply (for_count_ext_inv (fun s k => k = 3 * (s * lp))); [lia |].
  intros s k pc0 Hs Hk. split.
  - apply Hinner; [lia | exact Hk].
  - intros k' pc' Hrun.
    apply (for_count_inv (fun l k => k = 3 * (s * lp + l))) in Hrun.
    + rewrite Hrun. rewrite Z2Nat.id by lia. lia.
    + lia.
    + intros l k1 pc1 k1' pc1' Hl -> H.
      apply (slot_advances _ _ (fun c => vlp_scan this pkt az azd b s l _ c)) in H. lia.
Qed.

Lemma unpack_vlp_same_blocks this pkt pkt' pc :
  same_blocks pkt pkt' ->
  0 <= firing_seqs_per_block (vlp_spec_ this) ->
  0 <= lasers_per_firing_seq (vlp_spec_ this) ->
  firing_seqs_per_block (vlp_spec_ this) * lasers_per_firing_seq (vlp_spec_ this) <= 32 ->
  unpack_vlp this pkt pc = unpack_vlp this pkt' pc.
Proof.
  intros Hsame Hfs Hlp Hslots. unfold unpack_vlp, bind, for_.
  change (Z.to_nat (BLOCKS_PER_PACKET - 0)) with 12%nat.
  rewrite (for_count_ext _ 0 (unpack_vlp_block this pkt) (unpack_vlp_block this pkt'));
    [reflexivity |].
  intros b [last slice] pc0 Hb. unfold unpack_vlp_block.
  rewrite <- (same_blocks_header pkt pkt' b Hsame) by lia.
  destruct (negb (UPPER_BANK =? block_header pkt b)); [reflexivity |].
  rewrite <- (same_blocks_rotation pkt pkt' b Hsame) by lia.
  assert (Hazd : block_azimuth_diff pkt' b last slice = block_azimuth_diff pkt b last slice).
  { unfold block_azimuth_diff, BLOCKS_PER_PACKET.
    destruct (b <? 12 - 1) eqn:E; [| reflexivity]. apply Z.ltb_lt in E.
    rewrite (same_blocks_rotation pkt pkt' b Hsame) by lia.
    rewrite (same_blocks_rotation pkt pkt' (b + 1) Hsame) by lia. reflexivity. }
  rewrite Hazd. destruct (block_azimuth_diff pkt b last slice) as [[azd last'] slice'].
  unfold bind.
  rewrite (vlp_block_same_blocks this pkt pkt' _ azd b pc0 Hsame ltac:(lia) Hfs Hlp Hslots).
  reflexivity.
Qed.

(** X16: a decode call reads the packet's arrival time and the bytes of
    its twelve blocks only, each channel slot inside the 96 data bytes
    of its block: two packets with the same time and the same first
    1200 bytes are decoded alike, whatever follows the blocks.  This
    holds for the legacy path, and for the VLP path when the profile
    has at most 32 slots per block. *)
Theorem decode_reads_blocks_only
    (this : RawData) (pkt pkt' : VelodynePacket) (pc : VPointCloud) :
  stamp pkt = stamp pkt' ->
  (forall off, 0 <= off < 1200 -> byte_at pkt off = byte_at pkt' off) ->
  (is_vlp_ this = true ->
   0 <= firing_seqs_per_block (vlp_spec_ this)
   /\ 0 <= lasers_per_firing_seq (vlp_spec_ this)
   /\ firing_seqs_per_block (vlp_spec_ this) * lasers_per_firing_seq (vlp_spec_ this)
      <= 32) ->
  run (unpackAndAdd this pkt) pc = run (unpackAndAdd this pkt') pc.
Proof.
  intros Hstamp Hbytes Hprofile.
  assert (Hsame : same_blocks pkt pkt') by (split; [exact Hstamp | exact Hbytes]).
  unfold run, unpackAndAdd. destruct (is_vlp_ this).
  - destruct (Hprofile eq_refl) as (Hfs & Hlp & Hslots).
    rewrite (unpack_vlp_same_blocks this pkt pkt' pc Hsame Hfs Hlp Hslots). reflexivity.
  - rewrite (unpack_legacy_same_blocks this pkt pkt' pc Hsame). reflexivity.
Qed.

(** ** Canonical results, and the position of a point without corrections *)

Section FloatValid.

Variables prec emax : Z.
Hypothesis Hprec : 0 < prec.
Hypothesis Hemax : prec < emax.

Lemma Zdigits2_exact z d :
  1 <= d -> 2 ^ (d - 1) <= z < 2 ^ d -> Zdigits2 z = d.
Proof using Hprec Hemax.
  intros Hd [Hlo Hhi].
  assert (Hz : 0 < z) by (pose proof (Z.pow_pos_nonneg 2 (d - 1)); lia).
  destruct z as [| p | p]; try lia. cbn [Zdigits2].
  pose proof (digits2_pos_bounds prec emax Hprec Hemax p) as [Hl Hh].
  assert (Zpos (digits2_pos p) - 1 < d).
  { apply (Z.pow_lt_mono_r_iff 2); lia. }
  assert (d - 1 < Zpos (digits2_pos p)).
  { apply (Z.pow_lt_mono_r_iff 2); lia. }
  lia.
Qed.

Lemma fexp_step t : fexp prec emax t <= fexp prec emax (t + 1) <= fexp prec emax t + 1.
Proof using Type. unfold fexp. lia. Qed.

Lemma shr_1_exact m :
  0 <= m -> shr_m (iter_pos shr_1 1 (Build_shr_record m false false)) = m / 2.
Proof using Hprec Hemax.
  intros Hm. rewrite (shr_m_iter prec emax Hprec Hemax) by (cbn [shr_m]; lia).
  cbn [shr_m]. reflexivity.
Qed.

(** The second normalisation on a mantissa that is canonical or has
    just carried into one more digit. *)
Lemma shr_fexp_canonical mr e' dq :
  1 <= dq -> fexp prec emax (dq + e') = e' ->
  2 ^ (dq - 1) <= mr <= 2 ^ dq ->
  exists p e'',
    shr_fexp prec emax mr e' loc_Exact
    = (Build_shr_record (Zpos p) false false, e'')
    /\ fexp prec emax (Zpos (digits2_pos p) + e'') = e''.
Proof using Hprec Hemax.
  intros Hdq Hfe [Hlo Hhi].
  assert (Hpos : 0 < 2 ^ (dq - 1)) by (apply Z.pow_pos_nonneg; lia).
  assert (Hpow : 2 ^ dq = 2 * 2 ^ (dq - 1)).
  { replace dq with (Z.succ (dq - 1)) at 1 by lia. apply Z.pow_succ_r. lia. }
  unfold shr_fexp, shr. cbn [shr_record_of_loc].
  destruct (Z_lt_le_dec mr (2 ^ dq)) as [Hlt | Hge].
  - rewrite (Zdigits2_exact mr dq Hdq ltac:(lia)). rewrite Hfe, Z.sub_diag.
    destruct mr as [| p | p]; try lia. exists p, e'. split; [reflexivity |].
    pose proof (Zdigits2_exact (Zpos p) dq Hdq ltac:(lia)) as Hd.
    cbn [Zdigits2] in Hd. rewrite Hd. exact Hfe.
  - assert (Hmr : mr = 2 ^ dq) by lia.
    assert (Hd : Zdigits2 mr = dq + 1).
    { apply Zdigits2_exact; [lia |]. replace (dq + 1 - 1) with dq by lia.
      rewrite Hmr. split; [lia |]. rewrite Z.pow_add_r by lia. lia. }
    rewrite Hd. pose proof (fexp_step (dq + e')) as Hstep.
    replace (dq + 1 + e') with (dq + e' + 1) by lia.
    destruct (Z.eq_dec (fexp prec emax (dq + e' + 1)) e') as [E0 | E1].
    + rewrite E0, Z.sub_diag. destruct mr as [| p | p]; try lia.
      exists p, e'. split; [reflexivity |]. cbn [Zdigits2] in Hd. rewrite Hd.
      replace (dq + 1 + e') with (dq + e' + 1) by lia. exact E0.
    + assert (E : fexp prec emax (dq + e' + 1) - e' = 1) by lia. rewrite E.
      pose proof (shr_1_exact mr ltac:(lia)) as Hm.
      assert (Hrec : iter_pos shr_1 1 (Build_shr_record mr false false)
                     = Build_shr_record (2 ^ (dq - 1)) false false).
      { rewrite Hmr. destruct dq as [| d | d]; try lia.
        rewrite Hpow. cbn [iter_pos].
        destruct (2 ^ (Zpos d - 1)) as [| q | q]; try lia. reflexivity. }
      rewrite Hrec.
      destruct (2 ^ (dq - 1)) as [| p | p] eqn:Ep; try lia.
      exists p, (e' + 1). split; [reflexivity |].
      pose proof (Zdigits2_exact (Zpos p) dq Hdq ltac:(lia)) as Hdp.
      cbn [Zdigits2] in Hdp. rewrite Hdp.
      replace (dq + (e' + 1)) with (dq + e' + 1) by lia. lia.
Qed.

(** Rounding a mantissa that has to be shifted right, or not at all,
    gives a canonical result. *)
Lemma binary_round_aux_valid s m e l :
  0 <= m -> e <= fexp prec emax (Zdigits2 m + e) ->
  valid_binary prec emax (binary_round_aux prec emax s m e l) = true.
Proof using Hprec Hemax.
  intros Hm Hn. unfold binary_round_aux.
  destruct (shr_fexp prec emax m e l) as [mrs' e'] eqn:E1.
  set (D := Zdigits2 m) in *.
  set (n := fexp prec emax (D + e) - e).
  pose proof (Zdigits2_bound prec emax Hprec Hemax m) as Hb. fold D in Hb.
  rewrite Z.abs_eq in Hb by lia.
  pose proof (Zdigits2_nonneg prec emax Hprec Hemax m) as HD0. fold D in HD0.
  assert (H1 : e' = fexp prec emax (D + e) /\ shr_m mrs' = m / 2 ^ n).
  { revert E1. unfold shr_fexp, shr. fold D. fold n.
    destruct n as [| p | p] eqn:En; intros H; injection H as <- <-.
    - rewrite shr_m_of_loc, Z.pow_0_r, Z.div_1_r. split; lia.
    - rewrite (shr_m_iter prec emax Hprec Hemax) by (rewrite shr_m_of_loc; lia).
      rewrite shr_m_of_loc. split; [lia | reflexivity].
    - lia. }
  destruct H1 as [He' Hq].
  pose proof (round_nearest_even_range prec emax Hprec Hemax
                (shr_m mrs') (loc_of_shr_record mrs')) as Hr.
  set (mr := round_nearest_even (shr_m mrs') (loc_of_shr_record mrs')) in *.
  assert (Hn0 : 0 <= n) by (unfold n; lia).
  assert (Hpn : 0 < 2 ^ n) by (apply Z.pow_pos_nonneg; lia).
  destruct (Z_le_gt_dec D n) as [Hsmall | Hbig].
  - assert (Hq0 : shr_m mrs' = 0).
    { rewrite Hq. apply Z.div_small. split; [lia |].
      apply Z.lt_le_trans with (2 ^ D); [exact Hb | apply Z.pow_le_mono_r; lia]. }
    rewrite Hq0 in Hr.
    assert (Hmr : mr = 0 \/ mr = 1) by lia.
    destruct Hmr as [-> | ->].
    + unfold shr_fexp, shr. cbn [shr_record_of_loc Zdigits2].
      destruct (fexp prec emax (0 + e') - e') as [| p | p]; cbn [shr_m]; try reflexivity.
      rewrite (shr_m_iter prec emax Hprec Hemax) by (cbn [shr_m]; lia).
      cbn [shr_m]. rewrite Z.div_0_l by lia. reflexivity.
    + assert (Hemin : e' = emin prec emax) by (unfold n in *; unfold fexp in *; lia).
      destruct (shr_fexp_canonical 1 e' 1 ltac:(lia)
                  ltac:(unfold fexp in *; lia) ltac:(cbn; lia))
        as [p [e'' [-> Hc]]].
      cbn [shr_m valid_binary].
      destruct (e'' <=? emax - prec) eqn:Ele; [| reflexivity].
      cbn [valid_binary]. unfold bounded, canonical_mantissa.
      rewrite Ele, Hc, Z.eqb_refl. reflexivity.
  - set (dq := D - n).
    assert (Hm0 : 0 < m).
    { destruct m as [| p | p]; try lia. unfold D in Hbig. cbn [Zdigits2] in Hbig. lia. }
    assert (HbD : 2 ^ (D - 1) <= m).
    { destruct m as [| p | p]; try lia. unfold D. cbn [Zdigits2].
      pose proof (digits2_pos_bounds prec emax Hprec Hemax p). lia. }
    assert (Hqb : 2 ^ (dq - 1) <= shr_m mrs' < 2 ^ dq).
    { rewrite Hq. split.
      - apply Z.div_le_lower_bound; [lia |].
        rewrite <- Z.pow_add_r by lia. replace (n + (dq - 1)) with (D - 1) by lia.
        exact HbD.
      - apply Z.div_lt_upper_bound; [lia |].
        rewrite <- Z.pow_add_r by lia. replace (n + dq) with D by lia. exact Hb. }
    destruct (shr_fexp_canonical mr e' dq ltac:(lia)
                ltac:(rewrite He'; f_equal; unfold dq, n; lia) ltac:(lia))
      as [p [e'' [-> Hc]]].
    cbn [shr_m].
    destruct (e'' <=? emax - prec) eqn:Ele; [| reflexivity].
    cbn [valid_binary]. unfold bounded, canonical_mantissa.
    rewrite Ele, Hc, Z.eqb_refl. reflexivity.
Qed.

Lemma canonical_cases m e :
  canonical_mantissa prec emax m e = true ->
  (Zpos (digits2_pos m) = prec /\ emin prec emax <= e)
  \/ (e = emin prec emax /\ Zpos (digits2_pos m) <= prec).
Proof using Type.
  unfold canonical_mantissa, fexp. rewrite Z.eqb_eq. lia.
Qed.

Lemma digits2_mul_lower mx my :
  Zpos (digits2_pos mx) + Zpos (digits2_pos my) - 1 <= Zpos (digits2_pos (mx * my)).
Proof using Hprec Hemax.
  pose proof (digits2_pos_bounds prec emax Hprec Hemax mx) as [Hx _].
  pose proof (digits2_pos_bounds prec emax Hprec Hemax my) as [Hy _].
  pose proof (digits2_pos_bounds prec emax Hprec Hemax (mx * my)) as [_ Hxy].
  set (dx := Zpos (digits2_pos mx)) in *. set (dy := Zpos (digits2_pos my)) in *.
  assert (Hdx : 1 <= dx) by (unfold dx; lia). assert (Hdy : 1 <= dy) by (unfold dy; lia).
  assert (Hlow : 2 ^ (dx + dy - 2) <= Zpos (mx * my)).
  { replace (dx + dy - 2) with ((dx - 1) + (dy - 1)) by lia.
    rewrite Z.pow_add_r, Pos2Z.inj_mul by lia.
    apply Z.mul_le_mono_nonneg; try assumption; apply Z.pow_nonneg; lia. }
  assert (dx + dy - 2 < Zpos (digits2_pos (mx * my))).
  { apply (Z.pow_lt_mono_r_iff 2); lia. }
  lia.
Qed.

(** The operations keep their results canonical. *)
Lemma mul_valid x y :
  valid_binary prec emax x = true -> valid_binary prec emax y = true ->
  valid_binary prec emax (SFmul prec emax x y) = true.
Proof using Hprec Hemax.
  intros Hx Hy.
  destruct x as [sx | sx | | sx mx ex], y as [sy | sy | | sy my ey];
    cbn [SFmul valid_binary]; try reflexivity.
  cbn [valid_binary] in Hx, Hy. unfold bounded in Hx, Hy.
  apply andb_true_iff in Hx, Hy. destruct Hx as [Cx _], Hy as [Cy _].
  apply canonical_cases in Cx, Cy.
  pose proof (digits2_mul_lower mx my) as Hd.
  apply binary_round_aux_valid; [lia |]. cbn [Zdigits2].
  assert (Hemin : emin prec emax <= 0) by (unfold emin; lia).
  unfold fexp. lia.
Qed.

Lemma of_Z_valid n : Z.abs n < 2 ^ prec -> valid_binary prec emax (IEEE.of_Z prec emax n) = true.
Proof using Hprec Hemax.
  intros Hn. rewrite (of_Z_int prec emax Hprec Hemax n Hn).
  destruct n as [| p | p]; [reflexivity | |]; unfold int_float; cbn [valid_binary];
    unfold bounded;
    rewrite (int_float_canonical prec emax Hprec Hemax p) by lia;
    pose proof (digits2_pos_le prec emax Hprec Hemax p prec ltac:(lia) ltac:(lia));
    cbn [andb]; apply Z.leb_le; lia.
Qed.

(** Multiplication by one. *)
Lemma mul_one x :
  valid_binary prec emax x = true -> IEEE.is_finite x = true ->
  SFmul prec emax x (IEEE.of_Z prec emax 1) = x.
Proof using Hprec Hemax.
  intros Hv Hf.
  assert (H1 : 1 < 2 ^ prec) by (apply Z.pow_gt_1; lia).
  rewrite (of_Z_int prec emax Hprec Hemax 1) by (cbn; lia).
  unfold int_float. cbn [digits2_pos]. set (j := prec - 1).
  destruct x as [s | s | | s m e]; try discriminate.
  - cbn [SFmul]. destruct s; reflexivity.
  - cbn [SFmul]. cbn [valid_binary] in Hv. unfold bounded in Hv.
    apply andb_true_iff in Hv. destruct Hv as [Hc He]. apply Z.leb_le in He.
    assert (Hm : (m * shl 1 j)%positive = shl m j).
    { apply Pos2Z.inj. rewrite Pos2Z.inj_mul.
      rewrite !(shl_pos prec emax Hprec Hemax) by (unfold j; lia). lia. }
    rewrite Hm. replace (xorb s false) with s by (destruct s; reflexivity).
    pose proof (binary_round_shr prec emax Hprec Hemax s m e j ltac:(unfold j; lia) Hc He)
      as Hr.
    unfold binary_round in Hr. rewrite (shl_align_eq prec emax Hprec Hemax) in Hr.
    rewrite (digits2_shl prec emax Hprec Hemax) in Hr by (unfold j; lia).
    replace (Zpos (digits2_pos m) + j + (e - j)) with (Zpos (digits2_pos m) + e) in Hr by lia.
    unfold canonical_mantissa in Hc. apply Z.eqb_eq in Hc. rewrite Hc in Hr.
    replace (e - j - e) with (- j) in Hr by lia.
    assert (Hj : 0 <= j) by (unfold j; lia).
    assert (Hs : shl (shl m j) (- j) = shl m j).
    { clearbody j. destruct j as [| d | d]; [reflexivity | reflexivity | lia]. }
    rewrite Hs, Z.min_l in Hr by (unfold j; lia).
    replace (e + - j) with (e - j) by lia. exact Hr.
Qed.

End FloatValid.

Lemma same_number_refl x : same_number x x.
Proof. left. reflexivity. Qed.

Lemma same_number_trans x y z : same_number x y -> same_number y z -> same_number x z.
Proof.
  intros [-> | [Hx Hy]] [-> | [Hy' Hz]].
  - left. reflexivity.
  - right. split; assumption.
  - right. split; assumption.
  - right. split; assumption.
Qed.

Lemma same_number_finite x y :
  same_number x y -> IEEE.is_finite y = true -> IEEE.is_finite x = true.
Proof. intros [-> | [[s ->] _]] H; [exact H | reflexivity]. Qed.

Lemma regular_zero s : regular (S754_zero s).
Proof. split; reflexivity. Qed.

Lemma mul_one32 x : regular x -> F32.mul x (F32.of_int 1) = x.
Proof.
  intros [Hv Hf]. destruct F32_format as [H1 H2].
  exact (mul_one F32.prec F32.emax H1 H2 x Hv Hf).
Qed.

Lemma add_zero_regular x s :
  regular x -> regular (F32.add x (S754_zero s)) /\ same_number (F32.add x (S754_zero s)) x.
Proof.
  intros Hx. destruct x as [sx | sx | | sx m e]; try (destruct Hx; discriminate).
  - destruct sx, s; (split; [apply regular_zero | right; split; eexists; reflexivity]).
  - split; [exact Hx | left; reflexivity].
Qed.

Lemma sub_zero_regular x s :
  regular x -> regular (F32.sub x (S754_zero s)) /\ same_number (F32.sub x (S754_zero s)) x.
Proof.
  intros Hx. destruct x as [sx | sx | | sx m e]; try (destruct Hx; discriminate).
  - destruct sx, s; (split; [apply regular_zero | right; split; eexists; reflexivity]).
  - split; [exact Hx | left; reflexivity].
Qed.

Lemma same_number_regular x y : same_number x y -> regular y -> regular x.
Proof. intros [-> | [[s ->] _]] H; [exact H | apply regular_zero]. Qed.

Lemma mul_finite_not_nan x y :
  IEEE.is_finite x = true -> IEEE.is_finite y = true -> IEEE.is_nan (F32.mul x y) = false.
Proof.
  intros Hx Hy. destruct F32_format as [H1 H2].
  destruct x as [sx | sx | | sx mx ex]; try discriminate;
    destruct y as [sy | sy | | sy my ey]; try discriminate; try reflexivity.
  unfold F32.mul. cbn [SFmul]. unfold binary_round_aux.
  destruct (shr_fexp F32.prec F32.emax (Zpos (mx * my)) (ex + ey) loc_Exact)
    as [mrs' e'] eqn:E1.
  destruct (shr_fexp_exact_bound F32.prec F32.emax H1 H2 (Zpos (mx * my)) (ex + ey) mrs' e'
              ltac:(lia) E1) as [Hnn _].
  pose proof (round_nearest_even_range F32.prec F32.emax H1 H2
                (shr_m mrs') (loc_of_shr_record mrs')) as Hr.
  set (mr := round_nearest_even (shr_m mrs') (loc_of_shr_record mrs')) in *.
  destruct (shr_fexp F32.prec F32.emax mr e' loc_Exact) as [mrs'' e''] eqn:E2.
  destruct (shr_fexp_exact_bound F32.prec F32.emax H1 H2 mr e' mrs'' e''
              ltac:(lia) E2) as [Hnn2 _].
  destruct (shr_m mrs'') as [| p | p]; [reflexivity | | lia].
  destruct (e'' <=? F32.emax - F32.prec); reflexivity.
Qed.

Lemma mul_same x x' y y' :
  same_number x x' -> same_number y y' ->
  IEEE.is_finite x' = true -> IEEE.is_finite y' = true ->
  same_number (F32.mul x y) (F32.mul x' y').
Proof.
  intros Hx Hy Fx Fy.
  pose proof (same_number_finite _ _ Hx Fx) as Fx0.
  pose proof (same_number_finite _ _ Hy Fy) as Fy0.
  destruct Hx as [-> | [[s1 ->] [s1' ->]]].
  - destruct Hy as [-> | [[s2 ->] [s2' ->]]]; [left; reflexivity |].
    right. split; apply mul_zero_r; assumption.
  - right. split; apply mul_zero_l; assumption.
Qed.

Lemma add_zero_same x s :
  IEEE.is_nan x = false -> same_number (F32.add x (S754_zero s)) x.
Proof.
  destruct x as [sx | sx | | sx m e]; try discriminate; intros _.
  - destruct sx, s; right; split; eexists; reflexivity.
  - left. reflexivity.
  - left. reflexivity.
Qed.

Lemma sub_zero_same x s :
  IEEE.is_nan x = false -> same_number (F32.sub x (S754_zero s)) x.
Proof.
  destruct x as [sx | sx | | sx m e]; try discriminate; intros _.
  - destruct sx, s; right; split; eexists; reflexivity.
  - left. reflexivity.
  - left. reflexivity.
Qed.

Lemma neg_same x y : same_number x y -> same_number (F32.neg x) (F32.neg y).
Proof.
  intros [-> | [[s ->] [s' ->]]]; [left; reflexivity |].
  right. split; eexists; reflexivity.
Qed.

Lemma position_identity c d C S :
  identity_correction c -> regular d -> regular C -> regular S ->
  same_number (fst (fst (position c d C S))) (F32.mul d C)
  /\ same_number (snd (fst (position c d C S))) (F32.neg (F32.mul d S))
  /\ same_number (snd (position c d C S)) F32.zero.
Proof.
  intros (Hdc & Htwo & Hvo & Hho & Hcr & Hsr & Hcv & Hsv) Hd HC HS.
  unfold position. rewrite Htwo, Hvo, Hho, Hcr, Hsr, Hcv, Hsv.
  cbv zeta. cbn [fst snd]. unfold F32.zero.
  change (F32.of_int 0) with (S754_zero false).
  rewrite !(mul_one32 C HC), !(mul_one32 S HS).
  destruct (mul_zero_r C false (proj2 HC)) as [sC ->].
  destruct (mul_zero_r S false (proj2 HS)) as [sS ->].
  destruct (add_zero_regular C sS HC) as [Rcra Scra].
  destruct (sub_zero_regular S sC HS) as [Rsra Ssra].
  set (cra := F32.add C (S754_zero sS)) in *.
  set (sra := F32.sub S (S754_zero sC)) in *.
  destruct (add_zero_regular d false Hd) as [Rdx Sdx].
  set (dx := F32.add d (S754_zero false)) in *.
  rewrite !(mul_one32 dx Rdx).
  destruct (mul_zero_l false (S754_zero false) eq_refl) as [s00 ->].
  destruct (sub_zero_regular dx s00 Rdx) as [Rxy Sxy].
  set (xy := F32.sub dx (S754_zero s00)) in *.
  destruct (mul_zero_l false cra (proj2 Rcra)) as [s0c ->].
  destruct (mul_zero_l false sra (proj2 Rsra)) as [s0s ->].
  destruct (mul_zero_r dx false (proj2 Rdx)) as [sd0 ->].
  destruct (mul_zero_l false (F32.of_int 1) eq_refl) as [s01 ->].
  assert (Sxyd : same_number xy d) by (apply (same_number_trans _ dx); assumption).
  split; [| split].
  - apply (same_number_trans _ (F32.mul xy cra)).
    + apply add_zero_same. apply mul_finite_not_nan; [exact (proj2 Rxy) | exact (proj2 Rcra)].
    + apply mul_same; [exact Sxyd | exact Scra | exact (proj2 Hd) | exact (proj2 HC)].
  - apply neg_same. apply (same_number_trans _ (F32.mul xy sra)).
    + apply sub_zero_same. apply mul_finite_not_nan; [exact (proj2 Rxy) | exact (proj2 Rsra)].
    + apply mul_same; [exact Sxyd | exact Ssra | exact (proj2 Hd) | exact (proj2 HS)].
  - destruct (add_zero_zero sd0 s01) as [sz ->].
    right. split; eexists; reflexivity.
Qed.

Lemma below_finite E x : below E x -> IEEE.is_finite x = true.
Proof. destruct x; cbn [below]; intros H; try contradiction; reflexivity. Qed.

(** The distance of a slot, for a resolution that is canonical, not
    negative and below [2^64]. *)
Lemma distance_regular u res :
  0 <= u <= 65535 -> regular res -> nonneg res -> below 64 res ->
  regular (F32.mul (F32.of_int u) res)
  /\ regular (F32.add (F32.mul (F32.of_int u) res) F32.zero)
  /\ same_number (F32.add (F32.mul (F32.of_int u) res) F32.zero)
       (F32.mul (F32.of_int u) res).
Proof.
  intros Hu [Hv Hf] Hnn Hb. destruct F32_format as [H1 H2].
  destruct (of_int_bounded u 16 ltac:(lia) ltac:(lia)) as [Nu Bu].
  destruct (mul_bounded F32.prec F32.emax H1 H2 16 64 81 _ _ Nu Bu Hnn Hb
              ltac:(lia) ltac:(unfold emin, F32.prec, F32.emax; lia)
              ltac:(unfold F32.prec, F32.emax; lia)) as [_ Br].
  assert (Rr : regular (F32.mul (F32.of_int u) res)).
  { split; [| exact (below_finite _ _ Br)].
    apply (mul_valid F32.prec F32.emax H1 H2); [| exact Hv].
    apply (of_Z_valid F32.prec F32.emax H1 H2). unfold F32.prec. lia. }
  split; [exact Rr |]. exact (add_zero_regular _ false Rr).
Qed.

Lemma position_identity_distance c u res C S :
  identity_correction c ->
  0 <= u <= 65535 -> regular res -> nonneg res -> below 64 res ->
  regular C -> regular S ->
  let r := F32.mul (F32.of_int u) res in
  let xyz := position c (F32.add r (dist_correction c)) C S in
  same_number (fst (fst xyz)) (F32.mul r C)
  /\ same_number (snd (fst xyz)) (F32.neg (F32.mul r S))
  /\ same_number (snd xyz) F32.zero.
Proof.
  intros Hid Hu Hres Hnn Hb HC HS r xyz. subst xyz.
  rewrite (proj1 Hid).
  destruct (distance_regular u res Hu Hres Hnn Hb) as (Rr & Rd & Sd). fold r in Rr, Rd, Sd.
  destruct (position_identity c _ C S Hid Rd HC HS) as (Hx & Hy & Hz).
  split; [| split; [| exact Hz]].
  - apply (same_number_trans _ _ _ Hx).
    apply mul_same; [exact Sd | apply same_number_refl | exact (proj2 Rr) | exact (proj2 HC)].
  - apply (same_number_trans _ _ _ Hy). apply neg_same.
    apply mul_same; [exact Sd | apply same_number_refl | exact (proj2 Rr) | exact (proj2 HS)].
Qed.

(** X17: with a calibration entry that applies no correction, rotation
    tables that hold regular numbers and a distance resolution that is
    regular, not negative and below [2^64], the point of a channel
    slot is [(r * cos, - (r * sin), 0)], where [r] is the distance word
    times the resolution and [cos], [sin] are the table entries at the
    slot's azimuth: each coordinate is that single rounded product,
    exactly, up to the sign of a zero.  This holds in both paths, the
    azimuth being the raw rotation in the legacy path and the
    interpolated one in the VLP path. *)
Theorem identity_calibration_point
    (this : RawData) (pkt : VelodynePacket) (corrections : LaserCorrection) :
  identity_correction corrections ->
  (forall i, 0 <= i < 36000 ->
     regular (cos_rot_table_ this i) /\ regular (sin_rot_table_ this i)) ->
  (regular DISTANCE_RESOLUTION -> nonneg DISTANCE_RESOLUTION ->
   below 64 DISTANCE_RESOLUTION ->
   forall block k p,
     block_rotation pkt block < 36000 ->
     legacy_scan this pkt block k corrections = Some p ->
     let r := F32.mul (F32.of_int (block_uint pkt block k)) DISTANCE_RESOLUTION in
     same_number (VPoint.x p)
       (F32.mul r (cos_rot_table_ this (block_rotation pkt block)))
     /\ same_number (VPoint.y p)
          (F32.neg (F32.mul r (sin_rot_table_ this (block_rotation pkt block))))
     /\ same_number (VPoint.z p) F32.zero)
  /\ (regular (distance_resolution (vlp_spec_ this)) ->
      nonneg (distance_resolution (vlp_spec_ this)) ->
      below 64 (distance_resolution (vlp_spec_ this)) ->
      forall azimuth block firing_seq k p,
        0 <= azimuth < 36000 ->
        vlp_scan_at this pkt azimuth block firing_seq k corrections = Some p ->
        let r := F32.mul (F32.of_int (block_uint pkt block k))
                   (distance_resolution (vlp_spec_ this)) in
        same_number (VPoint.x p) (F32.mul r (cos_rot_table_ this azimuth))
        /\ same_number (VPoint.y p) (F32.neg (F32.mul r (sin_rot_table_ this azimuth)))
        /\ same_number (VPoint.z p) F32.zero).
Proof.
  intros Hid Htab. split.
  - intros Hres Hnn Hb block k p Hrot Hscan r.
    pose proof (block_rotation_range pkt block) as Hr.
    destruct (Htab (block_rotation pkt block) ltac:(lia)) as [HC HS].
    pose proof (position_identity_distance corrections (block_uint pkt block k)
                  DISTANCE_RESOLUTION _ _ Hid (block_uint_range pkt block k)
                  Hres Hnn Hb HC HS) as H.
    cbv zeta in H. fold r in H. revert Hscan. unfold legacy_scan.
    destruct (azimuth_in_view _ _); [| discriminate].
    destruct (position _ _ _ _) as [[xc yc] zc].
    destruct (pointInRange _ _); [| discriminate].
    intros E. injection E as <-. exact H.
  - intros Hres Hnn Hb azimuth block firing_seq k p Haz Hscan r.
    destruct (Htab azimuth Haz) as [HC HS].
    pose proof (position_identity_distance corrections (block_uint pkt block k)
                  (distance_resolution (vlp_spec_ this)) _ _ Hid
                  (block_uint_range pkt block k) Hres Hnn Hb HC HS) as H.
    cbv zeta in H. fold r in H. revert Hscan. unfold vlp_scan_at.
    destruct (azimuth_in_view _ _); [| discriminate].
    destruct (position _ _ _ _) as [[xc yc] zc].
    destruct (pointInRange _ _); [| discriminate].
    intros E. injection E as <-. exact H.
Qed.

(** ** The remainder of the decoder and the remainder of the specification *)

(** For rotations below 36000 the [%] of the decoder is the
    mathematical remainder. *)
Lemma rotation_delta_spec pkt b :
  block_rotation pkt b < 36000 -> rotation_delta pkt b = spec_rotation_delta pkt b.
Proof.
  intros Hb. unfold rotation_delta, spec_rotation_delta.
  pose proof (block_rotation_range pkt b). pose proof (block_rotation_range pkt (b + 1)).
  apply Z.rem_mod_nonneg; lia.
Qed.

Lemma block_diff_spec pkt b :
  (forall b', 0 <= b' < 11 -> block_rotation pkt b' < 36000) ->
  0 <= b < 12 -> block_diff pkt b = spec_azimuth_diff pkt b.
Proof.
  intros Hrot Hb. unfold block_diff, spec_azimuth_diff, BLOCKS_PER_PACKET.
  destruct (b <? 12 - 1) eqn:E.
  - apply Z.ltb_lt in E. apply rotation_delta_spec. apply Hrot. lia.
  - apply rotation_delta_spec. apply Hrot. lia.
Qed.

Lemma sweep_spec pkt :
  (forall b, 0 <= b < 11 -> block_rotation pkt b < 36000) ->
  sweep pkt 11 = spec_sweep pkt.
Proof.
  intros Hrot. unfold spec_sweep.
  change (zrange 11 0) with [0; 1; 2; 3; 4; 5; 6; 7; 8; 9; 10].
  change (sweep pkt 11)
    with (0 + rotation_delta pkt 0 + rotation_delta pkt 1 + rotation_delta pkt 2
          + rotation_delta pkt 3 + rotation_delta pkt 4 + rotation_delta pkt 5
          + rotation_delta pkt 6 + rotation_delta pkt 7 + rotation_delta pkt 8
          + rotation_delta pkt 9 + rotation_delta pkt 10).
  rewrite !rotation_delta_spec by (apply Hrot; lia).
  cbn [map fold_right]. lia.
Qed.

Lemma spec_rotation_delta_range pkt b : 0 <= spec_rotation_delta pkt b < 36000.
Proof. unfold spec_rotation_delta. apply Z.mod_pos_bound. lia. Qed.

Lemma spec_sweep_range pkt : 0 <= spec_sweep pkt <= 395989.
Proof.
  unfold spec_sweep. change (zrange 11 0) with [0; 1; 2; 3; 4; 5; 6; 7; 8; 9; 10].
  cbn [map fold_right].
  pose proof (spec_rotation_delta_range pkt 0). pose proof (spec_rotation_delta_range pkt 1).
  pose proof (spec_rotation_delta_range pkt 2). pose proof (spec_rotation_delta_range pkt 3).
  pose proof (spec_rotation_delta_range pkt 4). pose proof (spec_rotation_delta_range pkt 5).
  pose proof (spec_rotation_delta_range pkt 6). pose proof (spec_rotation_delta_range pkt 7).
  pose proof (spec_rotation_delta_range pkt 8). pose proof (spec_rotation_delta_range pkt 9).
  pose proof (spec_rotation_delta_range pkt 10). lia.
Qed.

(** With a bounded profile and rotations below 36000 the azimuth the
    decoder computes for a slot is the one of the specification. *)
Lemma interpolated_azimuth_spec spec pkt b s l :
  profile_bounded spec ->
  (forall b', 0 <= b' < 11 -> block_rotation pkt b' < 36000) ->
  0 <= b < 12 ->
  0 <= s < firing_seqs_per_block spec ->
  0 <= l < lasers_per_firing_seq spec ->
  interpolated_azimuth spec pkt b s l = spec_azimuth spec pkt b s l.
Proof.
  intros Hprofile Hrot Hb Hs Hl.
  pose proof (rounded_azimuth_nonneg spec pkt b s l Hprofile Hrot Hb Hs Hl) as Hnn.
  destruct Hprofile as (_ & _ & _ & _ & _ & Hlpf & _ & _).
  unfold rounded_azimuth, azimuth_corrected_f in Hnn.
  rewrite (Z.quot_div_nonneg l (lasers_per_firing spec)) in Hnn by lia.
  unfold interpolated_azimuth, spec_azimuth.
  rewrite <- (block_diff_spec pkt b Hrot Hb).
  apply Z.rem_mod_nonneg; [exact Hnn | lia].
Qed.

Lemma vlp_points_at_ext azimuth azimuth' this pkt n :
  (n <= 12)%nat ->
  (forall b s l,
     0 <= b < 12 ->
     0 <= s < firing_seqs_per_block (vlp_spec_ this) ->
     0 <= l < lasers_per_firing_seq (vlp_spec_ this) ->
     azimuth b s l = azimuth' b s l) ->
  vlp_points_at azimuth this pkt n = vlp_points_at azimuth' this pkt n.
Proof.
  intros Hn H. unfold vlp_points_at.
  apply flat_map_ext_in. intros b Hb. apply zrange_In in Hb.
  apply flat_map_ext_in. intros s Hs. apply zrange_In in Hs.
  apply flat_map_ext_in. intros l Hl. apply zrange_In in Hl.
  unfold vlp_slot_at. rewrite (H b s l) by lia. reflexivity.
Qed.

(** C4 (as amended): on a VLP packet whose headers are all valid the
    decode call returns the sum of the inter-block azimuth deltas
    [(36000 + rotation(b+1) - rotation(b)) % 36000] of blocks 0 to 10
    (the sum is exact in [float]); the legacy path returns -1; a VLP
    packet with an invalid header makes the call return -1; and -1 is
    negative.  The deltas are remainders of [%], which keeps the sign
    of its left operand.  When blocks 0 to 10 report rotations below
    36000 each delta is the remainder modulo 36000, and the value
    returned is the sum the specification names, which is not
    negative. *)
Theorem unpackAndAdd_return_value
    (this : RawData) (pkt : VelodynePacket) (pc : VPointCloud) :
  (is_vlp_ this = true -> headers_valid pkt BLOCKS_PER_PACKET ->
   calibration_covers this ->
   fst (run (unpackAndAdd this pkt) pc)
   = Returned
       (F32.of_int
          (rotation_delta pkt 0 + rotation_delta pkt 1 + rotation_delta pkt 2
           + rotation_delta pkt 3 + rotation_delta pkt 4 + rotation_delta pkt 5
           + rotation_delta pkt 6 + rotation_delta pkt 7 + rotation_delta pkt 8
           + rotation_delta pkt 9 + rotation_delta pkt 10)))
  /\ (is_vlp_ this = false -> legacy_calibration_covers this pkt ->
      fst (run (unpackAndAdd this pkt) pc) = Returned minus_one)
  /\ (forall b, is_vlp_ this = true -> 0 <= b < BLOCKS_PER_PACKET ->
        headers_valid pkt b -> block_header pkt b <> UPPER_BANK ->
        calibration_covers this ->
        fst (run (unpackAndAdd this pkt) pc) = Returned minus_one)
  /\ F32.ltb minus_one (F32.of_int 0) = true
  /\ (forall b, block_rotation pkt b < 36000 ->
        rotation_delta pkt b
        = (36000 + block_rotation pkt (b + 1) - block_rotation pkt b) mod 36000)
  /\ ((forall b, 0 <= b < BLOCKS_PER_PACKET - 1 -> block_rotation pkt b < 36000) ->
      is_vlp_ this = true -> headers_valid pkt BLOCKS_PER_PACKET ->
      calibration_covers this ->
      fst (run (unpackAndAdd this pkt) pc) = Returned (F32.of_int (spec_sweep pkt))
      /\ 0 <= spec_sweep pkt <= 395989
      /\ F32.ltb (F32.of_int (spec_sweep pkt)) (F32.of_int 0) = false).
Proof.
  unfold unpackAndAdd. split; [| split; [| split; [| split; [| split]]]].
  - intros -> Hhdr Hcal.
    destruct (blocks_append_some this pkt Hcal) as [g Hg].
    rewrite (unpack_vlp_valid this pkt g pc Hhdr Hg). cbn [fst sweep Z.of_nat].
    reflexivity.
  - intros -> Hcal. rewrite (unpack_legacy_run this pkt pc Hcal). reflexivity.
  - intros b -> Hb Hhdr Hbad Hcal.
    destruct (blocks_append_some this pkt Hcal) as [g Hg].
    rewrite (unpack_vlp_invalid this pkt g pc b Hb Hhdr Hbad Hg). reflexivity.
  - exact minus_one_negative.
  - intros b Hb. unfold rotation_delta.
    pose proof (block_rotation_range pkt b). pose proof (block_rotation_range pkt (b + 1)).
    apply Z.rem_mod_nonneg; lia.
  - intros Hrot -> Hhdr Hcal. unfold BLOCKS_PER_PACKET in Hrot.
    destruct (blocks_append_some this pkt Hcal) as [g Hg].
    rewrite (unpack_vlp_valid this pkt g pc Hhdr Hg). cbn [fst].
    rewrite (sweep_spec pkt) by (intros b Hb; apply Hrot; lia).
    pose proof (spec_sweep_range pkt) as Hs.
    split; [reflexivity |]. split; [exact Hs |].
    apply of_int_not_negative. change (2 ^ 24) with 16777216. lia.
Qed.

(** C3 (as amended): a VLP decode of a packet with valid headers
    appends exactly the points of the slots [(b, s, l)] in firing
    order, each slot tested against the field of view and looked up in
    the rotation tables at [interpolated_azimuth]: the rotation of
    block [b] plus its azimuth step times
    [(floor (l / lasers_per_firing) * firing_duration
    + s * firing_seq_duration) / block_duration], rounded and reduced
    by 36000 with [%], where the azimuth step is
    [(36000 + rotation(b+1) - rotation(b)) % 36000] for [b < 11] and the
    step of block 10 for the final block.  [%] keeps the sign of its
    left operand.  When the profile's timing constants are bounded as
    the data-sheet ones are and blocks 0 to 10 report rotations below
    36000, both reductions are the remainder modulo 36000: the azimuth
    of every slot is the one the specification gives, in [0, 36000),
    and the cloud is the one of the slots decoded at that azimuth. *)
Theorem unpack_vlp_interpolates_azimuth
    (this : RawData) (pkt : VelodynePacket) (pc : VPointCloud) :
  headers_valid pkt BLOCKS_PER_PACKET ->
  calibration_covers this ->
  0 <= lasers_per_firing (vlp_spec_ this) ->
  snd (run (unpack_vlp this pkt) pc) = append_points pc (vlp_points this pkt 12)
  /\ (forall b s l, 0 <= l ->
        azimuth_corrected (vlp_spec_ this) (F32.of_int (block_rotation pkt b))
          (F32.of_int (block_diff pkt b)) s l
        = interpolated_azimuth (vlp_spec_ this) pkt b s l)
  /\ (forall b, 0 <= b < BLOCKS_PER_PACKET - 1 ->
        block_diff pkt b
        = Z.rem (36000 + block_rotation pkt (b + 1) - block_rotation pkt b) 36000)
  /\ block_diff pkt (BLOCKS_PER_PACKET - 1) = block_diff pkt (BLOCKS_PER_PACKET - 2)
  /\ (forall b, block_rotation pkt b < 36000 ->
        rotation_delta pkt b
        = (36000 + block_rotation pkt (b + 1) - block_rotation pkt b) mod 36000)
  /\ (forall azimuth azimuth_diff s l,
        0 <= IEEE.round_to_int
               (azimuth_corrected_f (vlp_spec_ this) azimuth azimuth_diff s l) ->
        azimuth_corrected (vlp_spec_ this) azimuth azimuth_diff s l
        = IEEE.round_to_int
            (azimuth_corrected_f (vlp_spec_ this) azimuth azimuth_diff s l) mod 36000)
  /\ (profile_bounded (vlp_spec_ this) ->
      (forall b, 0 <= b < BLOCKS_PER_PACKET - 1 -> block_rotation pkt b < 36000) ->
      (forall b s l,
         0 <= b < BLOCKS_PER_PACKET ->
         0 <= s < firing_seqs_per_block (vlp_spec_ this) ->
         0 <= l < lasers_per_firing_seq (vlp_spec_ this) ->
         azimuth_corrected (vlp_spec_ this) (F32.of_int (block_rotation pkt b))
           (F32.of_int (block_diff pkt b)) s l
         = spec_azimuth (vlp_spec_ this) pkt b s l
         /\ block_diff pkt b = spec_azimuth_diff pkt b
         /\ 0 <= spec_azimuth (vlp_spec_ this) pkt b s l < 36000)
      /\ snd (run (unpack_vlp this pkt) pc)
         = append_points pc
             (vlp_points_at (spec_azimuth (vlp_spec_ this) pkt) this pkt 12)).
Proof.
  intros Hhdr Hcal Hlpf.
  assert (Hrun : snd (run (unpack_vlp this pkt) pc)
                 = append_points pc (vlp_points this pkt 12)).
  { rewrite (unpack_vlp_valid this pkt (vlp_block_points this pkt) pc Hhdr)
      by (apply blocks_append_reference; assumption).
    reflexivity. }
  assert (Hcode : forall b s l, 0 <= l ->
             azimuth_corrected (vlp_spec_ this) (F32.of_int (block_rotation pkt b))
               (F32.of_int (block_diff pkt b)) s l
             = interpolated_azimuth (vlp_spec_ this) pkt b s l).
  { intros b s l Hl. unfold azimuth_corrected, azimuth_corrected_f, interpolated_azimuth.
    assert (Hq : Z.quot l (lasers_per_firing (vlp_spec_ this))
                 = l / lasers_per_firing (vlp_spec_ this)).
    { destruct (Z.eq_dec (lasers_per_firing (vlp_spec_ this)) 0) as [-> | Hne].
      - rewrite Z.div_0_r. apply Z.quot_0_r_ext. reflexivity.
      - apply Z.quot_div_nonneg; lia. }
    rewrite Hq. reflexivity. }
  split; [exact Hrun |]. split; [exact Hcode |].
  split; [| split; [| split; [| split]]].
  - intros b Hb. unfold block_diff, rotation_delta.
    replace (b <? BLOCKS_PER_PACKET - 1) with true by (symmetry; apply Z.ltb_lt; lia).
    reflexivity.
  - reflexivity.
  - intros b Hb. unfold rotation_delta.
    pose proof (block_rotation_range pkt b). pose proof (block_rotation_range pkt (b + 1)).
    apply Z.rem_mod_nonneg; lia.
  - intros azimuth azimuth_diff s l Hr. unfold azimuth_corrected.
    apply Z.rem_mod_nonneg; lia.
  - intros Hprofile Hrot. unfold BLOCKS_PER_PACKET in *.
    assert (Hrot' : forall b, 0 <= b < 11 -> block_rotation pkt b < 36000)
      by (intros b Hb; apply Hrot; lia).
    split.
    + intros b s l Hb Hs Hl.
      rewrite (Hcode b s l) by lia.
      rewrite (interpolated_azimuth_spec _ pkt b s l Hprofile Hrot' Hb Hs Hl).
      split; [reflexivity |]. split; [apply block_diff_spec; assumption |].
      unfold spec_azimuth. apply Z.mod_pos_bound. lia.
    + rewrite Hrun. f_equal.
      change (vlp_points this pkt 12)
        with (vlp_points_at (interpolated_azimuth (vlp_spec_ this) pkt) this pkt 12).
      apply vlp_points_at_ext; [lia |].
      intros b s l Hb Hs Hl. apply interpolated_azimuth_spec; assumption.
Qed.

End Decoder.

(** * Instances on the concrete decoder *)


Lemma setParameters_widens_collapsed_window_witness :
  min_angle (config_ (setParameters Example.vlp16 (F64.decimal 4 1) (F64.of_int 130)
                        (F64.of_int 0) (F64.of_int 0))) = 0
  /\ max_angle (config_ (setParameters Example.vlp16 (F64.decimal 4 1) (F64.of_int 130)
                           (F64.of_int 0) (F64.of_int 0))) = 36000.
Proof.
  apply (setParameters_widens_collapsed_window Example.vlp16 (F64.decimal 4 1)
           (F64.of_int 130) (F64.of_int 0) (F64.of_int 0)).
  vm_compute. reflexivity.
Defined.

Lemma below_12 (P : Z -> Prop) :
  P 0 -> P 1 -> P 2 -> P 3 -> P 4 -> P 5 -> P 6 -> P 7 -> P 8 -> P 9 -> P 10 -> P 11 ->
  forall b, 0 <= b < 12 -> P b.
Proof.
  intros H0 H1 H2 H3 H4 H5 H6 H7 H8 H9 H10 H11 b Hb.
  assert (b = 0 \/ b = 1 \/ b = 2 \/ b = 3 \/ b = 4 \/ b = 5 \/ b = 6 \/ b = 7
          \/ b = 8 \/ b = 9 \/ b = 10 \/ b = 11) as Hc by lia.
  repeat (destruct Hc as [-> | Hc]; [assumption |]). subst b. assumption.
Qed.

Lemma valid_packet_headers :
  headers_valid Example.UPPER_BANK Example.valid_packet BLOCKS_PER_PACKET.
Proof.
  unfold headers_valid, BLOCKS_PER_PACKET.
  apply (below_12 (fun b => block_header Example.valid_packet b = Example.UPPER_BANK));
    vm_compute; reflexivity.
Qed.

Lemma rejected_packet_headers :
  headers_valid Example.UPPER_BANK Example.rejected_packet 1.
Proof.
  intros b Hb. assert (b = 0) as -> by lia. vm_compute. reflexivity.
Qed.

Lemma vlp16_calibration_covers : calibration_covers Example.vlp16.
Proof. unfold calibration_covers. vm_compute. discriminate. Qed.

(** The rejected packet: block 0 decodes to a point, block 1 is refused,
    and the point of block 0 is in the cloud. *)
Lemma unpack_vlp_stops_at_first_invalid_block_witness :
  run (unpack_vlp Example.UPPER_BANK Example.Duration_of_double Example.Time_plus
         Example.vlp16 Example.rejected_packet) Example.empty_cloud
  = (Returned minus_one,
     append_points Example.empty_cloud
       (vlp_points Example.Duration_of_double Example.Time_plus
          Example.vlp16 Example.rejected_packet 1)).
Proof.
  apply (unpack_vlp_stops_at_first_invalid_block Example.UPPER_BANK
           Example.Duration_of_double Example.Time_plus
           Example.vlp16 Example.rejected_packet Example.empty_cloud 1).
  - unfold BLOCKS_PER_PACKET. lia.
  - exact rejected_packet_headers.
  - vm_compute. discriminate.
  - exact vlp16_calibration_covers.
  - vm_compute. discriminate.
Defined.

(** A bad header does not leave the cloud as it was, in general: a
    packet with an invalid header in block 1 and a return in block 0
    leaves one point in the cloud. *)
Lemma unpack_vlp_discards_whole_packet_counterexample :
  ~ (forall this pkt pc,
       (exists b, 0 <= b < BLOCKS_PER_PACKET
                  /\ block_header pkt b <> Example.UPPER_BANK) ->
       exists v,
         run (unpack_vlp Example.UPPER_BANK Example.Duration_of_double Example.Time_plus
                this pkt) pc = (Returned v, pc)
         /\ F32.ltb v (F32.of_int 0) = true).
Proof.
  intros H.
  destruct (H Example.vlp16 Example.rejected_packet Example.empty_cloud) as [v [Hrun _]].
  - exists 1. split; [unfold BLOCKS_PER_PACKET; lia | vm_compute; discriminate].
  - vm_compute in Hrun. discriminate.
Qed.

(** C1: the code at the failing input.  The packet carries a return in
    the first channel of each of its twelve blocks, and the header of
    block 1 is zeroed.  The decode call returns -1, which is negative,
    but the cloud, empty before the call, is not empty afterwards: it
    holds one point, the one of block 0, which was decoded and pushed
    before the header of block 1 was tested; it is the first of the
    twelve points the intact packet yields.  Nothing rolls it back. *)
Theorem unpack_vlp_rejected_packet_keeps_points :
  block_header Example.rejected_packet 1 <> Example.UPPER_BANK
  /\ fst (run (unpackAndAdd Example.UPPER_BANK Example.LOWER_BANK
                 Example.DISTANCE_RESOLUTION Example.Duration_of_double Example.Time_plus
                 Example.vlp16 Example.rejected_packet) Example.empty_cloud)
     = Returned minus_one
  /\ F32.ltb minus_one (F32.of_int 0) = true
  /\ snd (run (unpackAndAdd Example.UPPER_BANK Example.LOWER_BANK
                 Example.DISTANCE_RESOLUTION Example.Duration_of_double Example.Time_plus
                 Example.vlp16 Example.rejected_packet) Example.empty_cloud)
     <> Example.empty_cloud
  /\ width (snd (run (unpackAndAdd Example.UPPER_BANK Example.LOWER_BANK
                        Example.DISTANCE_RESOLUTION Example.Duration_of_double
                        Example.Time_plus
                        Example.vlp16 Example.rejected_packet) Example.empty_cloud))
     = 1
  /\ points (snd (run (unpackAndAdd Example.UPPER_BANK Example.LOWER_BANK
                         Example.DISTANCE_RESOLUTION Example.Duration_of_double
                         Example.Time_plus
                         Example.vlp16 Example.rejected_packet) Example.empty_cloud))
     = firstn 1
         (points (snd (run (unpackAndAdd Example.UPPER_BANK Example.LOWER_BANK
                              Example.DISTANCE_RESOLUTION Example.Duration_of_double
                              Example.Time_plus
                              Example.vlp16 Example.valid_packet) Example.empty_cloud)))
  /\ List.length
       (points (snd (run (unpackAndAdd Example.UPPER_BANK Example.LOWER_BANK
                            Example.DISTANCE_RESOLUTION Example.Duration_of_double
                            Example.Time_plus
                            Example.vlp16 Example.valid_packet) Example.empty_cloud)))
     = 12%nat
  /\ List.length
       (points (snd (run (unpackAndAdd Example.UPPER_BANK Example.LOWER_BANK
                            Example.DISTANCE_RESOLUTION Example.Duration_of_double
                            Example.Time_plus
                            Example.vlp16 Example.rejected_packet) Example.empty_cloud)))
     = 1%nat.
Proof.
  split; [vm_compute; discriminate |].
  split; [vm_compute; reflexivity |].
  split; [reflexivity |].
  split; [vm_compute; discriminate |].
  repeat split; vm_compute; reflexivity.
Qed.

Lemma tables_agree_refl this : tables_agree this this.
Proof. unfold tables_agree. repeat split. Qed.

Lemma rotation_table_lookups_witness :
  unpack_vlp Example.UPPER_BANK Example.Duration_of_double Example.Time_plus
    Example.vlp16_wrapped Example.valid_packet Example.empty_cloud
  = unpack_vlp Example.UPPER_BANK Example.Duration_of_double Example.Time_plus
      Example.vlp16_wrapped Example.valid_packet Example.empty_cloud
  /\ (in_table (block_rotation Example.stray_rotation_packet 10) = true
      <-> block_rotation Example.stray_rotation_packet 10 < 36000).
Proof.
  pose proof (rotation_table_lookups Example.UPPER_BANK Example.LOWER_BANK
                Example.DISTANCE_RESOLUTION Example.Duration_of_double Example.Time_plus
                Example.vlp16_wrapped Example.vlp16_wrapped Example.valid_packet
                Example.empty_cloud (tables_agree_refl _)) as [_ [Hvlp _]].
  pose proof (rotation_table_lookups Example.UPPER_BANK Example.LOWER_BANK
                Example.DISTANCE_RESOLUTION Example.Duration_of_double Example.Time_plus
                Example.vlp16_wrapped Example.vlp16_wrapped Example.stray_rotation_packet
                Example.empty_cloud (tables_agree_refl _)) as [_ [_ [Hleg _]]].
  split.
  - apply Hvlp. apply vlp_azimuths_nonnegativeb_sound. vm_compute. reflexivity.
  - apply (Hleg 10).
Defined.

(** C10 as stated fails: with block 10 at rotation 40000 and block 11 at
    rotation 0, laser 1 of block 11 is looked up at index -83. *)
Lemma vlp_table_index_counterexample :
  ~ (forall spec pkt b s l,
       0 <= b < BLOCKS_PER_PACKET ->
       0 <= s < firing_seqs_per_block spec ->
       0 <= l < lasers_per_firing_seq spec ->
       in_table (azimuth_corrected spec (F32.of_int (block_rotation pkt b))
                   (F32.of_int (block_diff pkt b)) s l) = true).
Proof.
  intros H.
  specialize (H Example.VLP_16_SPEC Example.stray_rotation_packet 11 0 1).
  assert (Hidx : azimuth_corrected Example.VLP_16_SPEC
                   (F32.of_int (block_rotation Example.stray_rotation_packet 11))
                   (F32.of_int (block_diff Example.stray_rotation_packet 11)) 0 1 = -83)
    by (vm_compute; reflexivity).
  rewrite Hidx in H.
  assert (in_table (-83) = true) as Hin
    by (apply H; [unfold BLOCKS_PER_PACKET; lia | vm_compute; split; congruence
                 | vm_compute; split; congruence]).
  vm_compute in Hin. discriminate.
Qed.

(** The decoder reads that entry: two decoders that agree on the tables
    proper decode the packet to different clouds. *)
Lemma stray_rotation_reads_outside_tables :
  tables_agree Example.vlp16_wrapped Example.vlp16_wrapped'
  /\ headers_valid Example.UPPER_BANK Example.stray_rotation_packet BLOCKS_PER_PACKET
  /\ unpack_vlp Example.UPPER_BANK Example.Duration_of_double Example.Time_plus
       Example.vlp16_wrapped Example.stray_rotation_packet Example.empty_cloud
     <> unpack_vlp Example.UPPER_BANK Example.Duration_of_double Example.Time_plus
          Example.vlp16_wrapped' Example.stray_rotation_packet Example.empty_cloud.
Proof.
  split; [| split].
  - unfold tables_agree. repeat split.
    cbn. apply in_table_iff in H. destruct (i <? 0) eqn:E; [apply Z.ltb_lt in E; lia |].
    reflexivity.
  - unfold headers_valid, BLOCKS_PER_PACKET.
    apply (below_12 (fun b => block_header Example.stray_rotation_packet b
                              = Example.UPPER_BANK)); vm_compute; reflexivity.
  - vm_compute. discriminate.
Qed.

(** C2: the code at the failing input.  On a return at half range (word
    32768, raw intensity 10, focal distance 0, focal slope 1) the VLP
    decode yields the intensity 10 = 10 + |256 - 256|, the legacy decode
    of the same bytes the intensity 202 + 1/512 (13238400 * 2^-16), which
    is what the formula
    [raw + slope * |focal_offset - 256 * (1 - d/65535)^2|] gives in
    [float] arithmetic. *)
Theorem vlp_intensity_at_half_range :
  vlp_intensity (Example.plain_laser 0) 32768 10 = F32.of_int 10
  /\ legacy_intensity (Example.plain_laser 0) 32768 10 = S754_finite false 13238400 (-16)
  /\ map VPoint.intensity
       (points (snd (run (unpack_vlp Example.UPPER_BANK Example.Duration_of_double
                            Example.Time_plus Example.vlp16 Example.half_range_packet)
                         Example.empty_cloud)))
     = [F32.of_int 10]
  /\ map VPoint.intensity
       (points (snd (run (unpack_legacy Example.LOWER_BANK Example.DISTANCE_RESOLUTION
                            Example.legacy64 Example.half_range_packet)
                         Example.empty_cloud)))
     = [S754_finite false 13238400 (-16)].
Proof. repeat split; vm_compute; reflexivity. Qed.

Lemma vlp32_calibration_covers :
  calibration_covers
    (snd (setup Example.ROTATION_RESOLUTION Example.VLP_16_SPEC Example.VLP_32_SPEC
            Example.cosf Example.sinf Example.Duration_of_double
            Example.vlp16 (Example.calibration 32) (Some "VLP32"%string))).
Proof. unfold calibration_covers. vm_compute. discriminate. Qed.

(** The 16-laser decoder has no table; the VLP32 decoder stamps the
    twelve points of the example packet, one per block, with the packet
    time (250 ns past the second) plus 55296 ns per block. *)
Lemma setup_selects_timing_offsets_witness :
  timing_offsets_
    (snd (setup Example.ROTATION_RESOLUTION Example.VLP_16_SPEC Example.VLP_32_SPEC
            Example.cosf Example.sinf Example.Duration_of_double
            Example.vlp16 (Example.calibration 16) None)) = []
  /\ timing_offsets_
       (snd (setup Example.ROTATION_RESOLUTION Example.VLP_16_SPEC Example.VLP_32_SPEC
               Example.cosf Example.sinf Example.Duration_of_double
               Example.vlp16 (Example.calibration 32) (Some "VLP32"%string))) <> []
  /\ map point_time
       (points
          (snd (run (unpackAndAdd Example.UPPER_BANK Example.LOWER_BANK
                       Example.DISTANCE_RESOLUTION Example.Duration_of_double
                       Example.Time_plus
                       (snd (setup Example.ROTATION_RESOLUTION Example.VLP_16_SPEC
                               Example.VLP_32_SPEC Example.cosf Example.sinf
                               Example.Duration_of_double
                               Example.vlp16 (Example.calibration 32)
                               (Some "VLP32"%string)))
                       Example.valid_packet)
                  Example.empty_cloud)))
     = map (fun n => {| sec := 1500000000; nsec := n |})
         [250; 55546; 110842; 166138; 221434; 276730; 332026; 387322; 442618;
          497914; 553210; 608506].
Proof.
  split; [| split].
  - apply (setup_selects_timing_offsets Example.UPPER_BANK Example.LOWER_BANK
             Example.DISTANCE_RESOLUTION Example.ROTATION_RESOLUTION
             Example.VLP_16_SPEC Example.VLP_32_SPEC Example.cosf Example.sinf
             Example.Duration_of_double Example.Time_plus
             Example.vlp16 (Example.calibration 16) None eq_refl).
    reflexivity.
  - apply (setup_selects_timing_offsets Example.UPPER_BANK Example.LOWER_BANK
             Example.DISTANCE_RESOLUTION Example.ROTATION_RESOLUTION
             Example.VLP_16_SPEC Example.VLP_32_SPEC Example.cosf Example.sinf
             Example.Duration_of_double Example.Time_plus
             Example.vlp16 (Example.calibration 32) (Some "VLP32"%string) eq_refl).
    + cbn. discriminate.
    + reflexivity.
  - pose proof (setup_selects_timing_offsets Example.UPPER_BANK Example.LOWER_BANK
                  Example.DISTANCE_RESOLUTION Example.ROTATION_RESOLUTION
                  Example.VLP_16_SPEC Example.VLP_32_SPEC Example.cosf Example.sinf
                  Example.Duration_of_double Example.Time_plus
                  Example.vlp16 (Example.calibration 32) (Some "VLP32"%string) eq_refl)
      as [_ [_ H32]].
    destruct (H32 ltac:(cbn; discriminate) eq_refl) as (_ & _ & _ & _ & Hslots).
    destruct (Hslots Example.valid_packet Example.empty_cloud 12%nat
                vlp32_calibration_covers ltac:(vm_compute; discriminate)
                ltac:(lia) valid_packet_headers (or_introl eq_refl))
      as [Hrun Htimes].
    rewrite Hrun. cbn [points append_points Example.empty_cloud app].
    rewrite Htimes. vm_compute. reflexivity.
Defined.

Lemma getVLP32TimingOffsets_entries_witness :
  nth_error (nth 3 (getVLP32TimingOffsets Example.VLP_32_SPEC Example.Duration_of_double) [])
            5
  = Some (vlp32_offset Example.VLP_32_SPEC Example.Duration_of_double 3 5).
Proof.
  apply (proj2 (proj2 (proj2 (getVLP32TimingOffsets_entries Example.VLP_32_SPEC
                                Example.Duration_of_double)) 3 5 ltac:(lia) ltac:(lia))).
Defined.

Lemma plain_decoders_variant : zero_delta_variant Example.vlp16 Example.vlp16_two_pt.
Proof.
  unfold zero_delta_variant. repeat split.
  cbn. repeat (constructor; [right; split; reflexivity |]). constructor.
Qed.

Lemma plain_decoder_inputs_finite pkt :
  two_pt_inputs_finite Example.DISTANCE_RESOLUTION Example.vlp16 pkt.
Proof.
  intros c b k az Hin _ _.
  apply in_map_iff in Hin. destruct Hin as [ring [<- _]].
  pose proof (block_uint_range pkt b k) as Hu.
  change (two_pt_finite (Example.plain_laser 0)
            (F32.add (F32.mul (F32.of_int (block_uint pkt b k)) Example.DISTANCE_RESOLUTION)
                     (F32.of_int 0))
            (F32.of_int 1) (F32.of_int 0) = true).
  apply (forallb_zrange
           (fun u => two_pt_finite (Example.plain_laser 0)
                       (F32.add (F32.mul (F32.of_int u) Example.DISTANCE_RESOLUTION)
                                (F32.of_int 0))
                       (F32.of_int 1) (F32.of_int 0))
           (Z.to_nat 65536) 0 (block_uint pkt b k));
    [vm_compute; reflexivity | rewrite Z2Nat.id by lia; lia].
Qed.

Lemma two_pt_zero_delta_same_cloud_witness :
  run (unpackAndAdd Example.UPPER_BANK Example.LOWER_BANK Example.DISTANCE_RESOLUTION
         Example.Duration_of_double Example.Time_plus
         Example.vlp16 Example.valid_packet) Example.empty_cloud
  = run (unpackAndAdd Example.UPPER_BANK Example.LOWER_BANK Example.DISTANCE_RESOLUTION
           Example.Duration_of_double Example.Time_plus
           Example.vlp16_two_pt Example.valid_packet) Example.empty_cloud.
Proof.
  apply (two_pt_zero_delta_same_cloud Example.UPPER_BANK Example.LOWER_BANK
           Example.DISTANCE_RESOLUTION Example.Duration_of_double Example.Time_plus
           Example.vlp16 Example.vlp16_two_pt Example.valid_packet Example.empty_cloud).
  - exact plain_decoders_variant.
  - exact (plain_decoder_inputs_finite Example.valid_packet).
Defined.

Lemma unbounded_decoders_variant :
  zero_delta_variant Example.vlp16_unbounded Example.vlp16_unbounded_two_pt.
Proof.
  unfold zero_delta_variant. repeat split.
  cbn. repeat (constructor; [right; split; reflexivity |]). constructor.
Qed.

(** C9 as stated fails: with an infinite horizontal offset the
    interpolation multiplies 0 by an infinity, and the point that has an
    infinite coordinate without two-point correction has a NaN there
    with it. *)
Lemma two_pt_zero_delta_counterexample :
  ~ (forall this1 this2 pkt pc,
       zero_delta_variant this1 this2 ->
       run (unpackAndAdd Example.UPPER_BANK Example.LOWER_BANK Example.DISTANCE_RESOLUTION
              Example.Duration_of_double Example.Time_plus this1 pkt) pc
       = run (unpackAndAdd Example.UPPER_BANK Example.LOWER_BANK
                Example.DISTANCE_RESOLUTION Example.Duration_of_double Example.Time_plus
                this2 pkt) pc).
Proof.
  intros H.
  specialize (H Example.vlp16_unbounded Example.vlp16_unbounded_two_pt
                Example.half_range_packet Example.empty_cloud unbounded_decoders_variant).
  vm_compute in H. discriminate.
Qed.

(** ** The further properties on the example decoders *)

Lemma legacy64_calibration_covers pkt :
  legacy_calibration_covers Example.LOWER_BANK Example.legacy64 pkt.
Proof.
  intros i _. pose proof (bank_origin_range Example.LOWER_BANK pkt i) as H.
  change (Z.of_nat (List.length (laser_corrections (calibration_ Example.legacy64))))
    with 64.
  unfold SCANS_PER_BLOCK. lia.
Qed.

Lemma unpack_legacy_decodes_every_block_witness :
  fst (run (unpackAndAdd Example.UPPER_BANK Example.LOWER_BANK Example.DISTANCE_RESOLUTION
              Example.Duration_of_double Example.Time_plus
              Example.legacy64 Example.valid_packet) Example.empty_cloud)
  = Returned (F32.of_int (-1)).
Proof.
  rewrite (unpack_legacy_decodes_every_block Example.UPPER_BANK Example.LOWER_BANK
             Example.DISTANCE_RESOLUTION Example.Duration_of_double Example.Time_plus
             Example.legacy64 Example.valid_packet Example.empty_cloud).
  - reflexivity.
  - reflexivity.
  - apply legacy64_calibration_covers.
Defined.

Lemma unpack_legacy_throws_iff_witness :
  fst (run (unpackAndAdd Example.UPPER_BANK Example.LOWER_BANK Example.DISTANCE_RESOLUTION
              Example.Duration_of_double Example.Time_plus
              Example.legacy16 Example.valid_packet) Example.empty_cloud)
  = Threw.
Proof.
  apply (proj1 (unpack_legacy_throws_iff Example.UPPER_BANK Example.LOWER_BANK
                  Example.DISTANCE_RESOLUTION Example.Duration_of_double Example.Time_plus
                  Example.legacy16 Example.valid_packet Example.empty_cloud eq_refl)).
  exists 0. split; [lia |]. vm_compute. reflexivity.
Defined.

Lemma unpack_vlp_throws_iff_witness :
  fst (run (unpackAndAdd Example.UPPER_BANK Example.LOWER_BANK Example.DISTANCE_RESOLUTION
              Example.Duration_of_double Example.Time_plus
              Example.vlp16_short Example.valid_packet) Example.empty_cloud)
  = Threw.
Proof.
  apply (unpack_vlp_throws_iff Example.UPPER_BANK Example.LOWER_BANK
           Example.DISTANCE_RESOLUTION Example.Duration_of_double Example.Time_plus
           Example.vlp16_short Example.valid_packet Example.empty_cloud eq_refl).
  split; [vm_compute; reflexivity |]. split; vm_compute; reflexivity.
Defined.

Lemma decode_with_closed_gate_witness :
  snd (run (unpackAndAdd Example.UPPER_BANK Example.LOWER_BANK Example.DISTANCE_RESOLUTION
              Example.Duration_of_double Example.Time_plus
              Example.vlp16_collapsed Example.valid_packet) Example.empty_cloud)
  = Example.empty_cloud.
Proof.
  apply (decode_with_closed_gate Example.UPPER_BANK Example.LOWER_BANK
           Example.DISTANCE_RESOLUTION Example.Duration_of_double Example.Time_plus
           Example.vlp16_collapsed Example.valid_packet Example.empty_cloud).
  left. reflexivity.
Defined.

Lemma first_firing_at_block_rotation_witness :
  azimuth_corrected Example.VLP_16_SPEC
    (F32.of_int (block_rotation Example.valid_packet 3))
    (F32.of_int (block_diff Example.valid_packet 3)) 0 0
  = 220.
Proof.
  apply (proj2 (first_firing_at_block_rotation Example.vlp16 Example.valid_packet 3 0
                  ltac:(vm_compute; reflexivity) ltac:(vm_compute; reflexivity)
                  ltac:(vm_compute; reflexivity)
                  ltac:(vm_compute; split; [discriminate | reflexivity]))).
  vm_compute. reflexivity.
Defined.

Lemma valid_packet_rotations :
  forall b, 0 <= b < 11 ->
    block_rotation Example.valid_packet b <= block_rotation Example.valid_packet (b + 1)
    < 36000.
Proof.
  intros b Hb.
  assert (b = 0 \/ b = 1 \/ b = 2 \/ b = 3 \/ b = 4 \/ b = 5 \/ b = 6 \/ b = 7
          \/ b = 8 \/ b = 9 \/ b = 10) as Hc by lia.
  repeat (destruct Hc as [-> | Hc]; [vm_compute; split; [discriminate | reflexivity] |]).
  subst b. vm_compute. split; [discriminate | reflexivity].
Qed.

Lemma unpack_vlp_sweep_not_negative_witness :
  exists n,
    fst (run (unpackAndAdd Example.UPPER_BANK Example.LOWER_BANK Example.DISTANCE_RESOLUTION
                Example.Duration_of_double Example.Time_plus
                Example.vlp16 Example.valid_packet) Example.empty_cloud)
    = Returned (F32.of_int n)
    /\ 0 <= n <= 395989
    /\ F32.ltb (F32.of_int n) (F32.of_int 0) = false
    /\ F32.of_int n <> minus_one.
Proof.
  apply (unpack_vlp_sweep_not_negative Example.UPPER_BANK Example.LOWER_BANK
           Example.DISTANCE_RESOLUTION Example.Duration_of_double Example.Time_plus
           Example.vlp16 Example.valid_packet Example.empty_cloud).
  - reflexivity.
  - exact valid_packet_headers.
  - exact vlp16_calibration_covers.
  - intros b Hb. apply valid_packet_rotations in Hb. lia.
Defined.

Lemma unpack_vlp_sweep_telescopes_witness :
  exists n,
    fst (run (unpackAndAdd Example.UPPER_BANK Example.LOWER_BANK Example.DISTANCE_RESOLUTION
                Example.Duration_of_double Example.Time_plus
                Example.vlp16 Example.valid_packet) Example.empty_cloud)
    = Returned (F32.of_int n)
    /\ (exists q,
          n = block_rotation Example.valid_packet 11 - block_rotation Example.valid_packet 0
              + 36000 * q)
    /\ ((forall b, 0 <= b < 11 ->
           block_rotation Example.valid_packet b
           <= block_rotation Example.valid_packet (b + 1) < 36000) ->
        n = block_rotation Example.valid_packet 11 - block_rotation Example.valid_packet 0)
    /\ ((forall b, 0 <= b <= 11 -> block_rotation Example.valid_packet b < 36000) ->
        (n = block_rotation Example.valid_packet 11 - block_rotation Example.valid_packet 0
         <-> forall b, 0 <= b < 11 ->
               block_rotation Example.valid_packet b
               <= block_rotation Example.valid_packet (b + 1))).
Proof.
  apply (unpack_vlp_sweep_telescopes Example.UPPER_BANK Example.LOWER_BANK
           Example.DISTANCE_RESOLUTION Example.Duration_of_double Example.Time_plus
           Example.vlp16 Example.valid_packet Example.empty_cloud).
  - reflexivity.
  - exact valid_packet_headers.
  - exact vlp16_calibration_covers.
Defined.

Lemma empty_returns_are_dropped_witness :
  vlp_scan_at Example.Duration_of_double Example.Time_plus
    Example.vlp16 Example.valid_packet 100 0 0 3 (Example.plain_laser 1)
  = None.
Proof.
  apply (proj1 (empty_returns_are_dropped Example.UPPER_BANK Example.LOWER_BANK
                  Example.DISTANCE_RESOLUTION Example.Duration_of_double Example.Time_plus
                  Example.vlp16 Example.valid_packet Example.empty_cloud
                  ltac:(vm_compute; reflexivity) ltac:(vm_compute; reflexivity)
                  ltac:(vm_compute; reflexivity)) 0 3 (Example.plain_laser 1)).
  - vm_compute. reflexivity.
  - exists false. reflexivity.
Defined.

(** The timing constants of both data sheets are within the bounds. *)
Lemma data_sheet_profiles_bounded :
  profile_bounded Example.VLP_16_SPEC /\ profile_bounded Example.VLP_32_SPEC.
Proof.
  split; vm_compute; repeat split; discriminate.
Qed.

Lemma vlp_lookups_inside_tables_witness :
  0 <= azimuth_corrected Example.VLP_16_SPEC
         (F32.of_int (block_rotation Example.valid_packet 11))
         (F32.of_int (block_diff Example.valid_packet 11)) 1 15
  < 36000.
Proof.
  apply (proj1 (vlp_lookups_inside_tables Example.UPPER_BANK Example.Duration_of_double
                  Example.Time_plus Example.vlp16 Example.valid_packet
                  (proj1 data_sheet_profiles_bounded)
                  ltac:(intros b Hb; pose proof (valid_packet_rotations b Hb); lia))
           11 1 15); vm_compute; split; discriminate || reflexivity.
Defined.

Lemma trailer_packet_blocks off :
  0 <= off < 1200 -> byte_at Example.valid_packet off = byte_at Example.trailer_packet off.
Proof.
  intros Hoff.
  assert (H : forallb (fun o => byte_at Example.valid_packet o =? byte_at Example.trailer_packet o)
                (zrange 1200 0) = true) by (vm_compute; reflexivity).
  rewrite forallb_zrange_iff in H. apply Z.eqb_eq. apply H. lia.
Qed.

Lemma decode_reads_blocks_only_witness :
  run (unpackAndAdd Example.UPPER_BANK Example.LOWER_BANK Example.DISTANCE_RESOLUTION
         Example.Duration_of_double Example.Time_plus Example.vlp16 Example.valid_packet)
      Example.empty_cloud
  = run (unpackAndAdd Example.UPPER_BANK Example.LOWER_BANK Example.DISTANCE_RESOLUTION
           Example.Duration_of_double Example.Time_plus Example.vlp16 Example.trailer_packet)
        Example.empty_cloud.
Proof.
  apply (decode_reads_blocks_only Example.UPPER_BANK Example.LOWER_BANK
           Example.DISTANCE_RESOLUTION Example.Duration_of_double Example.Time_plus
           Example.vlp16 Example.valid_packet Example.trailer_packet Example.empty_cloud
           eq_refl trailer_packet_blocks).
  intros _. vm_compute. repeat split; discriminate.
Defined.

Lemma plain_laser_identity ring : identity_correction (Example.plain_laser ring).
Proof. repeat split. Qed.

Lemma identity_calibration_point_witness :
  exists p,
    vlp_scan_at Example.Duration_of_double Example.Time_plus
      Example.vlp16 Example.valid_packet 100 0 0 0 (Example.plain_laser 0) = Some p
    /\ same_number (VPoint.x p)
         (F32.mul (F32.mul (F32.of_int 1000) (distance_resolution Example.VLP_16_SPEC))
                  (F32.of_int 1))
    /\ same_number (VPoint.y p)
         (F32.neg (F32.mul (F32.mul (F32.of_int 1000)
                              (distance_resolution Example.VLP_16_SPEC))
                           (F32.of_int 0)))
    /\ same_number (VPoint.z p) F32.zero.
Proof.
  eexists. split; [vm_compute; reflexivity |].
  refine (proj2 (identity_calibration_point Example.DISTANCE_RESOLUTION
                   Example.Duration_of_double Example.Time_plus
                   Example.vlp16 Example.valid_packet (Example.plain_laser 0)
                   (plain_laser_identity 0) _) _ _ _ 100 0 0 0 _ _ _).
  - intros i Hi. split; split; reflexivity.
  - split; vm_compute; reflexivity.
  - vm_compute. exact I.
  - vm_compute. discriminate.
  - lia.
  - vm_compute. reflexivity.
Defined.

Lemma stray_rotation_packet_headers :
  headers_valid Example.UPPER_BANK Example.stray_rotation_packet BLOCKS_PER_PACKET.
Proof.
  unfold headers_valid, BLOCKS_PER_PACKET.
  apply (below_12 (fun b => block_header Example.stray_rotation_packet b
                            = Example.UPPER_BANK)); vm_compute; reflexivity.
Qed.

(** The example packet sweeps 440 hundredths of a degree, by either
    remainder. *)
Lemma unpackAndAdd_return_value_witness :
  fst (run (unpackAndAdd Example.UPPER_BANK Example.LOWER_BANK Example.DISTANCE_RESOLUTION
              Example.Duration_of_double Example.Time_plus
              Example.vlp16 Example.valid_packet) Example.empty_cloud)
  = Returned (F32.of_int 440)
  /\ fst (run (unpackAndAdd Example.UPPER_BANK Example.LOWER_BANK
                 Example.DISTANCE_RESOLUTION Example.Duration_of_double Example.Time_plus
                 Example.vlp16 Example.valid_packet) Example.empty_cloud)
     = Returned (F32.of_int (spec_sweep Example.valid_packet))
  /\ spec_sweep Example.valid_packet = 440.
Proof.
  pose proof (unpackAndAdd_return_value Example.UPPER_BANK Example.LOWER_BANK
                Example.DISTANCE_RESOLUTION Example.Duration_of_double Example.Time_plus
                Example.vlp16 Example.valid_packet Example.empty_cloud)
    as (Hrem & _ & _ & _ & _ & Hmod).
  split; [| split].
  - apply Hrem; [reflexivity | exact valid_packet_headers | exact vlp16_calibration_covers].
  - apply Hmod;
      [ intros b Hb; pose proof (valid_packet_rotations b Hb); lia
      | reflexivity | exact valid_packet_headers | exact vlp16_calibration_covers ].
  - vm_compute. reflexivity.
Defined.

(** C4 as stated fails: with valid headers, block 10 at rotation 40000
    and block 11 at rotation 0, the delta of block 10 is
    [(36000 + 0 - 40000) % 36000 = -4000] and the call returns -100, a
    negative value, where the sum of the remainders modulo 36000 is
    35900. *)
Lemma unpackAndAdd_return_value_counterexample :
  ~ (forall this pkt pc,
       is_vlp_ this = true ->
       headers_valid Example.UPPER_BANK pkt BLOCKS_PER_PACKET ->
       calibration_covers this ->
       fst (run (unpackAndAdd Example.UPPER_BANK Example.LOWER_BANK
                   Example.DISTANCE_RESOLUTION Example.Duration_of_double
                   Example.Time_plus this pkt) pc)
       = Returned (F32.of_int (spec_sweep pkt)))
  /\ fst (run (unpackAndAdd Example.UPPER_BANK Example.LOWER_BANK
                 Example.DISTANCE_RESOLUTION Example.Duration_of_double Example.Time_plus
                 Example.vlp16 Example.stray_rotation_packet) Example.empty_cloud)
     = Returned (F32.of_int (-100))
  /\ F32.ltb (F32.of_int (-100)) (F32.of_int 0) = true
  /\ spec_sweep Example.stray_rotation_packet = 35900
  /\ rotation_delta Example.stray_rotation_packet 10 = -4000
  /\ spec_rotation_delta Example.stray_rotation_packet 10 = 32000.
Proof.
  split.
  - intros H.
    specialize (H Example.vlp16 Example.stray_rotation_packet Example.empty_cloud
                  eq_refl stray_rotation_packet_headers vlp16_calibration_covers).
    vm_compute in H. discriminate.
  - repeat split; vm_compute; reflexivity.
Qed.

(** On the example packet the decoder's azimuths are the ones of the
    specification. *)
Lemma unpack_vlp_interpolates_azimuth_witness :
  snd (run (unpack_vlp Example.UPPER_BANK Example.Duration_of_double Example.Time_plus
              Example.vlp16 Example.valid_packet) Example.empty_cloud)
  = append_points Example.empty_cloud
      (vlp_points Example.Duration_of_double Example.Time_plus
         Example.vlp16 Example.valid_packet 12)
  /\ snd (run (unpack_vlp Example.UPPER_BANK Example.Duration_of_double Example.Time_plus
                 Example.vlp16 Example.valid_packet) Example.empty_cloud)
     = append_points Example.empty_cloud
         (vlp_points_at Example.Duration_of_double Example.Time_plus
            (spec_azimuth (vlp_spec_ Example.vlp16) Example.valid_packet)
            Example.vlp16 Example.valid_packet 12)
  /\ azimuth_corrected (vlp_spec_ Example.vlp16)
       (F32.of_int (block_rotation Example.valid_packet 11))
       (F32.of_int (block_diff Example.valid_packet 11)) 1 15
     = spec_azimuth (vlp_spec_ Example.vlp16) Example.valid_packet 11 1 15.
Proof.
  assert (H11 : 0 <= 11 < BLOCKS_PER_PACKET) by (unfold BLOCKS_PER_PACKET; lia).
  assert (H1 : 0 <= 1 < firing_seqs_per_block (vlp_spec_ Example.vlp16))
    by (vm_compute; split; discriminate || reflexivity).
  assert (H15 : 0 <= 15 < lasers_per_firing_seq (vlp_spec_ Example.vlp16))
    by (vm_compute; split; discriminate || reflexivity).
  assert (Hrot : forall b, 0 <= b < BLOCKS_PER_PACKET - 1 ->
                   block_rotation Example.valid_packet b < 36000)
    by (intros b Hb; pose proof (valid_packet_rotations b Hb); lia).
  pose proof (unpack_vlp_interpolates_azimuth Example.UPPER_BANK
                Example.Duration_of_double Example.Time_plus
                Example.vlp16 Example.valid_packet Example.empty_cloud
                valid_packet_headers vlp16_calibration_covers
                ltac:(vm_compute; discriminate))
    as (Hrun & _ & _ & _ & _ & _ & Hspec).
  destruct (Hspec (proj1 data_sheet_profiles_bounded) Hrot) as [Haz Hrun'].
  split; [exact Hrun |]. split; [exact Hrun' |].
  exact (proj1 (Haz 11 1 15 H11 H1 H15)).
Defined.

(** C3 as stated fails: with valid headers, block 10 at rotation 40000
    and block 11 at rotation 0, the azimuth step of blocks 10 and 11 is
    -4000 where the remainder modulo 36000 is 32000, and laser 1 of
    block 11 is decoded at the azimuth -83 where the formula of the
    specification gives 667; the full-circle decoder drops that slot,
    which the formula keeps. *)
Lemma unpack_vlp_interpolates_azimuth_counterexample :
  ~ (forall spec pkt b s l,
       headers_valid Example.UPPER_BANK pkt BLOCKS_PER_PACKET ->
       0 <= b < BLOCKS_PER_PACKET ->
       0 <= s < firing_seqs_per_block spec ->
       0 <= l < lasers_per_firing_seq spec ->
       azimuth_corrected spec (F32.of_int (block_rotation pkt b))
         (F32.of_int (block_diff pkt b)) s l
       = spec_azimuth spec pkt b s l)
  /\ azimuth_corrected Example.VLP_16_SPEC
       (F32.of_int (block_rotation Example.stray_rotation_packet 11))
       (F32.of_int (block_diff Example.stray_rotation_packet 11)) 0 1 = -83
  /\ spec_azimuth Example.VLP_16_SPEC Example.stray_rotation_packet 11 0 1 = 667
  /\ block_diff Example.stray_rotation_packet 10 = -4000
  /\ spec_azimuth_diff Example.stray_rotation_packet 10 = 32000
  /\ List.length
       (points (snd (run (unpack_vlp Example.UPPER_BANK Example.Duration_of_double
                            Example.Time_plus
                            Example.vlp16 Example.stray_rotation_packet)
                         Example.empty_cloud)))
     = 23%nat
  /\ List.length
       (vlp_points_at Example.Duration_of_double Example.Time_plus
          (spec_azimuth Example.VLP_16_SPEC Example.stray_rotation_packet)
          Example.vlp16 Example.stray_rotation_packet 12)
     = 24%nat.
Proof.
  split.
  - intros H.
    specialize (H Example.VLP_16_SPEC Example.stray_rotation_packet 11 0 1
                  stray_rotation_packet_headers).
    assert (Hc : azimuth_corrected Example.VLP_16_SPEC
                   (F32.of_int (block_rotation Example.stray_rotation_packet 11))
                   (F32.of_int (block_diff Example.stray_rotation_packet 11)) 0 1
                 = spec_azimuth Example.VLP_16_SPEC Example.stray_rotation_packet 11 0 1)
      by (apply H; [unfold BLOCKS_PER_PACKET; lia | vm_compute; split; congruence
                   | vm_compute; split; congruence]).
    vm_compute in Hc. discriminate.
  - repeat split; vm_compute; reflexivity.
Qed.
